(** * TopBot: connection lifecycle and command dispatch

    A shallow embedding of the WhatsApp storefront bot of this repository.
    The repository holds several generations of the same [index.js]:

    - [Telao3]     : [src/telao3/index.js]
    - [Legacy]     : [src/unnamed/part_000] (single-file auth, [qrSent] guard)
    - [Uncached]   : [src/unnamed/part_001], second script (warm-up on every
                     call); its [ensureGroupReady] and [processMessage]
    - [Supervised] : [src/unnamed/part_001], third script (attempt counter,
                     growing reconnect delay, cached group warm-up, health
                     check and keep-alive)
    - [Side]       : the listeners of reactions, of added participants and
                     of credential updates, and [syncAuthToSupabase], as the
                     scripts share them

    Of the first script of [src/unnamed/part_001] (cached warm-up, flat
    delays) only what it shares with the others in [Side] is modelled.

    Every event handler is modelled as one run-to-completion transition of a
    machine that holds the module-level variables of the script, the current
    socket instance, the local credential folder and the trace of the
    observable effects.  The collaborators the script only calls (the
    Baileys socket, the business handlers, the QR encoder, the clock) are
    an oracle [World]: every external call consumes one tick and the world
    tells whether that call resolves or rejects. *)

From Stdlib Require Import ZArith NArith QArith Qminmax Qpower.
From Stdlib Require Import List Bool Lia String Ascii.
From stdpp Require Import gmap list.
Import ListNotations.

Local Open Scope Z_scope.

(** ** JavaScript strings

    A JavaScript string is a sequence of UTF-16 code units. *)

Module Js.

Definition jsstring : Type := list N.

(** An ASCII literal of the source, as code units. *)
Definition lit (s : string) : jsstring :=
List.map N_of_ascii (list_ascii_of_string s).

(** [a === b] on strings. *)
Fixpoint eqb (a b : jsstring) : bool :=
match a, b with
| [], [] => true
| x :: a', y :: b' => N.eqb x y && eqb a' b'
| _, _ => false
end.

(** [s.startsWith(p)] *)
Fixpoint startsWith (s p : jsstring) : bool :=
match p with
| [] => true
| c :: p' =>
    match s with
    | [] => false
    | d :: s' => N.eqb d c && startsWith s' p'
    end
end.

(** [s.endsWith(p)] *)
Definition endsWith (s p : jsstring) : bool :=
startsWith (List.rev s) (List.rev p).

(** [arr.includes(s)] for an array of strings. *)
Definition includes (arr : list jsstring) (s : jsstring) : bool :=
existsb (fun a => eqb a s) arr.

(** The code units removed by [/[\u200e\u200f\u2068\u2069]/g]. *)
Definition isBidiControl (c : N) : bool :=
(N.eqb c 0x200e || N.eqb c 0x200f || N.eqb c 0x2068 || N.eqb c 0x2069)%N.

(** [s.replace(/[\u200e\u200f\u2068\u2069]/g, '')]: every such code unit
  is deleted. *)
Definition stripBidi (s : jsstring) : jsstring :=
List.filter (fun c => negb (isBidiControl c)) s.

(** ECMAScript WhiteSpace and LineTerminator code units, as removed by
  [String.prototype.trim]. *)
Definition isWhiteSpace (c : N) : bool :=
((9 <=? c) && (c <=? 13) || N.eqb c 32 || N.eqb c 0xa0 || N.eqb c 0x1680
 || (0x2000 <=? c) && (c <=? 0x200a)
 || N.eqb c 0x2028 || N.eqb c 0x2029 || N.eqb c 0x202f || N.eqb c 0x205f
 || N.eqb c 0x3000 || N.eqb c 0xfeff)%N.

Fixpoint trimStart (s : jsstring) : jsstring :=
match s with
| [] => []
| c :: s' => if isWhiteSpace c then trimStart s' else s
end.

(** [s.trim()] *)
Definition trim (s : jsstring) : jsstring :=
List.rev (trimStart (List.rev (trimStart s))).

(** Lower-casing of one ASCII code unit. *)
Definition asciiLower (c : N) : N :=
if ((65 <=? c) && (c <=? 90))%N then (c + 32)%N else c.

Definition isAscii (s : jsstring) : Prop := Forall (fun c => (c < 128)%N) s.

(** [a || b] on possibly-undefined strings: the first truthy operand, a
  string being truthy when it is not empty. *)
Definition orElse (a : option jsstring) (b : option jsstring) : option jsstring :=
match a with
| Some (_ :: _) => a
| _ => b
end.

(** The empty-string default that ends the [||] chain. *)
Definition orEmpty (a : option jsstring) : jsstring :=
match a with
| Some (c :: s) => c :: s
| _ => []
end.

End Js.

Export Js.

(** ** Messages, handlers and observable effects *)

(** The fields of an inbound message that the scripts read:
    [msg.key.remoteJid], [msg.key.fromMe], [msg.message?.conversation],
    [msg.message?.extendedTextMessage?.text], [msg.message?.text] and
    whether [msg.message?.imageMessage] is present. *)
Record Msg : Type := {
  remoteJid : jsstring;
  fromMe : bool;
  conversation : option jsstring;
  extendedText : option jsstring;
  messageText : option jsstring;
  imageMessage : bool
}.

(** What is handed to [sock.sendMessage]: [{ text }], or [{ text }] with the
    option [{ ephemeralExpiration }]. *)
Inductive Payload : Type :=
| Text (t : string)
| TextEphemeral (t : string) (ephemeralExpiration : Z).

(** An entry of [pendingMessages]: [{ jid, msg }]. *)
Record Pending : Type := { jid : jsstring; msg : Payload }.

(** The business handlers required at the top of [index.js]. *)
Inductive Handler : Type :=
| handleMessage | handleConcorrer | handleListar | handleRemove
| handlePagamento | handleGrupo | handleBan | handleCompra | handleTabela
| handleTodos | handleMensagemPix | handleComprovanteFoto
| handleAntiLinkMessage | handleCompra2.

(** The [console.error] / [console.warn] lines that report a caught fault. *)
Inductive LogLine : Type :=
| LogPendingFailed      (* "Falha ao reenviar mensagem pendente" *)
| LogQrFailed           (* "Erro ao gerar QR Code" *)
| LogAntiLink           (* console.error of the anti-link catch *)
| LogProcessFailed      (* "Erro ao processar mensagem" *)
| LogTabelaFallback     (* "Tabela fallback erro" *)
| LogGroupInitFailed    (* "Falha na inicialização do grupo" *)
| LogSenderKeyFailed    (* "Falha ao garantir SenderKey" *)
| LogListFailed         (* "Erro ao listar Supabase" *)
| LogDownloadFailed.    (* "Erro ao baixar" *)

Inductive Effect : Type :=
| ESend (sock : nat) (to : jsstring) (p : Payload) (ok : bool)
    (* await sock.sendMessage(to, p), resolved or rejected *)
| EInvoke (h : Handler) (fallbackTextOnly : bool) (sock : nat) (m : Msg) (ok : bool)
    (* await h(sock, m) or h(sock, m, { fallbackTextOnly: true }) *)
| EQrEncode (qr : jsstring) (ok : bool)
    (* await QRCode.toDataURL(qr) *)
| EQrPrinted (qr : jsstring)
    (* console.log(qrBase64.split(",")[1]) *)
| ELog (l : LogLine)
| ESetTimeout (delay : Q)
    (* setTimeout(() => iniciarBot(deviceName), delay) *)
| EExit (code : Z)
    (* process.exit(code) *)
| ESyncToSupabase
    (* await syncAuthToSupabase() *)
| ESocket (sock : nat).
    (* sock = makeWASocket({...}) *)

(** The collaborators. [outcome t] tells whether the external call made at
    tick [t] resolves ([true]) or rejects ([false]); [clock t] is the value
    of [Date.now()] read at tick [t]; [bucket t] is what the remote store
    answers to a listing made at tick [t] ([None]: the listing fails; a file
    with [None]: its download fails); [toLowerCase] is
    [String.prototype.toLowerCase], whose mapping outside ASCII is left to
    the host. *)
Record World : Type := {
  outcome : nat -> bool;
  clock : nat -> Z;
  bucket : nat -> option (list (string * option string));
  toLowerCase : jsstring -> jsstring
}.

(** [toLowerCase] agrees with the ASCII mapping on ASCII text. *)
Definition lowerAscii (W : World) : Prop :=
  forall s, isAscii s -> toLowerCase W s = List.map asciiLower s.

(** [DisconnectReason.loggedOut], the status code Baileys declares for an
    invalidated session; the scripts only compare against it. *)
Definition DisconnectReason_loggedOut : Z := 401.

Inductive Connection : Type :=
| ConnClose | ConnOpen | ConnConnecting | ConnOther.

(** The [update] object of a ["connection.update"] event:
    [{ connection, lastDisconnect, qr }], with [motivo] standing for
    [new Boom(lastDisconnect?.error)?.output?.statusCode]. *)
Record Update : Type := {
  connection : option Connection;
  motivo : Z;
  qr : option jsstring
}.

(** ** Machine and completion monad *)

(** The machine: the variables [V] of one script, the socket instance in
    use, the local credential folder ([None]: it does not exist), the
    number of external calls made so far and the effects so far. *)
Record Machine (V : Type) : Type := {
  vars : V;
  sock : nat;
  authFolder : option (gmap string string);
  tick : nat;
  trace : list Effect
}.
Arguments vars {V} _.
Arguments sock {V} _.
Arguments authFolder {V} _.
Arguments tick {V} _.
Arguments trace {V} _.

(** How a JavaScript block completes: normally, by a [throw] (or a rejected
    [await]), by [return], or because [process.exit] ended the process. *)
Inductive Completion (A : Type) : Type :=
| Normal (a : A)
| Throw
| Return
| Halt.
Arguments Normal {A} a.
Arguments Throw {A}.
Arguments Return {A}.
Arguments Halt {A}.

Definition JS (V A : Type) : Type := Machine V -> Completion A * Machine V.

Section Monad.
Context {V : Type}.

Definition ret {A} (a : A) : JS V A := fun m => (Normal a, m).

Definition bind {A B} (c : JS V A) (k : A -> JS V B) : JS V B :=
  fun m =>
    match c m with
    | (Normal a, m') => k a m'
    | (Throw, m') => (Throw, m')
    | (Return, m') => (Return, m')
    | (Halt, m') => (Halt, m')
    end.

(** [try { body } catch (e) { handler }] *)
Definition tryCatch {A} (body handler : JS V A) : JS V A :=
  fun m =>
    match body m with
    | (Throw, m') => handler m'
    | r => r
    end.

(** The body of a function: [return] ends it normally. *)
Definition function (body : JS V unit) : JS V unit :=
  fun m =>
    match body m with
    | (Return, m') => (Normal tt, m')
    | r => r
    end.

Definition returnJS : JS V unit := fun m => (Return, m).

Definition getVars : JS V V := fun m => (Normal (vars m), m).

Definition getSock : JS V nat := fun m => (Normal (sock m), m).

Definition modify (f : V -> V) : JS V unit :=
  fun m =>
    (Normal tt,
     {| vars := f (vars m); sock := sock m; authFolder := authFolder m;
        tick := tick m; trace := trace m |}).

Definition emit (e : Effect) : JS V unit :=
  fun m =>
    (Normal tt,
     {| vars := vars m; sock := sock m; authFolder := authFolder m;
        tick := tick m; trace := trace m ++ [e] |}).

Definition setAuthFolder (f : option (gmap string string)) : JS V unit :=
  fun m =>
    (Normal tt,
     {| vars := vars m; sock := sock m; authFolder := f;
        tick := tick m; trace := trace m |}).

Definition getAuthFolder : JS V (option (gmap string string)) :=
  fun m => (Normal (authFolder m), m).

(** The number of the next external call; the call is then counted. *)
Definition takeTick : JS V nat :=
  fun m =>
    (Normal (tick m),
     {| vars := vars m; sock := sock m; authFolder := authFolder m;
        tick := S (tick m); trace := trace m |}).

(** [process.exit(code)] *)
Definition processExit (code : Z) : JS V unit :=
  fun m =>
    (Halt,
     {| vars := vars m; sock := sock m; authFolder := authFolder m;
        tick := tick m; trace := trace m ++ [EExit code] |}).

(** [sock = makeWASocket({...})]: a new session instance. *)
Definition makeWASocket : JS V unit :=
  fun m =>
    (Normal tt,
     {| vars := vars m; sock := S (sock m); authFolder := authFolder m;
        tick := tick m; trace := trace m ++ [ESocket (S (sock m))] |}).
End Monad.

Declare Scope js_scope.
Delimit Scope js_scope with js.
Notation "x <- c ;; k" := (bind c (fun x => k))
  (at level 100, c at next level, right associativity) : js_scope.
Notation "c ;; k" := (bind c (fun _ => k))
  (at level 100, right associativity) : js_scope.
Local Open Scope js_scope.

Section Calls.
Context {V : Type} (W : World).

(** An awaited external call: it resolves or rejects as the world says,
    and the effect records which. *)
Definition await (e : bool -> Effect) : JS V unit :=
  fun m =>
    let ok := outcome W (tick m) in
    (if ok then Normal tt else Throw,
     {| vars := vars m; sock := sock m; authFolder := authFolder m;
        tick := S (tick m); trace := trace m ++ [e ok] |}).

(** [await sock.sendMessage(to, p)] *)
Definition sendMessage (to : jsstring) (p : Payload) : JS V unit :=
  s <- getSock ;;
  await (ESend s to p).

(** [await h(sock, m)] *)
Definition invoke (h : Handler) (m : Msg) : JS V unit :=
  s <- getSock ;;
  await (EInvoke h false s m).

(** [await h(sock, m, { fallbackTextOnly: true })] *)
Definition invokeTextOnly (h : Handler) (m : Msg) : JS V unit :=
  s <- getSock ;;
  await (EInvoke h true s m).

(** [Date.now()] *)
Definition dateNow : JS V Z :=
  t <- takeTick ;;
  ret (clock W t).

(** [for (const x of xs) { body x }] over an array that nothing changes
    while the loop runs. *)
Fixpoint forOf {A} (xs : list A) (body : A -> JS V unit) : JS V unit :=
  match xs with
  | [] => ret tt
  | x :: xs' => body x ;; forOf xs' body
  end.

(** The message text as [processMessage] normalises it:
    [(conversation || extendedTextMessage?.text || text || '')
       .replace(/[\u200e\u200f\u2068\u2069]/g, '').trim()]. *)
Definition normalizedText (m : Msg) : jsstring :=
  trim (stripBidi
    (orEmpty (orElse (conversation m) (orElse (extendedText m) (messageText m))))).

Definition lowerTextOf (m : Msg) : jsstring :=
  toLowerCase W (normalizedText m).
End Calls.

(** The three fixed reply texts. *)
Definition textErro : string :=
  "❌ Ocorreu um erro ao processar sua solicitação.".
Definition textIniciandoLongo : string :=
  "⏳ Bot iniciando, sua mensagem será processada em breve.".
Definition textIniciando : string :=
  "⏳ Bot iniciando, aguarde...".

(** The text of the warm-up message of the cached scripts. *)
Definition textInicializandoGrupo : string :=
  "🔐 Inicializando grupo...".

(** The notice of the script without a cache to a group whose warm-up
    failed. *)
Definition textTenteNovamente : string :=
  "⏳ Inicializando permissões do grupo... Tente novamente em 5s.".

(** [if (x)] on a possibly-undefined string. *)
Definition truthy (x : option jsstring) : option jsstring :=
  match x with
  | Some (c :: s) => Some (c :: s)
  | _ => None
  end.

Section Files.
Context {V : Type}.

(** [fs.writeFileSync(path.join(AUTH_FOLDER, name), content)]: it throws
    when the folder does not exist. *)
Definition writeFileSync (name content : string) : JS V unit :=
  f <- getAuthFolder ;;
  match f with
  | Some d => setAuthFolder (Some (<[name := content]> d))
  | None => fun m => (Throw, m)
  end.

(** [if (!fs.existsSync(AUTH_FOLDER)) fs.mkdirSync(AUTH_FOLDER)] *)
Definition mkdirIfMissing : JS V unit :=
  f <- getAuthFolder ;;
  match f with
  | Some _ => ret tt
  | None => setAuthFolder (Some ∅)
  end.
End Files.

(** ** [src/telao3/index.js] *)

Module Telao3.

(** [let pendingMessages = []; let authReady = false;] *)
Record Vars : Type := {
  pendingMessages : list Pending;
  authReady : bool
}.

Definition setAuthReady (b : bool) (v : Vars) : Vars :=
  {| pendingMessages := pendingMessages v; authReady := b |}.

Definition setPendingMessages (q : list Pending) (v : Vars) : Vars :=
  {| pendingMessages := q; authReady := authReady v |}.

(** [pendingMessages.push(p)] *)
Definition push (p : Pending) (v : Vars) : Vars :=
  setPendingMessages (pendingMessages v ++ [p]) v.

Definition initial : Machine Vars :=
  {| vars := {| pendingMessages := []; authReady := false |};
     sock := 0%nat; authFolder := None; tick := 0%nat; trace := [] |}.

Section Script.
Context (W : World).

Definition syncAuthFromSupabase : JS Vars unit :=
  function (
    mkdirIfMissing ;;
    t <- takeTick ;;
    match bucket W t with
    | None => emit (ELog LogListFailed) ;; returnJS
    | Some data =>
        forOf data (fun file =>
          tryCatch
            (match snd file with
             | None => fun m => (Throw, m)
             | Some buffer => writeFileSync (fst file) buffer
             end)
            (emit (ELog LogDownloadFailed)))
    end).

Definition processPendingMessages : JS Vars unit :=
  v <- getVars ;;
  forOf (pendingMessages v) (fun p =>
    tryCatch (sendMessage W (jid p) (msg p))
             (emit (ELog LogPendingFailed))) ;;
  modify (setPendingMessages []).

(** The ["connection.update"] listener. *)
Definition connection_update (update : Update) : JS Vars unit :=
  function (
    match truthy (qr update) with
    | Some q =>
        tryCatch (await W (EQrEncode q) ;; emit (EQrPrinted q))
                 (emit (ELog LogQrFailed))
    | None => ret tt
    end ;;
    match connection update with
    | Some ConnClose =>
        (if motivo update =? DisconnectReason_loggedOut
         then processExit 0 else ret tt) ;;
        emit (ESetTimeout 3000)
    | Some ConnOpen =>
        modify (setAuthReady true) ;;
        processPendingMessages
    | _ => ret tt
    end).

Definition processMessage (msg : Msg) : JS Vars unit :=
  let senderJid := remoteJid msg in
  let lowerText := lowerTextOf W msg in
  function (
    tryCatch (invoke W handleAntiLinkMessage msg) (emit (ELog LogAntiLink)) ;;
    tryCatch
      ((if imageMessage msg && endsWith senderJid (lit "@g.us")
        then invoke W handleComprovanteFoto msg else ret tt) ;;
       invoke W handleMensagemPix msg ;;
       if startsWith lowerText (lit ".compra") then invoke W handleCompra2 msg
       else if eqb lowerText (lit "@concorrentes") then invoke W handleListar msg
       else if startsWith lowerText (lit "@remove") || startsWith lowerText (lit "/remove")
         then invoke W handleRemove msg
       else if startsWith lowerText (lit "@ban") || startsWith lowerText (lit "/ban")
         then invoke W handleBan msg
       else if eqb lowerText (lit "@pagamentos") then invoke W handlePagamento msg
       else if includes [lit "@grupo on"; lit "@grupo off"] lowerText
         then invoke W handleGrupo msg
       else if startsWith lowerText (lit "@compra") || startsWith lowerText (lit "@rentanas")
               || startsWith lowerText (lit "@remove rentanas")
         then invoke W handleCompra msg
       else if endsWith senderJid (lit "@g.us") && eqb lowerText (lit "@concorrencia")
         then invoke W handleConcorrer msg
       else if eqb lowerText (lit "@tabela") then invoke W handleTabela msg
       else if eqb lowerText (lit "@todos") then invoke W handleTodos msg
       else if startsWith lowerText (lit "@") || startsWith lowerText (lit "/")
         then invoke W handleMessage msg
       else if includes [lit ".n"; lit ".t"; lit ".i"; lit ".s"] lowerText
         then invoke W handleTabela msg
       else ret tt)
      (emit (ELog LogProcessFailed) ;;
       modify (push {| jid := senderJid; msg := Text textErro |}))).

(** The ["messages.upsert"] listener. *)
Definition messages_upsert (messages : option (list Msg)) : JS Vars unit :=
  function (
    match messages with
    | None | Some [] => returnJS
    | Some (msg :: _) =>
        (if fromMe msg then returnJS else ret tt) ;;
        v <- getVars ;;
        (if negb (authReady v)
         then modify (push {| jid := remoteJid msg;
                              msg := Text textIniciandoLongo |}) ;;
              returnJS
         else ret tt) ;;
        processMessage msg
    end).

(** [iniciarBot(deviceName, authFolder)]: hydrate the credentials, let
    [useMultiFileAuthState] open (and create if need be) the folder,
    open a socket and register the listeners above on it. *)
Definition iniciarBot : JS Vars unit :=
  function (
    syncAuthFromSupabase ;;
    mkdirIfMissing ;;
    makeWASocket).
End Script.
End Telao3.

(** ** [src/unnamed/part_000]: the single-file (legacy) script *)

Module Legacy.

(** [let pendingMessages = []; let authReady = false; let qrSent = false;] *)
Record Vars : Type := {
  pendingMessages : list Pending;
  authReady : bool;
  qrSent : bool
}.

Definition setAuthReady (b : bool) (v : Vars) : Vars :=
  {| pendingMessages := pendingMessages v; authReady := b; qrSent := qrSent v |}.

Definition setQrSent (b : bool) (v : Vars) : Vars :=
  {| pendingMessages := pendingMessages v; authReady := authReady v; qrSent := b |}.

Definition setPendingMessages (q : list Pending) (v : Vars) : Vars :=
  {| pendingMessages := q; authReady := authReady v; qrSent := qrSent v |}.

Definition initial : Machine Vars :=
  {| vars := {| pendingMessages := []; authReady := false; qrSent := false |};
     sock := 0%nat; authFolder := None; tick := 0%nat; trace := [] |}.

(** [AUTH_FILE]; the credential store of this script is that one file:
    [authFolder] is [None] when it does not exist. *)
Definition AUTH_FILE : string := "auth_info_legacy.json".

Section Script.
Context (W : World).

Definition syncAuthFromSupabase : JS Vars bool :=
  t <- takeTick ;;
  match bucket W t with
  | Some data =>
      match List.find (fun file => String.eqb (fst file) AUTH_FILE) data with
      | Some (_, Some buffer) =>
          setAuthFolder (Some {[ AUTH_FILE := buffer ]}) ;; ret true
      | _ => setAuthFolder None ;; ret false
      end
  | None => setAuthFolder None ;; ret false
  end.

Definition processPendingMessages : JS Vars unit :=
  v <- getVars ;;
  forOf (pendingMessages v) (fun p =>
    tryCatch (sendMessage W (jid p) (msg p))
             (emit (ELog LogPendingFailed))) ;;
  modify (setPendingMessages []).

(** The ["connection.update"] listener. *)
Definition connection_update (update : Update) : JS Vars unit :=
  function (
    v <- getVars ;;
    match truthy (qr update) with
    | Some q =>
        if negb (qrSent v) then
          modify (setQrSent true) ;;
          tryCatch (await W (EQrEncode q) ;; emit (EQrPrinted q))
                   (emit (ELog LogQrFailed))
        else ret tt
    | None => ret tt
    end ;;
    match connection update with
    | Some ConnClose =>
        if motivo update =? DisconnectReason_loggedOut then
          setAuthFolder None ;;
          emit (ESetTimeout 3000)
        else
          emit (ESetTimeout 5000)
    | Some ConnOpen =>
        modify (setAuthReady true) ;;
        processPendingMessages ;;
        emit ESyncToSupabase
    | _ => ret tt
    end).

(** [iniciarBot(deviceName)] *)
Definition iniciarBot : JS Vars unit :=
  function (
    _ <- syncAuthFromSupabase ;;
    modify (setQrSent false) ;;
    makeWASocket).
End Script.
End Legacy.

(** ** [src/unnamed/part_001], second script: warm-up without a cache *)

Module Uncached.

Record Vars : Type := {
  pendingMessages : list Pending;
  authReady : bool;
  qrSent : bool
}.

Definition initial : Machine Vars :=
  {| vars := {| pendingMessages := []; authReady := false; qrSent := false |};
     sock := 0%nat; authFolder := None; tick := 0%nat; trace := [] |}.

Definition setPendingMessages (q : list Pending) (v : Vars) : Vars :=
  {| pendingMessages := q; authReady := authReady v;
     qrSent := qrSent v |}.

(** [pendingMessages.push(p)] *)
Definition push (p : Pending) (v : Vars) : Vars :=
  setPendingMessages (pendingMessages v ++ [p]) v.

Section Script.
Context (W : World).

Definition ensureGroupReady (groupId : jsstring) : JS Vars bool :=
  if negb (endsWith groupId (lit "@g.us")) then ret true
  else
    tryCatch
      (sendMessage W groupId (TextEphemeral "✅" 1) ;; ret true)
      (emit (ELog LogSenderKeyFailed) ;; ret false).

Definition processMessage (msg : Msg) : JS Vars unit :=
  let senderJid := remoteJid msg in
  let lowerText := lowerTextOf W msg in
  function (
    tryCatch (invoke W handleAntiLinkMessage msg) (emit (ELog LogAntiLink)) ;;
    tryCatch
      ((if imageMessage msg && endsWith senderJid (lit "@g.us")
        then invoke W handleComprovanteFoto msg else ret tt) ;;
       invoke W handleMensagemPix msg ;;
       (if endsWith senderJid (lit "@g.us") then
          ready <- ensureGroupReady senderJid ;;
          if negb ready then
            sendMessage W senderJid (Text textTenteNovamente) ;;
            returnJS
          else ret tt
        else ret tt) ;;
       if startsWith lowerText (lit ".compra") then invoke W handleCompra2 msg
       else if eqb lowerText (lit "@concorrentes") then invoke W handleListar msg
       else if startsWith lowerText (lit "@remove") || startsWith lowerText (lit "/remove")
         then invoke W handleRemove msg
       else if startsWith lowerText (lit "@ban") || startsWith lowerText (lit "/ban")
         then invoke W handleBan msg
       else if eqb lowerText (lit "@pagamentos") then invoke W handlePagamento msg
       else if includes [lit "@grupo on"; lit "@grupo off"] lowerText
         then invoke W handleGrupo msg
       else if startsWith lowerText (lit "@compra") || startsWith lowerText (lit "@rentanas")
               || startsWith lowerText (lit "@remove rentanas")
         then invoke W handleCompra msg
       else if endsWith senderJid (lit "@g.us") && eqb lowerText (lit "@concorrencia")
         then invoke W handleConcorrer msg
       else if eqb lowerText (lit "@tabela") then invoke W handleTabela msg
       else if eqb lowerText (lit "@todos") then invoke W handleTodos msg
       else if startsWith lowerText (lit "@") || startsWith lowerText (lit "/")
         then invoke W handleMessage msg
       else if includes [lit ".n"; lit ".t"; lit ".i"; lit ".s"] lowerText
         then invoke W handleTabela msg
       else ret tt)
      (emit (ELog LogProcessFailed) ;;
       modify (push {| jid := senderJid; msg := Text textErro |}))).
End Script.
End Uncached.

(** ** [src/unnamed/part_001], third script: supervised reconnection *)

Module Supervised.

(** The module-level variables [pendingMessages], [authReady], [qrSent]
    and [reconnectAttempts] ([sock] is the machine's), and the two caches
    [senderReadyGroups] (a [Set]) and [senderAttemptAt] (a [Map]) that
    [iniciarBot] declares with [const] in its own body: every call of
    [iniciarBot] makes new, empty ones for the listeners it registers. *)
Record Vars : Type := {
  pendingMessages : list Pending;
  authReady : bool;
  qrSent : bool;
  reconnectAttempts : Z;
  senderReadyGroups : gset jsstring;
  senderAttemptAt : gmap jsstring Z
}.

Definition MAX_RECONNECT_ATTEMPTS : Z := 10.
Definition RECONNECT_DELAY : Q := 5000.
Definition SENDER_COOLDOWN_MS : Z := 60 * 1000.

Definition setPendingMessages (q : list Pending) (v : Vars) : Vars :=
  {| pendingMessages := q; authReady := authReady v; qrSent := qrSent v;
     reconnectAttempts := reconnectAttempts v;
     senderReadyGroups := senderReadyGroups v;
     senderAttemptAt := senderAttemptAt v |}.

Definition setAuthReady (b : bool) (v : Vars) : Vars :=
  {| pendingMessages := pendingMessages v; authReady := b; qrSent := qrSent v;
     reconnectAttempts := reconnectAttempts v;
     senderReadyGroups := senderReadyGroups v;
     senderAttemptAt := senderAttemptAt v |}.

Definition setQrSent (b : bool) (v : Vars) : Vars :=
  {| pendingMessages := pendingMessages v; authReady := authReady v; qrSent := b;
     reconnectAttempts := reconnectAttempts v;
     senderReadyGroups := senderReadyGroups v;
     senderAttemptAt := senderAttemptAt v |}.

Definition setReconnectAttempts (n : Z) (v : Vars) : Vars :=
  {| pendingMessages := pendingMessages v; authReady := authReady v;
     qrSent := qrSent v; reconnectAttempts := n;
     senderReadyGroups := senderReadyGroups v;
     senderAttemptAt := senderAttemptAt v |}.

Definition setSenderReadyGroups (s : gset jsstring) (v : Vars) : Vars :=
  {| pendingMessages := pendingMessages v; authReady := authReady v;
     qrSent := qrSent v; reconnectAttempts := reconnectAttempts v;
     senderReadyGroups := s;
     senderAttemptAt := senderAttemptAt v |}.

Definition setSenderAttemptAt (a : gmap jsstring Z) (v : Vars) : Vars :=
  {| pendingMessages := pendingMessages v; authReady := authReady v;
     qrSent := qrSent v; reconnectAttempts := reconnectAttempts v;
     senderReadyGroups := senderReadyGroups v;
     senderAttemptAt := a |}.

(** [pendingMessages.push(p)] *)
Definition push (p : Pending) (v : Vars) : Vars :=
  setPendingMessages (pendingMessages v ++ [p]) v.

Definition initial : Machine Vars :=
  {| vars := {| pendingMessages := []; authReady := false; qrSent := false;
                reconnectAttempts := 0;
                senderReadyGroups := ∅; senderAttemptAt := ∅ |};
     sock := 0%nat; authFolder := None; tick := 0%nat; trace := [] |}.

(** [Math.min(RECONNECT_DELAY * Math.pow(1.5, reconnectAttempts - 1), 30000)].
    The doubles involved are dyadic rationals that binary64 holds exactly
    for every count the script can reach (it exits above
    [MAX_RECONNECT_ATTEMPTS]), so the arithmetic is done in [Q]. *)
Definition reconnectDelay (reconnectAttempts : Z) : Q :=
  Qmin (RECONNECT_DELAY * Qpower 1.5 (reconnectAttempts - 1)) 30000.

(** The body that [GET /health] answers with:
    [{ status, reconnectionAttempts, timestamp }]. *)
Record Health : Type := {
  status : string;
  reconnectionAttempts : Z;
  timestamp : Z
}.

(** The update that the keep-alive timer emits: [{ connection: "ping" }]. *)
Definition pingUpdate : Update :=
  {| connection := Some ConnOther; motivo := 500; qr := None |}.

Section Script.
Context (W : World).

Definition syncAuthFromSupabase : JS Vars bool :=
  mkdirIfMissing ;;
  tryCatch
    (t <- takeTick ;;
     match bucket W t with
     | None => fun m => (Throw, m)
     | Some [] => ret false
     | Some data =>
         forOf data (fun file =>
           match snd file with
           | None => fun m => (Throw, m)
           | Some buffer => writeFileSync (fst file) buffer
           end) ;;
         ret true
     end)
    (setAuthFolder (Some ∅) ;; ret false).

Definition processPendingMessages : JS Vars unit :=
  v <- getVars ;;
  if (0 <? Z.of_nat (length (pendingMessages v))) then
    forOf (pendingMessages v) (fun p =>
      tryCatch (sendMessage W (jid p) (msg p))
               (emit (ELog LogPendingFailed))) ;;
    modify (setPendingMessages [])
  else ret tt.

(** The ["connection.update"] listener. *)
Definition connection_update (update : Update) : JS Vars unit :=
  function (
    v <- getVars ;;
    match truthy (qr update) with
    | Some q =>
        if negb (qrSent v) then
          modify (setQrSent true) ;;
          modify (setReconnectAttempts 0) ;;
          tryCatch (await W (EQrEncode q) ;; emit (EQrPrinted q))
                   (emit (ELog LogQrFailed))
        else ret tt
    | None => ret tt
    end ;;
    match connection update with
    | Some ConnClose =>
        v <- getVars ;;
        modify (setReconnectAttempts (reconnectAttempts v + 1)) ;;
        v <- getVars ;;
        let delay := reconnectDelay (reconnectAttempts v) in
        if motivo update =? DisconnectReason_loggedOut then
          setAuthFolder None ;;
          modify (setReconnectAttempts 0) ;;
          emit (ESetTimeout 3000)
        else if reconnectAttempts v >? MAX_RECONNECT_ATTEMPTS then
          processExit 1
        else
          modify (setAuthReady false) ;;
          emit (ESetTimeout delay)
    | Some ConnOpen =>
        modify (setAuthReady true) ;;
        modify (setReconnectAttempts 0) ;;
        processPendingMessages ;;
        emit ESyncToSupabase
    | _ => ret tt
    end).

Definition ensureGroupReady (groupId : jsstring) : JS Vars bool :=
  if match groupId with [] => true | _ => false end
     || negb (endsWith groupId (lit "@g.us")) then ret true
  else
    v <- getVars ;;
    if bool_decide (groupId ∈ senderReadyGroups v) then ret true
    else
      let lastAttempt := default 0 (senderAttemptAt v !! groupId) in
      now <- dateNow W ;;
      if now - lastAttempt <? SENDER_COOLDOWN_MS then ret false
      else
        modify (fun v => setSenderAttemptAt (<[groupId := now]> (senderAttemptAt v)) v) ;;
        tryCatch
          (sendMessage W groupId (Text textInicializandoGrupo) ;;
           modify (fun v => setSenderReadyGroups ({[groupId]} ∪ senderReadyGroups v) v) ;;
           ret true)
          (emit (ELog LogGroupInitFailed) ;; ret false).

Definition processMessage (msg : Msg) : JS Vars unit :=
  let senderJid := remoteJid msg in
  let lowerText := lowerTextOf W msg in
  function (
    tryCatch (invoke W handleAntiLinkMessage msg) (emit (ELog LogAntiLink)) ;;
    tryCatch
      ((if imageMessage msg && endsWith senderJid (lit "@g.us")
        then invoke W handleComprovanteFoto msg else ret tt) ;;
       invoke W handleMensagemPix msg ;;
       (if endsWith senderJid (lit "@g.us") then
          ready <- ensureGroupReady senderJid ;;
          if negb ready then
            if eqb lowerText (lit "@tabela")
               || includes [lit ".t"; lit ".n"; lit ".i"; lit ".s"] lowerText
            then
              tryCatch
                (invokeTextOnly W handleTabela msg)
                (tryCatch (invoke W handleTabela msg)
                          (emit (ELog LogTabelaFallback))) ;;
              returnJS
            else ret tt
          else ret tt
        else ret tt) ;;
       if startsWith lowerText (lit ".compra") then invoke W handleCompra2 msg
       else if eqb lowerText (lit "@concorrentes") then invoke W handleListar msg
       else if startsWith lowerText (lit "@remove") || startsWith lowerText (lit "/remove")
         then invoke W handleRemove msg
       else if startsWith lowerText (lit "@ban") || startsWith lowerText (lit "/ban")
         then invoke W handleBan msg
       else if eqb lowerText (lit "@pagamentos") then invoke W handlePagamento msg
       else if includes [lit "@grupo on"; lit "@grupo off"] lowerText
         then invoke W handleGrupo msg
       else if startsWith lowerText (lit "@compra") || startsWith lowerText (lit "@rentanas")
               || startsWith lowerText (lit "@remove rentanas")
         then invoke W handleCompra msg
       else if endsWith senderJid (lit "@g.us") && eqb lowerText (lit "@concorrencia")
         then invoke W handleConcorrer msg
       else if eqb lowerText (lit "@tabela") then invoke W handleTabela msg
       else if eqb lowerText (lit "@todos") then invoke W handleTodos msg
       else if startsWith lowerText (lit "@") || startsWith lowerText (lit "/")
         then invoke W handleMessage msg
       else if includes [lit ".n"; lit ".t"; lit ".i"; lit ".s"] lowerText
         then invoke W handleTabela msg
       else ret tt)
      (emit (ELog LogProcessFailed) ;;
       v <- getVars ;;
       if authReady v then
         tryCatch (sendMessage W senderJid (Text textErro))
                  (modify (push {| jid := senderJid; msg := Text textErro |}))
       else
         modify (push {| jid := senderJid; msg := Text textErro |}))).

(** The ["messages.upsert"] listener.  [process.takeTick] runs
    [processMessage(msg).catch(...)] right after the listener returns. *)
Definition messages_upsert (messages : option (list Msg)) : JS Vars unit :=
  function (
    match messages with
    | None | Some [] => returnJS
    | Some (msg :: _) =>
        (if fromMe msg then returnJS else ret tt) ;;
        v <- getVars ;;
        (if negb (authReady v)
         then modify (push {| jid := remoteJid msg; msg := Text textIniciando |}) ;;
              returnJS
         else ret tt) ;;
        tryCatch (processMessage msg) (ret tt)
    end).

(** [iniciarBot(deviceName)] *)
Definition iniciarBot : JS Vars unit :=
  function (
    v <- getVars ;;
    (if authReady v then modify (setReconnectAttempts 0) else ret tt) ;;
    _ <- syncAuthFromSupabase ;;
    modify (setQrSent false) ;;
    mkdirIfMissing ;;
    makeWASocket ;;
    modify (setSenderReadyGroups ∅) ;;
    modify (setSenderAttemptAt ∅)).

(** The handler of [GET /health] in [setupHealthChecks]. *)
Definition health : JS Vars Health :=
  v <- getVars ;;
  now <- dateNow W ;;
  ret {| status := if authReady v then "connected" else "disconnected";
         reconnectionAttempts := reconnectAttempts v;
         timestamp := now |}.

(** The callback of the five-minute timer of [setupHealthChecks]:
    [if (sock && authReady) sock.ev.emit("connection.update", { connection: "ping" })];
    the emission runs the ["connection.update"] listener of the socket.
    Socket [0] stands for [null]. *)
Definition keepAlive : JS Vars unit :=
  v <- getVars ;;
  s <- getSock ;;
  if negb (Nat.eqb s 0) && authReady v
  then tryCatch (connection_update pingUpdate) (ret tt)
  else ret tt.
End Script.
End Supervised.

(** ** The listeners that only call collaborators

    ["messages.reaction"], ["group-participants.update"] and
    ["creds.update"], and [syncAuthToSupabase] which the last one calls.
    They read and write no variable of the script; their machine holds, in
    place of variables, the log of the calls they make. *)

Module Side.

(** A reaction of a ["messages.reaction"] event: the scripts hand it to
    [handleReaction] without reading it. *)
Definition Reaction : Type := nat.

Inductive Call : Type :=
| CReaction (sock : nat) (reaction : Reaction) (ok : bool)
    (* await handleReaction({ reactionMessage, sock }) *)
| CProfilePicture (sock : nat) (participant : jsstring) (ok : bool)
    (* sock.profilePictureUrl(participant, "image") *)
| CSendImage (sock : nat) (to url caption : jsstring) (mentions : list jsstring) (ok : bool)
    (* await sock.sendMessage(to, { image: { url }, caption, mentions }) *)
| CSendText (sock : nat) (to text : jsstring) (mentions : list jsstring) (ok : bool)
    (* await sock.sendMessage(to, { text, mentions }) *)
| CSaveCreds (ok : bool)
    (* await saveCreds() *)
| CUpload (name content : string) (ok : bool)
    (* await supabase.storage.from(BUCKET).upload(name, content, { upsert: true }) *)
| CError.
    (* console.error in a catch block *)

Definition Log : Type := list Call.

Definition initial : Machine Log :=
  {| vars := []; sock := 1%nat; authFolder := None; tick := 0%nat; trace := [] |}.

(** The text after the name in the welcome message:
    ["  *👋 Seja muito bem-vindo(a) ao grupo!*\n\n🎉 Ficamos felizes em ter
    você conosco.\n\nQualquer dúvida, estamos aqui para ajudar!"], as
    UTF-16 code units. *)
Definition welcomeTail : jsstring :=
  lit "  *" ++ [0xd83d; 0xdc4b]%N ++ lit " Seja muito bem-vindo(a) ao grupo!*"
  ++ [10; 10; 0xd83c; 0xdf89]%N ++ lit " Ficamos felizes em ter voc" ++ [0xea]%N
  ++ lit " conosco." ++ [10; 10]%N ++ lit "Qualquer d" ++ [0xfa]%N
  ++ lit "vida, estamos aqui para ajudar!".

(** [s.split("@")[0]]: the text before the first ["@"]. *)
Fixpoint beforeAt (s : jsstring) : jsstring :=
  match s with
  | [] => []
  | c :: s' => if N.eqb c 64 then [] else c :: beforeAt s'
  end.

Section Script.
Context (W : World) (pictures : jsstring -> option jsstring).

(** An awaited call: it resolves or rejects as the world says, and the log
    records which. *)
Definition call (c : bool -> Call) : JS Log unit :=
  fun m =>
    let ok := outcome W (tick m) in
    (if ok then Normal tt else Throw,
     {| vars := vars m ++ [c ok]; sock := sock m; authFolder := authFolder m;
        tick := S (tick m); trace := trace m |}).

Definition consoleError : JS Log unit := modify (fun log => log ++ [CError]).

(** [await handleReaction({ reactionMessage: reactionMsg, sock })] *)
Definition handleReaction (reactionMsg : Reaction) : JS Log unit :=
  s <- getSock ;;
  call (CReaction s reactionMsg).

(** The ["messages.reaction"] listener of [src/telao3/index.js], of
    [src/unnamed/part_000] and of the second script of
    [src/unnamed/part_001]. *)
Definition messages_reaction (reactions : list Reaction) : JS Log unit :=
  forOf reactions handleReaction.

(** The same listener in the first and in the third (supervised) script of
    [src/unnamed/part_001]: every call is in a [try] block of its own. *)
Definition messages_reaction_guarded (reactions : list Reaction) : JS Log unit :=
  forOf reactions (fun reactionMsg =>
    tryCatch (handleReaction reactionMsg) consoleError).

(** [await sock.profilePictureUrl(participant, "image").catch(() => null)];
    [pictures] is the address the socket answers with when the call
    resolves. *)
Definition profilePictureUrl (participant : jsstring) : JS Log (option jsstring) :=
  s <- getSock ;;
  tryCatch (call (CProfilePicture s participant) ;; ret (pictures participant))
           (ret None).

(** The body of the loop of the ["group-participants.update"] listener: the
    welcome of one participant. *)
Definition welcome (id participant : jsstring) : JS Log unit :=
  let nome := beforeAt participant in
  let mensagem := trim (lit "@" ++ nome ++ welcomeTail) in
  tryCatch
    (ppUrl <- profilePictureUrl participant ;;
     s <- getSock ;;
     match truthy ppUrl with
     | Some url => call (CSendImage s id url mensagem [participant])
     | None => call (CSendText s id mensagem [participant])
     end)
    consoleError.

(** The ["group-participants.update"] listener, the same in every script. *)
Definition group_participants_update (id : jsstring) (participants : list jsstring)
    (action : jsstring) : JS Log unit :=
  if eqb action (lit "add") then forOf participants (welcome id) else ret tt.

End Script.

Section Uploads.
Context (W : World) (readdirSync : gmap string string -> list string).

(** The body of the loop of [syncAuthToSupabase] in the scripts of
    [src/unnamed/part_001]: [fs.readFileSync] throws on a missing file. *)
Definition upload (file : string) : JS Log unit :=
  tryCatch
    (f <- getAuthFolder ;;
     match f ≫= (fun d => d !! file) with
     | None => fun m => (Throw, m)
     | Some content => call W (CUpload file content)
     end)
    consoleError.

(** The same body in [src/telao3/index.js]: a file that is no longer there
    is skipped. *)
Definition upload_telao3 (file : string) : JS Log unit :=
  tryCatch
    (f <- getAuthFolder ;;
     match f ≫= (fun d => d !! file) with
     | None => ret tt
     | Some content => call W (CUpload file content)
     end)
    consoleError.

(** [syncAuthToSupabase].  The loop follows [fs.readdirSync(AUTH_FOLDER)]:
    [readdirSync d] is the list of names that the file system answers for a
    folder of content [d], in the order in which it answers them. *)
Definition syncAuthToSupabase : JS Log unit :=
  function (
    f <- getAuthFolder ;;
    match f with
    | None => returnJS
    | Some d => forOf (readdirSync d) upload
    end).

Definition syncAuthToSupabase_telao3 : JS Log unit :=
  function (
    f <- getAuthFolder ;;
    match f with
    | None => returnJS
    | Some d => forOf (readdirSync d) upload_telao3
    end).

(** The ["creds.update"] listener. *)
Definition creds_update : JS Log unit :=
  call W CSaveCreds ;;
  syncAuthToSupabase.
End Uploads.
End Side.

(** ** Events and runs

    What the runtime delivers to a script: a (first or timer-scheduled) call
    of [iniciarBot], a ["connection.update"] event or a ["messages.upsert"]
    event.  A run handles the events one after the other and stops when the
    process has exited. *)

Inductive Event : Type :=
| EvStart
| EvConnection (update : Update)
| EvMessages (messages : option (list Msg)).

Definition run {V} (handle : Event -> JS V unit) (events : list Event) : JS V unit :=
  forOf events handle.

Module Telao3Run.
Definition handle (W : World) (e : Event) : JS Telao3.Vars unit :=
  match e with
  | EvStart => Telao3.iniciarBot W
  | EvConnection u => Telao3.connection_update W u
  | EvMessages ms => Telao3.messages_upsert W ms
  end.
End Telao3Run.

Module LegacyRun.
(** Only the lifecycle listeners of this script are modelled. *)
Definition handle (W : World) (e : Event) : JS Legacy.Vars unit :=
  match e with
  | EvStart => Legacy.iniciarBot W
  | EvConnection u => Legacy.connection_update W u
  | EvMessages _ => ret tt
  end.
End LegacyRun.

Module SupervisedRun.
Definition handle (W : World) (e : Event) : JS Supervised.Vars unit :=
  match e with
  | EvStart => Supervised.iniciarBot W
  | EvConnection u => Supervised.connection_update W u
  | EvMessages ms => Supervised.messages_upsert W ms
  end.
End SupervisedRun.

(** ** Reading traces *)

(** The effects a transition added to the trace. *)
Definition newEffects {V} (before after : Machine V) : list Effect :=
  skipn (length (trace before)) (trace after).

(** The deliveries attempted, in order. *)
Fixpoint attempted (tr : list Effect) : list Pending :=
  match tr with
  | [] => []
  | ESend _ to p _ :: tr' => {| jid := to; msg := p |} :: attempted tr'
  | _ :: tr' => attempted tr'
  end.

(** The handlers invoked, in order. *)
Fixpoint invoked (tr : list Effect) : list Handler :=
  match tr with
  | [] => []
  | EInvoke h _ _ _ _ :: tr' => h :: invoked tr'
  | _ :: tr' => invoked tr'
  end.

Definition isInvoke (e : Effect) : bool :=
  match e with EInvoke _ _ _ _ _ => true | _ => false end.


Definition isExit (e : Effect) : bool :=
  match e with EExit _ => true | _ => false end.

Definition isSocket (e : Effect) : bool :=
  match e with ESocket _ => true | _ => false end.

Definition isQrPrinted (e : Effect) : bool :=
  match e with EQrPrinted _ => true | _ => false end.

Definition isQrEncode (e : Effect) : bool :=
  match e with EQrEncode _ _ => true | _ => false end.

Definition isFailedSend (e : Effect) : bool :=
  match e with ESend _ _ _ false => true | _ => false end.

Definition isPendingFailedLog (e : Effect) : bool :=
  match e with ELog LogPendingFailed => true | _ => false end.

(** The delays of the restarts scheduled, in order. *)
Fixpoint scheduled (tr : list Effect) : list Q :=
  match tr with
  | [] => []
  | ESetTimeout d :: tr' => d :: scheduled tr'
  | _ :: tr' => scheduled tr'
  end.

Definition count (f : Effect -> bool) (tr : list Effect) : nat :=
  length (List.filter f tr).

(** ** Sample data

    A world given by the outcomes of its first external calls (every later
    call resolves), a clock that starts at a 2023 timestamp and advances by
    one second per tick, an empty remote bucket and the ASCII lower-casing;
    and a few messages and updates. *)

Definition sampleWorld (outcomes : list bool) : World :=
  {| outcome := fun t => nth t outcomes true;
     clock := fun t => 1700000000000 + 1000 * Z.of_nat t;
     bucket := fun _ => Some [];
     toLowerCase := List.map asciiLower |}.

Definition textMessage (from body : string) : Msg :=
  {| remoteJid := lit from; fromMe := false;
     conversation := Some (lit body); extendedText := None;
     messageText := None; imageMessage := false |}.

Definition openUpdate : Update :=
  {| connection := Some ConnOpen; motivo := 0; qr := None |}.

(** A closure after a lost connection (status 408). *)
Definition lostUpdate : Update :=
  {| connection := Some ConnClose; motivo := 408; qr := None |}.

Definition loggedOutUpdate : Update :=
  {| connection := Some ConnClose; motivo := DisconnectReason_loggedOut; qr := None |}.

Definition scanUpdate : Update :=
  {| connection := None; motivo := 0; qr := Some (lit "2@abc") |}.

Definition replyTo (to : string) (t : string) : Pending :=
  {| jid := lit to; msg := Text t |}.

(** ** Vocabulary of the statements *)

(** What one pass over a queue [q] adds to the trace, the first delivery
    being made on socket [s] at tick [t]. *)
Fixpoint flushEffects (W : World) (s t : nat) (q : list Pending) : list Effect :=
  match q with
  | [] => []
  | p :: q' =>
      ESend s (jid p) (msg p) (outcome W t)
        :: (if outcome W t then [] else [ELog LogPendingFailed])
        ++ flushEffects W s (S t) q'
  end.

(** The same pass when other tasks push onto [pendingMessages] while a
    delivery is awaited.  [for ... of] iterates the array object itself, so
    an entry pushed during an await is met by the same loop; [arrivals]
    lists what is pushed during the first await, the second, and so on.
    The loop ends at the first check that finds no entry left,
    [pendingMessages = []] follows without another await, and what is
    pushed later lands in the new array.  The result is the effects of the
    pass and the queue once all arrivals are in. *)
Fixpoint liveFlush (W : World) (s t : nat) (rest : list Pending)
    (arrivals : list (list Pending)) : list Effect * list Pending :=
  match arrivals with
  | [] => (flushEffects W s t rest, [])
  | a :: arrivals' =>
      match rest with
      | [] => ([], concat (a :: arrivals'))
      | p :: rest' =>
          (ESend s (jid p) (msg p) (outcome W t)
             :: (if outcome W t then [] else [ELog LogPendingFailed])
             ++ fst (liveFlush W s (S t) (rest' ++ a) arrivals'),
           snd (liveFlush W s (S t) (rest' ++ a) arrivals'))
      end
  end.

(** What the scan branch of a ["connection.update"] listener adds to the
    trace when it runs at tick [t]. *)
Definition qrEffects (W : World) (t : nat) (q : jsstring) : list Effect :=
  EQrEncode q (outcome W t)
    :: (if outcome W t then [EQrPrinted q] else [ELog LogQrFailed]).

Definition ticksOfScan (u : Update) : nat :=
  match truthy (qr u) with Some _ => 1%nat | None => 0%nat end.

(** The scan branch of the guarded scripts: it runs only while [qrSent] is
    unset. *)
Definition scanRuns (sent : bool) (u : Update) : option jsstring :=
  if sent then None else truthy (qr u).

Definition ticksOfGuardedScan (sent : bool) (u : Update) : nat :=
  match scanRuns sent u with Some _ => 1%nat | None => 0%nat end.

(** The ordered table of (predicate, handler) pairs that the spec describes;
    a predicate reads the conversation id and the lower-cased text. *)
Definition routeTable : list ((jsstring -> jsstring -> bool) * Handler) :=
  [ (fun _ t => startsWith t (lit ".compra"), handleCompra2);
    (fun _ t => eqb t (lit "@concorrentes"), handleListar);
    (fun _ t => startsWith t (lit "@remove") || startsWith t (lit "/remove"), handleRemove);
    (fun _ t => startsWith t (lit "@ban") || startsWith t (lit "/ban"), handleBan);
    (fun _ t => eqb t (lit "@pagamentos"), handlePagamento);
    (fun _ t => includes [lit "@grupo on"; lit "@grupo off"] t, handleGrupo);
    (fun _ t => startsWith t (lit "@compra") || startsWith t (lit "@rentanas")
                || startsWith t (lit "@remove rentanas"), handleCompra);
    (fun j t => endsWith j (lit "@g.us") && eqb t (lit "@concorrencia"), handleConcorrer);
    (fun _ t => eqb t (lit "@tabela"), handleTabela);
    (fun _ t => eqb t (lit "@todos"), handleTodos);
    (fun _ t => startsWith t (lit "@") || startsWith t (lit "/"), handleMessage);
    (fun _ t => includes [lit ".n"; lit ".t"; lit ".i"; lit ".s"] t, handleTabela) ].

(** First match wins. *)
Fixpoint firstMatch (table : list ((jsstring -> jsstring -> bool) * Handler))
    (j t : jsstring) : option Handler :=
  match table with
  | [] => None
  | (p, h) :: table' => if p j t then Some h else firstMatch table' j t
  end.

Definition route (j t : jsstring) : option Handler := firstMatch routeTable j t.

(** The handlers that the main [try] block of [processMessage] means to
    await, in order: the receipt-image handler (image in a group), the pix
    handler, and the routed command if any. *)
Definition mainPlan (W : World) (msg : Msg) : list Handler :=
  (if imageMessage msg && endsWith (remoteJid msg) (lit "@g.us")
   then [handleComprovanteFoto] else [])
  ++ [handleMensagemPix]
  ++ match route (remoteJid msg) (lowerTextOf W msg) with
     | Some h => [h]
     | None => []
     end.

(** Awaiting a list of handlers inside one [try]: the effects, and whether
    all of them resolved. *)
Fixpoint tryEffects (W : World) (s : nat) (msg : Msg) (t : nat) (hs : list Handler)
  : list Effect * bool :=
  match hs with
  | [] => ([], true)
  | h :: hs' =>
      if outcome W t
      then (EInvoke h false s msg true :: fst (tryEffects W s msg (S t) hs'),
            snd (tryEffects W s msg (S t) hs'))
      else ([EInvoke h false s msg false], false)
  end.

(** What the anti-link scan adds to the trace. *)
Definition antiLinkEffects (W : World) (s : nat) (msg : Msg) (t : nat) : list Effect :=
  EInvoke handleAntiLinkMessage false s msg (outcome W t)
    :: (if outcome W t then [] else [ELog LogAntiLink]).

(** The ways a call of the cached [ensureGroupReady] can go, with the answer
    and the machine it leaves. *)
Inductive WarmUp (W : World) (g : jsstring) (m : Machine Supervised.Vars)
  : bool -> Machine Supervised.Vars -> Prop :=
| WarmNotGroup :
    endsWith g (lit "@g.us") = false ->
    WarmUp W g m true m
| WarmCached :
    endsWith g (lit "@g.us") = true ->
    g ∈ Supervised.senderReadyGroups (vars m) ->
    WarmUp W g m true m
| WarmCooldown :
    endsWith g (lit "@g.us") = true ->
    g ∉ Supervised.senderReadyGroups (vars m) ->
    clock W (tick m) - default 0 (Supervised.senderAttemptAt (vars m) !! g)
      < Supervised.SENDER_COOLDOWN_MS ->
    WarmUp W g m false
      {| vars := vars m; sock := sock m; authFolder := authFolder m;
         tick := S (tick m); trace := trace m |}
| WarmSent :
    endsWith g (lit "@g.us") = true ->
    g ∉ Supervised.senderReadyGroups (vars m) ->
    Supervised.SENDER_COOLDOWN_MS
      <= clock W (tick m) - default 0 (Supervised.senderAttemptAt (vars m) !! g) ->
    outcome W (S (tick m)) = true ->
    WarmUp W g m true
      {| vars :=
           Supervised.setSenderReadyGroups
             ({[g]} ∪ Supervised.senderReadyGroups (vars m))
             (Supervised.setSenderAttemptAt
                (<[g := clock W (tick m)]> (Supervised.senderAttemptAt (vars m)))
                (vars m));
         sock := sock m; authFolder := authFolder m;
         tick := S (S (tick m));
         trace := trace m ++ [ESend (sock m) g (Text textInicializandoGrupo) true] |}
| WarmFailed :
    endsWith g (lit "@g.us") = true ->
    g ∉ Supervised.senderReadyGroups (vars m) ->
    Supervised.SENDER_COOLDOWN_MS
      <= clock W (tick m) - default 0 (Supervised.senderAttemptAt (vars m) !! g) ->
    outcome W (S (tick m)) = false ->
    WarmUp W g m false
      {| vars :=
           Supervised.setSenderAttemptAt
             (<[g := clock W (tick m)]> (Supervised.senderAttemptAt (vars m)))
             (vars m);
         sock := sock m; authFolder := authFolder m;
         tick := S (S (tick m));
         trace := trace m ++ [ESend (sock m) g (Text textInicializandoGrupo) false;
                              ELog LogGroupInitFailed] |}.

Definition isAntiLink (h : Handler) : bool :=
  match h with handleAntiLinkMessage => true | _ => false end.

(** A handler other than the anti-link scan rejected. *)
Definition isFault (e : Effect) : bool :=
  match e with
  | EInvoke h _ _ _ ok => negb ok && negb (isAntiLink h)
  | _ => false
  end.

Definition faulted (tr : list Effect) : bool := existsb isFault tr.

(** The text-only variant of a handler was tried: the lightweight path of a
    group that is not warmed up. *)
Definition isTextOnly (e : Effect) : bool :=
  match e with EInvoke _ true _ _ _ => true | _ => false end.

Definition fallbackTaken (tr : list Effect) : bool := existsb isTextOnly tr.

(** A delivered generic error reply to conversation [to]. *)
Definition isErrorReply (to : jsstring) (e : Effect) : bool :=
  match e with
  | ESend _ to' (Text t) true => String.eqb t textErro && Js.eqb to' to
  | _ => false
  end.

Definition errorReply (to : jsstring) : Pending :=
  {| jid := to; msg := Text textErro |}.

(** Every handler invocation of the trace is about message [x]. *)
Definition aboutMsg (x : Msg) (e : Effect) : Prop :=
  match e with EInvoke _ _ _ y _ => y = x | _ => True end.

(** What [processMessage] of the supervised script does to the machine. *)
Record Processed (msg : Msg) (m m' : Machine Supervised.Vars) (tr : list Effect)
  : Prop := {
  processed_trace : trace m' = trace m ++ tr;
  processed_sock : sock m' = sock m;
  processed_folder : authFolder m' = authFolder m;
  processed_ready : Supervised.authReady (vars m') = Supervised.authReady (vars m);
  processed_qr : Supervised.qrSent (vars m') = Supervised.qrSent (vars m);
  processed_attempts :
    Supervised.reconnectAttempts (vars m') = Supervised.reconnectAttempts (vars m);
  processed_groups :
    Supervised.senderReadyGroups (vars m) ⊆ Supervised.senderReadyGroups (vars m');
  processed_about : Forall (aboutMsg msg) tr;
  processed_replies :
    exists k : nat,
      Supervised.pendingMessages (vars m')
      = Supervised.pendingMessages (vars m) ++ repeat (errorReply (remoteJid msg)) k
      /\ (k + count (isErrorReply (remoteJid msg)) tr)%nat
         = if fallbackTaken tr then 0%nat
           else if faulted tr then 1%nat else 0%nat
}.

(** What [processMessage] of [src/telao3/index.js] adds to the trace. *)
Definition telao3Effects (W : World) (msg : Msg) (m : Machine Telao3.Vars) : list Effect :=
  antiLinkEffects W (sock m) msg (tick m)
  ++ fst (tryEffects W (sock m) msg (S (tick m)) (mainPlan W msg))
  ++ (if snd (tryEffects W (sock m) msg (S (tick m)) (mainPlan W msg))
      then [] else [ELog LogProcessFailed]).

(** The machine of the supervised script once the session is open. *)
Definition readyMachine : Machine Supervised.Vars :=
  {| vars := Supervised.setAuthReady true (vars Supervised.initial);
     sock := 1%nat; authFolder := Some ∅; tick := 0%nat; trace := [] |}.

(** The count the supervised script holds when it has handled the scan
    branch of an update and incremented the counter for a closure. *)
Definition attemptsAtClose (m : Machine Supervised.Vars) (u : Update) : Z :=
  match scanRuns (Supervised.qrSent (vars m)) u with
  | Some _ => 0
  | None => Supervised.reconnectAttempts (vars m)
  end + 1.

Definition qrSentAfter (sent : bool) (u : Update) : bool :=
  match scanRuns sent u with Some _ => true | None => sent end.

Definition scanEffects (W : World) (sent : bool) (t : nat) (u : Update) : list Effect :=
  match scanRuns sent u with Some q => qrEffects W t q | None => [] end.

(** Changing nothing but the credential folder. *)
Definition withFolder {V} (f : option (gmap string string)) (m : Machine V) : Machine V :=
  {| vars := vars m; sock := sock m; authFolder := f; tick := tick m; trace := trace m |}.

(** A machine of [src/telao3/index.js] that holds credentials. *)
Definition telao3WithCreds : Machine Telao3.Vars :=
  {| vars := {| Telao3.pendingMessages := []; Telao3.authReady := true |};
     sock := 1%nat; authFolder := Some {[ "creds.json"%string := "{}"%string ]};
     tick := 0%nat; trace := [] |}.

(** A closure that is not a logout and carries no scan signal. *)
Definition transient (u : Update) : Prop :=
  connection u = Some ConnClose
  /\ motivo u <> DisconnectReason_loggedOut
  /\ truthy (qr u) = None.

(** Each closure followed by the restart it scheduled. *)
Definition retryCycles (us : list Update) : list Event :=
  flat_map (fun u => [EvConnection u; EvStart]) us.

(** The delays of attempts [c+1], ..., [c+n]. *)
Fixpoint delaysFrom (c : Z) (n : nat) : list Q :=
  match n with
  | O => []
  | S n' => Supervised.reconnectDelay (c + 1) :: delaysFrom (c + 1) n'
  end.

(** What a ["connection.update"] listener with the [qrSent] guard does about
    the scan code: the new effects are those of the scan branch, if it
    runs, followed by effects that neither encode nor print a code; and
    [qrSent] is set once the branch has run. *)
Record Scanned (W : World) (sent : bool) (t : nat) (u : Update)
    (sent' : bool) (tr : list Effect) : Prop := {
  scanned_sent : sent' = qrSentAfter sent u;
  scanned_effects :
    exists post,
      tr = scanEffects W sent t u ++ post
      /\ count isQrEncode post = 0%nat
      /\ count isQrPrinted post = 0%nat
}.




Definition lastAttempt (m : Machine Supervised.Vars) (g : jsstring) : Z :=
  default 0 (Supervised.senderAttemptAt (vars m) !! g).

(** A machine on which the warm-up of a group was attempted, without
    success, at clock reading 1700000000000. *)
Definition coolingMachine : Machine Supervised.Vars :=
  {| vars := Supervised.setSenderAttemptAt
               {[ lit "120363@g.us" := 1700000000000 ]} (vars readyMachine);
     sock := 1%nat; authFolder := Some ∅; tick := 5%nat; trace := [] |}.

(** The texts served by the lightweight path of a group that is not warmed
    up: [lowerText === "@tabela" || ['.t', '.n', '.i', '.s'].includes(lowerText)]. *)
Definition tabelaLike (t : jsstring) : bool :=
  eqb t (lit "@tabela") || includes [lit ".t"; lit ".n"; lit ".i"; lit ".s"] t.

(** The handlers that [processMessage] invokes on a message, in order. *)
Definition telao3Invoked (W : World) (msg : Msg) (m : Machine Telao3.Vars) : list Handler :=
  invoked (newEffects m (snd (Telao3.processMessage W msg m))).

Definition supervisedInvoked (W : World) (msg : Msg) (m : Machine Supervised.Vars)
  : list Handler :=
  invoked (newEffects m (snd (Supervised.processMessage W msg m))).

(** A command handler: any handler but the anti-link scan, the pix handler
    and the receipt-image handler. *)
Definition isCommand (h : Handler) : bool :=
  match h with
  | handleAntiLinkMessage | handleMensagemPix | handleComprovanteFoto => false
  | _ => true
  end.

(** When each command handler is among the handlers [hs] invoked for a
    message of conversation [j] whose lower-cased text is [t], every
    condition being on [j] and [t] alone; and what [hs] is made of: the two
    side channels, then no command, one command, or the tabela handler
    twice. *)
Record Dispatch (j t : jsstring) (hs : list Handler) : Prop := {
  dispatch_compra2 :
    In handleCompra2 hs <-> startsWith t (lit ".compra") = true;
  dispatch_listar :
    In handleListar hs <-> t = lit "@concorrentes";
  dispatch_remove :
    In handleRemove hs
    <-> startsWith t (lit "@remove") = true \/ startsWith t (lit "/remove") = true;
  dispatch_ban :
    In handleBan hs
    <-> startsWith t (lit "@ban") = true \/ startsWith t (lit "/ban") = true;
  dispatch_pagamento :
    In handlePagamento hs <-> t = lit "@pagamentos";
  dispatch_grupo :
    In handleGrupo hs <-> In t [lit "@grupo on"; lit "@grupo off"];
  dispatch_compra :
    In handleCompra hs
    <-> startsWith t (lit "@compra") = true \/ startsWith t (lit "@rentanas") = true;
  dispatch_concorrer :
    In handleConcorrer hs
    <-> endsWith j (lit "@g.us") = true /\ t = lit "@concorrencia";
  dispatch_tabela :
    In handleTabela hs
    <-> In t [lit "@tabela"; lit ".n"; lit ".t"; lit ".i"; lit ".s"];
  dispatch_todos :
    In handleTodos hs <-> t = lit "@todos";
  dispatch_message :
    In handleMessage hs
    <-> (startsWith t (lit "@") = true \/ startsWith t (lit "/") = true)
        /\ startsWith t (lit "@remove") = false
        /\ startsWith t (lit "/remove") = false
        /\ startsWith t (lit "@ban") = false
        /\ startsWith t (lit "/ban") = false
        /\ startsWith t (lit "@compra") = false
        /\ startsWith t (lit "@rentanas") = false
        /\ ~ In t [lit "@concorrentes"; lit "@pagamentos"; lit "@grupo on";
                   lit "@grupo off"; lit "@tabela"; lit "@todos"]
        /\ ~ (endsWith j (lit "@g.us") = true /\ t = lit "@concorrencia");
  dispatch_none :
    hs = [handleAntiLinkMessage; handleMensagemPix]
    <-> startsWith t (lit ".compra") = false
        /\ startsWith t (lit "@") = false
        /\ startsWith t (lit "/") = false
        /\ ~ In t [lit ".n"; lit ".t"; lit ".i"; lit ".s"];
  dispatch_made_of :
    exists cmds,
      hs = [handleAntiLinkMessage; handleMensagemPix] ++ cmds
      /\ (cmds = []
          \/ (exists h, isCommand h = true /\ cmds = [h])
          \/ cmds = [handleTabela; handleTabela])
}.

(** The handlers invoked are the two side channels and the routed command;
    on the lightweight path the routed command is the tabela handler,
    invoked once or twice. *)
Definition routedShape (j t : jsstring) (hs : list Handler) : Prop :=
  hs = [handleAntiLinkMessage; handleMensagemPix]
       ++ match route j t with Some h => [h] | None => [] end
  \/ (route j t = Some handleTabela
      /\ (hs = [handleAntiLinkMessage; handleMensagemPix; handleTabela]
          \/ hs = [handleAntiLinkMessage; handleMensagemPix; handleTabela; handleTabela])).

(** A code unit that the normalisation removes at either end of the text:
    a directional mark or white space. *)
Definition isPadding (c : N) : bool := isBidiControl c || isWhiteSpace c.

(** A photo without caption sent to a group. *)
Definition photoMessage : Msg :=
  {| remoteJid := lit "120363@g.us"; fromMe := false;
     conversation := None; extendedText := None; messageText := None;
     imageMessage := true |}.

(** The two side channels that [processMessage] awaits before it looks at
    the group and at the command, for a message without image. *)
Definition sideChannels (W : World) (msg : Msg) : JS Supervised.Vars unit :=
  tryCatch (invoke W handleAntiLinkMessage msg) (emit (ELog LogAntiLink)) ;;
  invoke W handleMensagemPix msg.

(** The invocations of command handlers in a trace. *)
Definition isCommandCall (e : Effect) : bool :=
  match e with
  | EInvoke handleAntiLinkMessage _ _ _ _ => false
  | EInvoke handleMensagemPix _ _ _ _ => false
  | EInvoke handleComprovanteFoto _ _ _ _ => false
  | EInvoke _ _ _ _ _ => true
  | _ => false
  end.

Definition commandCalls (tr : list Effect) : list Effect := List.filter isCommandCall tr.

Definition warmUpMessage (g : jsstring) : Pending :=
  {| jid := g; msg := Text textInicializandoGrupo |}.

(** The effects of handling a message: handler invocations, deliveries and
    log lines. *)
Definition isMessageEffect (e : Effect) : bool :=
  match e with
  | ESend _ _ _ _ | EInvoke _ _ _ _ _ | ELog _ => true
  | _ => false
  end.

(** A closure for another reason than a logout: the only event on which
    the supervised script can give up. *)
Definition isLostConnection (e : Event) : Prop :=
  match e with
  | EvConnection u =>
      connection u = Some ConnClose /\ motivo u <> DisconnectReason_loggedOut
  | _ => False
  end.

(** What the downloads of a listing leave in a folder: every file whose
    download succeeds is written, in the order of the listing. *)
Fixpoint writeDownloaded (data : list (string * option string))
    (d : gmap string string) : gmap string string :=
  match data with
  | [] => d
  | (name, Some buffer) :: data' => writeDownloaded data' (<[name := buffer]> d)
  | (_, None) :: data' => writeDownloaded data' d
  end.

Definition downloadFailed (file : string * option string) : bool :=
  match snd file with None => true | Some _ => false end.

(** The local files before a hydration; a missing folder is created
    empty. *)
Definition localFiles {V} (m : Machine V) : gmap string string :=
  default ∅ (authFolder m).

Definition isDownloadFailedLog (e : Effect) : bool :=
  match e with ELog LogDownloadFailed => true | _ => false end.

(** A world whose bucket always lists [data] and in which every call
    resolves. *)
Definition bucketWorld (data : list (string * option string)) : World :=
  {| outcome := fun _ => true;
     clock := fun t => 1700000000000 + 1000 * Z.of_nat t;
     bucket := fun _ => Some data;
     toLowerCase := List.map asciiLower |}.

(** A machine of the supervised script that holds credentials. *)
Definition supervisedWithCreds : Machine Supervised.Vars :=
  {| vars := Supervised.setAuthReady true (vars Supervised.initial);
     sock := 1%nat; authFolder := Some {[ "creds.json"%string := "{}"%string ]};
     tick := 0%nat; trace := [] |}.

(** The texts that the scripts ever put on the queue. *)
Definition isFixedReply (p : Pending) : Prop :=
  msg p = Text textErro \/ msg p = Text textIniciandoLongo \/ msg p = Text textIniciando.

(** The notices owed to the batches that arrive while the session is not
    ready: one for each batch whose first message is not the bot's own, to
    the conversation of that message. *)
Definition startupNotices (text : string) (batches : list (option (list Msg)))
  : list Pending :=
  flat_map (fun b =>
    match b with
    | Some (msg :: _) =>
        if fromMe msg then [] else [{| jid := remoteJid msg; msg := Text text |}]
    | _ => []
    end) batches.

Definition isClose (u : Update) : bool :=
  match connection u with Some ConnClose => true | _ => false end.

(** The closures among the events, in order. *)
Definition closures (es : list Event) : list Update :=
  flat_map (fun e =>
    match e with
    | EvConnection u => if isClose u then [u] else []
    | _ => []
    end) es.

(** The events of the connection lifecycle: starts and connection
    updates. *)
Definition isLifecycle (e : Event) : Prop :=
  match e with EvMessages _ => False | _ => True end.

(** The flat delays of the legacy script. *)
Definition legacyDelay (u : Update) : Q :=
  if motivo u =? DisconnectReason_loggedOut then 3000%Q else 5000%Q.

(** An event that is not a logout closure. *)
Definition notLogout (e : Event) : Prop :=
  match e with
  | EvConnection u =>
      connection u = Some ConnClose -> motivo u <> DisconnectReason_loggedOut
  | _ => True
  end.

(** The session reaches the open state. *)
Definition isOpening (e : Event) : Prop :=
  match e with
  | EvConnection u => connection u = Some ConnOpen
  | _ => False
  end.

(** What [GET /health] reports as status on a machine. *)
Definition reportedStatus (W : World) (m : Machine Supervised.Vars) : option string :=
  match fst (Supervised.health W m) with
  | Normal h => Some (Supervised.status h)
  | _ => None
  end.

(** The warm-up message of the script without a cache. *)
Definition uncachedWarmUp (g : jsstring) : Pending :=
  {| jid := g; msg := TextEphemeral "✅" 1 |}.

(** The calls a transition of these listeners added to the log. *)
Definition newCalls (before after : Machine Side.Log) : list Side.Call :=
  skipn (length (vars before)) (vars after).

(** The reactions handed to [handleReaction], in order. *)
Definition handled (log : list Side.Call) : list Side.Reaction :=
  flat_map (fun c => match c with Side.CReaction _ r _ => [r] | _ => [] end) log.

(** The welcome messages sent: conversation, picture address if any, text
    and mentions. *)
Definition welcomes (log : list Side.Call)
  : list (jsstring * option jsstring * jsstring * list jsstring) :=
  flat_map (fun c =>
    match c with
    | Side.CSendImage _ to url caption mentions _ => [(to, Some url, caption, mentions)]
    | Side.CSendText _ to text mentions _ => [(to, None, text, mentions)]
    | _ => []
    end) log.

(** The welcome messages owed to a list of participants, the first
    profile picture being asked for at tick [t]: each participant costs two
    calls, whatever their outcome. *)
Fixpoint welcomePlan (W : World) (pictures : jsstring -> option jsstring)
    (id : jsstring) (t : nat) (participants : list jsstring)
  : list (jsstring * option jsstring * jsstring * list jsstring) :=
  match participants with
  | [] => []
  | p :: ps =>
      (id, (if outcome W t then truthy (pictures p) else None),
       lit "@" ++ Side.beforeAt p ++ Side.welcomeTail, [p])
        :: welcomePlan W pictures id (S (S t)) ps
  end.

(** The files uploaded, in order. *)
Definition uploads (log : list Side.Call) : list (string * string) :=
  flat_map (fun c => match c with Side.CUpload name content _ => [(name, content)] | _ => [] end)
    log.

(** Every delivery of a trace goes through socket [s]. *)
Definition deliveredOn (s : nat) (tr : list Effect) : Prop :=
  forall s' to p ok, In (ESend s' to p ok) tr -> s' = s.

(** A closure, the restart it schedules and the opening of the new
    session. *)
Definition reconnection (u o : Update) : list Event :=
  [EvConnection u; EvStart; EvConnection o].

(** A machine of the supervised script with an open session and two
    replies waiting in the queue. *)
Definition supervisedQueued : Machine Supervised.Vars :=
  {| vars := Supervised.setPendingMessages
               [replyTo "5511@s.whatsapp.net" textIniciando;
                replyTo "120363@g.us" textErro]
               (vars readyMachine);
     sock := 1%nat; authFolder := Some ∅; tick := 0%nat; trace := [] |}.

(** An operand that [||] skips: [undefined] or the empty string. *)
Definition falsy (o : option jsstring) : Prop := o = None \/ o = Some [].

(** The message carries the text [body]: [body] is not empty and is the
    first of [msg.message.conversation],
    [msg.message.extendedTextMessage.text] and [msg.message.text] that is
    neither undefined nor empty. *)
Definition carries (msg : Msg) (body : jsstring) : Prop :=
  body <> []
  /\ (conversation msg = Some body
      \/ (falsy (conversation msg) /\ extendedText msg = Some body)
      \/ (falsy (conversation msg) /\ falsy (extendedText msg)
          /\ messageText msg = Some body)).

(** The receipt-image handler is awaited: an image sent to a group. *)
Definition photoAwaited (msg : Msg) : bool :=
  imageMessage msg && endsWith (remoteJid msg) (lit "@g.us").

(** The handlers awaited before the command chain is reached. *)
Definition sidePlan (msg : Msg) : list Handler :=
  [handleAntiLinkMessage]
  ++ (if photoAwaited msg then [handleComprovanteFoto] else [])
  ++ [handleMensagemPix].

(** The handlers awaited in the main [try] block before the command chain
    resolve, the anti-link scan being the call of tick [t]: the pix handler
    alone at tick [t + 1], or the receipt-image handler at tick [t + 1] and
    the pix handler at tick [t + 2]. *)
Definition sideResolves (W : World) (msg : Msg) (t : nat) : bool :=
  outcome W (S t) && (if photoAwaited msg then outcome W (S (S t)) else true).

(** An image sent to a group, whose text ["@TABELA"] is carried by
    [extendedTextMessage.text], [conversation] being the empty string. *)
Definition photoWithText : Msg :=
  {| remoteJid := lit "120363@g.us"; fromMe := false;
     conversation := Some []; extendedText := Some (lit "@TABELA");
     messageText := None; imageMessage := true |}.

(** A message of the bot itself. *)
Definition ownMessage : Msg :=
  {| remoteJid := lit "5511@s.whatsapp.net"; fromMe := true;
     conversation := Some (lit "@tabela"); extendedText := None;
     messageText := None; imageMessage := false |}.

(** What [syncAuthToSupabase] reads for the names [names] in a folder of
    content [d]: each name that is a file of the folder, with its content,
    in the order of [names]. *)
Definition readable (d : gmap string string) (names : list string)
  : list (string * string) :=
  flat_map (fun f => match d !! f with Some c => [(f, c)] | None => [] end) names.

(** * Properties *)

(** ** Traces *)

Lemma newEffects_app {V} (m m' : Machine V) (tr : list Effect) :
  trace m' = trace m ++ tr -> newEffects m m' = tr.
Proof.
  intros E. unfold newEffects. rewrite E.
  rewrite skipn_app, skipn_all, Nat.sub_diag. reflexivity.
Qed.

Lemma attempted_app (a b : list Effect) :
  attempted (a ++ b) = attempted a ++ attempted b.
Proof.
  induction a as [|e a IH]; [reflexivity|].
  destruct e; simpl; rewrite ?IH; reflexivity.
Qed.

Lemma invoked_app (a b : list Effect) :
  invoked (a ++ b) = invoked a ++ invoked b.
Proof.
  induction a as [|e a IH]; [reflexivity|].
  destruct e; simpl; rewrite ?IH; reflexivity.
Qed.

Lemma scheduled_app (a b : list Effect) :
  scheduled (a ++ b) = scheduled a ++ scheduled b.
Proof.
  induction a as [|e a IH]; [reflexivity|].
  destruct e; simpl; rewrite ?IH; reflexivity.
Qed.

Lemma count_app (f : Effect -> bool) (a b : list Effect) :
  count f (a ++ b) = (count f a + count f b)%nat.
Proof. unfold count. rewrite List.filter_app, length_app. reflexivity. Qed.

(** ** The pending queue *)

Lemma flushEffects_attempted W s t q : attempted (flushEffects W s t q) = q.
Proof.
  revert t. induction q as [|[j p] q IH]; intros t; [reflexivity|].
  simpl. rewrite attempted_app, IH.
  destruct (outcome W t); reflexivity.
Qed.

Lemma flushEffects_logs W s t q :
  count isPendingFailedLog (flushEffects W s t q)
  = count isFailedSend (flushEffects W s t q).
Proof.
  revert t. induction q as [|p q IH]; intros t; [reflexivity|].
  simpl flushEffects. change (?e :: ?a ++ ?b) with ((e :: a) ++ b).
  rewrite !count_app, IH.
  destruct (outcome W t); reflexivity.
Qed.

Lemma flushEffects_only_sends W s t q e :
  In e (flushEffects W s t q) -> isInvoke e = false.
Proof.
  revert t. induction q as [|p q IH]; intros t; simpl; [tauto|].
  intros [<-|H]; [reflexivity|].
  apply in_app_or in H. destruct H as [H|H]; [|eauto].
  destruct (outcome W t); simpl in H; [tauto|].
  destruct H as [<-|[]]. reflexivity.
Qed.

Section FlushLoop.
Context {V : Type} (W : World).

(** The loop of [processPendingMessages], whatever the script. *)
Lemma forOf_flush (q : list Pending) (m : Machine V) :
  forOf q (fun p => tryCatch (sendMessage W (jid p) (msg p))
                             (emit (ELog LogPendingFailed))) m
  = (Normal tt,
     {| vars := vars m; sock := sock m; authFolder := authFolder m;
        tick := (tick m + length q)%nat;
        trace := trace m ++ flushEffects W (sock m) (tick m) q |}).
Proof.
  revert m. induction q as [|p q IH]; intros m.
  - simpl. rewrite Nat.add_0_r, app_nil_r. destruct m; reflexivity.
  - cbn [forOf]. unfold bind at 1.
    unfold tryCatch, sendMessage, await, bind, getSock, takeTick, emit, ret.
    cbn [vars sock authFolder tick trace].
    destruct (outcome W (tick m)) eqn:E.
    + rewrite IH. cbn [vars sock authFolder tick trace flushEffects length].
      rewrite E, <- app_assoc, Nat.add_succ_r. reflexivity.
    + rewrite IH. cbn [vars sock authFolder tick trace flushEffects length].
      rewrite E, <- !app_assoc, Nat.add_succ_r. reflexivity.
Qed.
End FlushLoop.

(** With pushes during the awaits, every entry is either attempted by the
    pass, in the order of insertion, or still queued after it: none is lost
    and none is attempted twice. *)
Lemma liveFlush_nothing_lost W s t rest arrivals :
  attempted (fst (liveFlush W s t rest arrivals)) ++ snd (liveFlush W s t rest arrivals)
  = rest ++ concat arrivals.
Proof.
  revert t rest. induction arrivals as [|a arrivals IH]; intros t rest.
  - cbn [liveFlush fst snd concat]. rewrite flushEffects_attempted. reflexivity.
  - destruct rest as [|[j p] rest]; [reflexivity|].
    cbn [liveFlush fst snd concat attempted jid msg].
    rewrite attempted_app.
    replace (attempted (if outcome W t then [] else [ELog LogPendingFailed]))
      with (@nil Pending) by (destruct (outcome W t); reflexivity).
    cbn [app]. rewrite IH, <- app_assoc. reflexivity.
Qed.

Lemma liveFlush_alone W s t rest :
  liveFlush W s t rest [] = (flushEffects W s t rest, []).
Proof. reflexivity. Qed.

Lemma qrEffects_attempted W t q : attempted (qrEffects W t q) = [].
Proof. unfold qrEffects. destruct (outcome W t); reflexivity. Qed.

Lemma qrEffects_counts W t q :
  count isPendingFailedLog (qrEffects W t q) = 0%nat
  /\ count isFailedSend (qrEffects W t q) = 0%nat.
Proof. unfold qrEffects. destruct (outcome W t); split; reflexivity. Qed.

(** Projections and setters of the machines. *)
Ltac js_simpl :=
  cbn [vars sock authFolder tick trace fst snd negb
       Telao3.pendingMessages Telao3.authReady Telao3.setAuthReady
       Telao3.setPendingMessages Telao3.push
       Legacy.pendingMessages Legacy.authReady Legacy.qrSent
       Legacy.setAuthReady Legacy.setQrSent Legacy.setPendingMessages
       Supervised.pendingMessages Supervised.authReady Supervised.qrSent
       Supervised.reconnectAttempts Supervised.senderReadyGroups
       Supervised.senderAttemptAt Supervised.setPendingMessages
       Supervised.setAuthReady Supervised.setQrSent
       Supervised.setReconnectAttempts Supervised.setSenderReadyGroups
       Supervised.setSenderAttemptAt Supervised.push].

Ltac js_unfold :=
  unfold sendMessage, invoke, invokeTextOnly, dateNow, writeFileSync,
    mkdirIfMissing;
  unfold function, bind, tryCatch, returnJS, getVars, getSock, modify, emit,
    setAuthFolder, getAuthFolder, takeTick, processExit, makeWASocket, ret,
    await;
  js_simpl.

(** Case analysis on every outcome the goal depends on. *)
Ltac js_outcomes W :=
  js_simpl;
  repeat match goal with
         | |- context [outcome W ?t] => destruct (outcome W t); js_simpl
         end.

(** [processPendingMessages] of [src/telao3/index.js], in closed form. *)
Lemma telao3_flush W (m : Machine Telao3.Vars) :
  Telao3.processPendingMessages W m
  = (Normal tt,
     {| vars := Telao3.setPendingMessages [] (vars m);
        sock := sock m; authFolder := authFolder m;
        tick := (tick m + length (Telao3.pendingMessages (vars m)))%nat;
        trace := trace m
                 ++ flushEffects W (sock m) (tick m)
                      (Telao3.pendingMessages (vars m)) |}).
Proof.
  unfold Telao3.processPendingMessages, bind, getVars, modify.
  rewrite forOf_flush. reflexivity.
Qed.

(** The open transition of [src/telao3/index.js], in closed form. *)
Lemma telao3_open W (u : Update) (m : Machine Telao3.Vars) :
  connection u = Some ConnOpen ->
  Telao3.connection_update W u m
  = (Normal tt,
     {| vars := {| Telao3.pendingMessages := []; Telao3.authReady := true |};
        sock := sock m; authFolder := authFolder m;
        tick := (tick m + ticksOfScan u
                 + length (Telao3.pendingMessages (vars m)))%nat;
        trace := trace m
                 ++ match truthy (qr u) with
                    | Some q => qrEffects W (tick m) q
                    | None => []
                    end
                 ++ flushEffects W (sock m) (tick m + ticksOfScan u)%nat
                      (Telao3.pendingMessages (vars m)) |}).
Proof.
  intros Hc. unfold Telao3.connection_update.
  rewrite Hc. unfold qrEffects, ticksOfScan.
  destruct (truthy (qr u)) as [q|]; js_unfold.
  - destruct (outcome W (tick m)); cbn [vars sock authFolder tick trace];
      rewrite telao3_flush;
      cbn [vars sock authFolder tick trace Telao3.pendingMessages
           Telao3.authReady Telao3.setAuthReady Telao3.setPendingMessages];
      rewrite <- !app_assoc, Nat.add_1_r; reflexivity.
  - rewrite telao3_flush.
    cbn [vars sock authFolder tick trace Telao3.pendingMessages
         Telao3.authReady Telao3.setAuthReady Telao3.setPendingMessages].
    rewrite Nat.add_0_r. reflexivity.
Qed.

(** [processPendingMessages] of the supervised script, in closed form: the
    guard on the length changes nothing. *)
Lemma supervised_flush W (m : Machine Supervised.Vars) :
  Supervised.processPendingMessages W m
  = (Normal tt,
     {| vars := Supervised.setPendingMessages [] (vars m);
        sock := sock m; authFolder := authFolder m;
        tick := (tick m + length (Supervised.pendingMessages (vars m)))%nat;
        trace := trace m
                 ++ flushEffects W (sock m) (tick m)
                      (Supervised.pendingMessages (vars m)) |}).
Proof.
  unfold Supervised.processPendingMessages, bind, getVars, modify.
  destruct m as [[q a s n r l] k f t tr]; cbn [vars Supervised.pendingMessages].
  destruct q as [|p q].
  - cbn. rewrite Nat.add_0_r, app_nil_r. reflexivity.
  - replace (0 <? Z.of_nat (length (p :: q))) with true
      by (symmetry; apply Z.ltb_lt; cbn [length]; lia).
    rewrite forOf_flush. reflexivity.
Qed.

(** The open transition of the supervised script, in closed form. *)
Lemma supervised_open W (u : Update) (m : Machine Supervised.Vars) :
  connection u = Some ConnOpen ->
  Supervised.connection_update W u m
  = (Normal tt,
     {| vars :=
          {| Supervised.pendingMessages := [];
             Supervised.authReady := true;
             Supervised.qrSent :=
               match scanRuns (Supervised.qrSent (vars m)) u with
               | Some _ => true
               | None => Supervised.qrSent (vars m)
               end;
             Supervised.reconnectAttempts := 0;
             Supervised.senderReadyGroups := Supervised.senderReadyGroups (vars m);
             Supervised.senderAttemptAt := Supervised.senderAttemptAt (vars m) |};
        sock := sock m; authFolder := authFolder m;
        tick := (tick m + ticksOfGuardedScan (Supervised.qrSent (vars m)) u
                 + length (Supervised.pendingMessages (vars m)))%nat;
        trace := trace m
                 ++ match scanRuns (Supervised.qrSent (vars m)) u with
                    | Some q => qrEffects W (tick m) q
                    | None => []
                    end
                 ++ flushEffects W (sock m)
                      (tick m + ticksOfGuardedScan (Supervised.qrSent (vars m)) u)%nat
                      (Supervised.pendingMessages (vars m))
                 ++ [ESyncToSupabase] |}).
Proof.
  intros Hc. unfold Supervised.connection_update.
  rewrite Hc. unfold qrEffects, ticksOfGuardedScan, scanRuns.
  destruct m as [[q a s n r l] k f t tr].
  destruct (truthy (qr u)) as [c|]; destruct s; js_unfold;
    cbn [Supervised.qrSent negb vars sock authFolder tick trace];
    try (destruct (outcome W t));
    cbn [vars sock authFolder tick trace];
    rewrite supervised_flush;
    cbn [vars sock authFolder tick trace Supervised.pendingMessages
         Supervised.authReady Supervised.qrSent Supervised.reconnectAttempts
         Supervised.senderReadyGroups Supervised.senderAttemptAt
         Supervised.setAuthReady Supervised.setPendingMessages
         Supervised.setQrSent Supervised.setReconnectAttempts];
    rewrite <- ?app_assoc, ?Nat.add_1_r, ?Nat.add_0_r; reflexivity.
Qed.

Lemma telao3_pushes (ps : list Pending) (v : Telao3.Vars) :
  Telao3.pendingMessages (fold_left (fun v p => Telao3.push p v) ps v)
  = Telao3.pendingMessages v ++ ps.
Proof.
  revert v. induction ps as [|p ps IH]; intros v; simpl.
  - rewrite app_nil_r. reflexivity.
  - rewrite IH. simpl. rewrite <- app_assoc. reflexivity.
Qed.

Lemma supervised_pushes (ps : list Pending) (v : Supervised.Vars) :
  Supervised.pendingMessages (fold_left (fun v p => Supervised.push p v) ps v)
  = Supervised.pendingMessages v ++ ps.
Proof.
  revert v. induction ps as [|p ps IH]; intros v; simpl.
  - rewrite app_nil_r. reflexivity.
  - rewrite IH. simpl. rewrite <- app_assoc. reflexivity.
Qed.

(** C1.  When the session reaches open, the listener of [src/telao3/index.js]
    and that of the supervised script both complete normally, attempt the
    delivery of exactly the entries of [pendingMessages], each once and in
    insertion order, log one line per failed delivery, and leave the queue
    empty (nothing is put back); and since [push] appends, a queue that was
    empty after the last flush holds exactly the entries pushed since. *)
Theorem flush_fifo_at_most_once (W : World) (u : Update) :
  connection u = Some ConnOpen ->
  (forall m : Machine Telao3.Vars,
      let r := Telao3.connection_update W u m in
      let tr := newEffects m (snd r) in
      fst r = Normal tt
      /\ attempted tr = Telao3.pendingMessages (vars m)
      /\ count isPendingFailedLog tr = count isFailedSend tr
      /\ Telao3.pendingMessages (vars (snd r)) = [])
  /\ (forall m : Machine Supervised.Vars,
      let r := Supervised.connection_update W u m in
      let tr := newEffects m (snd r) in
      fst r = Normal tt
      /\ attempted tr = Supervised.pendingMessages (vars m)
      /\ count isPendingFailedLog tr = count isFailedSend tr
      /\ Supervised.pendingMessages (vars (snd r)) = [])
  /\ (forall (ps : list Pending) (v : Telao3.Vars),
      Telao3.pendingMessages v = [] ->
      Telao3.pendingMessages (fold_left (fun v p => Telao3.push p v) ps v) = ps)
  /\ (forall (ps : list Pending) (v : Supervised.Vars),
      Supervised.pendingMessages v = [] ->
      Supervised.pendingMessages (fold_left (fun v p => Supervised.push p v) ps v) = ps).
Proof.
  intros Hc. split; [|split; [|split]].
  - intros m r tr. subst r tr. rewrite telao3_open by assumption. cbn [fst snd].
    erewrite newEffects_app by reflexivity.
    rewrite !attempted_app, !count_app, flushEffects_attempted, flushEffects_logs.
    cbn [vars Telao3.pendingMessages].
    destruct (truthy (qr u)) as [q|]; [|repeat split].
    rewrite qrEffects_attempted.
    destruct (qrEffects_counts W (tick m) q) as [-> ->]. repeat split.
  - intros m r tr. subst r tr. rewrite supervised_open by assumption. cbn [fst snd].
    erewrite newEffects_app by reflexivity.
    rewrite !attempted_app, !count_app, flushEffects_attempted, flushEffects_logs.
    cbn [vars Supervised.pendingMessages attempted].
    rewrite app_nil_r.
    destruct (scanRuns _ u) as [q|]; [|repeat split].
    rewrite qrEffects_attempted.
    destruct (qrEffects_counts W (tick m) q) as [-> ->]. repeat split.
  - intros ps v E. rewrite telao3_pushes, E. reflexivity.
  - intros ps v E. rewrite supervised_pushes, E. reflexivity.
Qed.

(** C1, at a queue of two replies whose first delivery fails. *)
Lemma flush_fifo_at_most_once_witness :
  let m := {| vars := {| Telao3.pendingMessages :=
                           [replyTo "5511@s.whatsapp.net" textIniciandoLongo;
                            replyTo "120363@g.us" textErro];
                         Telao3.authReady := false |};
              sock := 1%nat; authFolder := None; tick := 0%nat; trace := [] |} in
  attempted (newEffects m (snd (Telao3.connection_update (sampleWorld [false]) openUpdate m)))
  = [replyTo "5511@s.whatsapp.net" textIniciandoLongo; replyTo "120363@g.us" textErro].
Proof.
  intros m.
  exact (proj1 (proj2 (proj1 (flush_fifo_at_most_once (sampleWorld [false]) openUpdate eq_refl) m))).
Defined.

(** ** The command router *)

(** The [if] / [else if] chain of the scripts is the first match of that
    table. *)
Lemma chain_is_route {V} (W : World) (j t : jsstring) (msg : Msg) :
  (if startsWith t (lit ".compra") then invoke W handleCompra2 msg
   else if eqb t (lit "@concorrentes") then invoke W handleListar msg
   else if startsWith t (lit "@remove") || startsWith t (lit "/remove")
     then invoke W handleRemove msg
   else if startsWith t (lit "@ban") || startsWith t (lit "/ban")
     then invoke W handleBan msg
   else if eqb t (lit "@pagamentos") then invoke W handlePagamento msg
   else if includes [lit "@grupo on"; lit "@grupo off"] t
     then invoke W handleGrupo msg
   else if startsWith t (lit "@compra") || startsWith t (lit "@rentanas")
           || startsWith t (lit "@remove rentanas")
     then invoke W handleCompra msg
   else if endsWith j (lit "@g.us") && eqb t (lit "@concorrencia")
     then invoke W handleConcorrer msg
   else if eqb t (lit "@tabela") then invoke W handleTabela msg
   else if eqb t (lit "@todos") then invoke W handleTodos msg
   else if startsWith t (lit "@") || startsWith t (lit "/")
     then invoke W handleMessage msg
   else if includes [lit ".n"; lit ".t"; lit ".i"; lit ".s"] t
     then invoke W handleTabela msg
   else ret tt)
  = match route j t with
    | Some h => invoke W h msg
    | None => (ret tt : JS V unit)
    end.
Proof.
  unfold route, routeTable. cbn [firstMatch].
  repeat match goal with
         | |- context [if ?c then invoke _ _ _ else _] =>
             destruct c; [reflexivity|]
         end.
  reflexivity.
Qed.

(** [processMessage] of [src/telao3/index.js], in closed form. *)
Lemma telao3_processMessage W (msg : Msg) (m : Machine Telao3.Vars) :
  let main := tryEffects W (sock m) msg (S (tick m)) (mainPlan W msg) in
  Telao3.processMessage W msg m
  = (Normal tt,
     {| vars := if snd main then vars m
                else Telao3.push {| jid := remoteJid msg; msg := Text textErro |} (vars m);
        sock := sock m; authFolder := authFolder m;
        tick := (S (tick m) + length (fst main))%nat;
        trace := trace m ++ antiLinkEffects W (sock m) msg (tick m)
                 ++ fst main
                 ++ (if snd main then [] else [ELog LogProcessFailed]) |}).
Proof.
  unfold Telao3.processMessage, mainPlan, antiLinkEffects. cbv zeta.
  rewrite (chain_is_route W (remoteJid msg) (lowerTextOf W msg) msg).
  destruct (imageMessage msg && endsWith (remoteJid msg) (lit "@g.us"));
    destruct (route (remoteJid msg) (lowerTextOf W msg)) as [h|];
    js_unfold; cbn [app tryEffects]; js_outcomes W;
    cbn [vars sock authFolder tick trace fst snd length app];
    rewrite <- ?app_assoc; cbn [app];
    rewrite ?app_nil_r, ?Nat.add_0_r, <- ?plus_n_Sm, ?Nat.add_0_r;
    reflexivity.
Qed.

Lemma invoked_tryEffects_all W s msg t hs :
  snd (tryEffects W s msg t hs) = true ->
  invoked (fst (tryEffects W s msg t hs)) = hs.
Proof.
  revert t. induction hs as [|h hs IH]; intros t; cbn [tryEffects]; [reflexivity|].
  destruct (outcome W t); cbn [fst snd invoked]; [|discriminate].
  intros H. rewrite IH by assumption. reflexivity.
Qed.

Lemma attempted_tryEffects W s msg t hs :
  attempted (fst (tryEffects W s msg t hs)) = [].
Proof.
  revert t. induction hs as [|h hs IH]; intros t; cbn [tryEffects]; [reflexivity|].
  destruct (outcome W t); cbn [fst attempted]; [apply IH|reflexivity].
Qed.

Lemma invoked_antiLink W s msg t :
  invoked (antiLinkEffects W s msg t) = [handleAntiLinkMessage].
Proof. unfold antiLinkEffects. destruct (outcome W t); reflexivity. Qed.

Lemma attempted_antiLink W s msg t : attempted (antiLinkEffects W s msg t) = [].
Proof. unfold antiLinkEffects. destruct (outcome W t); reflexivity. Qed.

Ltac ascii_literal :=
  repeat first [ apply List.Forall_nil | apply List.Forall_cons; [reflexivity|] ].

Ltac route_compute j :=
  unfold route, routeTable; cbn [firstMatch];
  generalize (endsWith j (lit "@g.us")); intros [|]; vm_compute; reflexivity.

Lemma route_tabela j : route j (lit "@tabela") = Some handleTabela.
Proof. route_compute j. Qed.

Lemma route_compra2 j : route j (lit ".compra abc") = Some handleCompra2.
Proof. route_compute j. Qed.

Lemma route_grupo j : route j (lit "@grupo on") = Some handleGrupo.
Proof. route_compute j. Qed.

Lemma route_hello j : route j (lit "hello") = None.
Proof. route_compute j. Qed.

(** The effects of [processMessage] on a message without image whose pix
    side channel resolves, as far as the routed command decides them. *)
Lemma telao3_routed W (msg : Msg) (m : Machine Telao3.Vars) :
  imageMessage msg = false ->
  outcome W (S (tick m)) = true ->
  let r := Telao3.processMessage W msg m in
  let tr := newEffects m (snd r) in
  invoked tr
  = [handleAntiLinkMessage; handleMensagemPix]
    ++ match route (remoteJid msg) (lowerTextOf W msg) with
       | Some h => [h]
       | None => []
       end
  /\ attempted tr = []
  /\ (route (remoteJid msg) (lowerTextOf W msg) = None -> vars (snd r) = vars m).
Proof.
  intros Hi Hp r tr. subst r tr. rewrite telao3_processMessage. cbn [snd].
  erewrite newEffects_app by reflexivity.
  rewrite !invoked_app, !attempted_app, invoked_antiLink, attempted_antiLink,
    attempted_tryEffects.
  unfold mainPlan. rewrite Hi. cbn [andb app tryEffects]. rewrite Hp.
  cbn [fst snd invoked].
  destruct (route (remoteJid msg) (lowerTextOf W msg)) as [h|]; cbn [tryEffects].
  - destruct (outcome W (S (S (tick m)))); cbn [fst snd invoked attempted app];
      repeat split; try discriminate.
  - cbn [fst snd invoked attempted app]. repeat split.
Qed.

(** The lower-cased text of a message that carries the ASCII literal
    [body], when trimming and stripping leave [body] as it is. *)
Lemma lowerTextOf_carries W (msg : Msg) (body : jsstring) :
  lowerAscii W ->
  carries msg body ->
  trim (stripBidi body) = body ->
  isAscii body ->
  lowerTextOf W msg = List.map asciiLower body.
Proof.
  intros HW [Hne Hc] Ht Ha. unfold lowerTextOf, normalizedText.
  assert (E : orEmpty (orElse (conversation msg)
                         (orElse (extendedText msg) (messageText msg))) = body).
  { destruct body as [|c body]; [congruence|].
    destruct Hc as [-> | [([-> | ->] & ->) | ([-> | ->] & [-> | ->] & ->)]];
      reflexivity. }
  rewrite E, Ht. apply HW, Ha.
Qed.

(** What [processMessage] of [src/telao3/index.js] invokes and does to the
    queue when the handlers awaited before the command chain resolve. *)
Lemma telao3_routed_sides W (msg : Msg) (m : Machine Telao3.Vars) :
  sideResolves W msg (tick m) = true ->
  let r := Telao3.processMessage W msg m in
  let tr := newEffects m (snd r) in
  invoked tr
  = sidePlan msg
    ++ match route (remoteJid msg) (lowerTextOf W msg) with
       | Some h => [h]
       | None => []
       end
  /\ attempted tr = []
  /\ (route (remoteJid msg) (lowerTextOf W msg) = None -> vars (snd r) = vars m).
Proof.
  intros Hs r tr. subst r tr. unfold sideResolves, sidePlan, photoAwaited in *.
  rewrite telao3_processMessage. cbn [snd].
  erewrite newEffects_app by reflexivity.
  rewrite !invoked_app, !attempted_app, invoked_antiLink, attempted_antiLink,
    attempted_tryEffects.
  unfold mainPlan.
  apply andb_true_iff in Hs. destruct Hs as [H1 H2].
  destruct (imageMessage msg && endsWith (remoteJid msg) (lit "@g.us"));
    cbn [app tryEffects]; rewrite H1; cbn [fst snd invoked tryEffects];
    rewrite ?H2; cbn [fst snd invoked];
    destruct (route (remoteJid msg) (lowerTextOf W msg)) as [h|]; cbn [tryEffects];
    repeat match goal with
           | |- context [outcome W ?t] => destruct (outcome W t)
           end;
    cbn [fst snd invoked attempted app]; repeat split; try discriminate.
Qed.

(** The same when one of them rejects: the chain is not reached. *)
Lemma telao3_side_fault W (msg : Msg) (m : Machine Telao3.Vars) :
  sideResolves W msg (tick m) = false ->
  let r := Telao3.processMessage W msg m in
  let tr := newEffects m (snd r) in
  invoked tr
  = handleAntiLinkMessage
      :: (if photoAwaited msg
          then handleComprovanteFoto
                 :: (if outcome W (S (tick m)) then [handleMensagemPix] else [])
          else [handleMensagemPix])
  /\ attempted tr = []
  /\ vars (snd r)
     = {| Telao3.pendingMessages :=
            Telao3.pendingMessages (vars m) ++ [errorReply (remoteJid msg)];
          Telao3.authReady := Telao3.authReady (vars m) |}.
Proof.
  intros Hs r tr. subst r tr. unfold sideResolves, photoAwaited in *.
  rewrite telao3_processMessage. cbn [snd].
  erewrite newEffects_app by reflexivity.
  rewrite !invoked_app, !attempted_app, invoked_antiLink, attempted_antiLink,
    attempted_tryEffects.
  unfold mainPlan. cbn [vars].
  destruct (imageMessage msg && endsWith (remoteJid msg) (lit "@g.us"));
    cbn [app tryEffects];
    destruct (outcome W (S (tick m))); cbn [andb] in Hs;
    try discriminate Hs; cbn [fst snd invoked tryEffects];
    rewrite ?Hs; cbn [fst snd invoked attempted app]; repeat split.
Qed.

(** C6 as stated fails on [src/telao3/index.js]: the pix handler is awaited
    in the same [try] block before the command chain, so when it rejects
    the text ["hello"] gets the generic error reply queued, and the text
    ["@TABELA"] never reaches the tabela handler. *)
Lemma pix_fault_preempts_router :
  let W := sampleWorld [true; false] in
  let hello := textMessage "5511@s.whatsapp.net" "hello" in
  let tabela := textMessage "5511@s.whatsapp.net" "@TABELA" in
  let r := Telao3.processMessage W hello telao3WithCreds in
  let r' := Telao3.processMessage W tabela telao3WithCreds in
  trace (snd r)
  = [EInvoke handleAntiLinkMessage false 1 hello true;
     EInvoke handleMensagemPix false 1 hello false;
     ELog LogProcessFailed]
  /\ Telao3.pendingMessages (vars (snd r)) = [replyTo "5511@s.whatsapp.net" textErro]
  /\ invoked (trace (snd r')) = [handleAntiLinkMessage; handleMensagemPix]
  /\ Telao3.pendingMessages (vars (snd r')) = [replyTo "5511@s.whatsapp.net" textErro].
Proof. vm_compute. repeat split. Qed.

(** C6, amended.  In [processMessage] of [src/telao3/index.js] the command
    chain comes after the anti-link scan and, in the same [try] block, after
    the receipt-image handler (image sent to a group) and the pix handler.
    When these two resolve, whichever of [conversation],
    [extendedTextMessage.text] and [text] carries the text: ["@TABELA"] is
    matched without regard to case and the tabela handler is awaited;
    [".compra abc"] goes to the compra2 handler; ["@grupo on"] goes to the
    group handler; and for ["hello"] nothing but the side channels runs,
    nothing is sent and the variables (the queue among them) are unchanged.
    When one of the two rejects, whatever the text, the chain is not
    reached: the handlers invoked are the side channels up to the one that
    rejected, nothing is sent, and the generic error reply to the
    conversation is appended to the queue. *)
Theorem router_examples (W : World) (msg : Msg) (m : Machine Telao3.Vars) :
  lowerAscii W ->
  let r := Telao3.processMessage W msg m in
  let tr := newEffects m (snd r) in
  (sideResolves W msg (tick m) = true ->
   (carries msg (lit "@TABELA") -> invoked tr = sidePlan msg ++ [handleTabela])
   /\ (carries msg (lit ".compra abc") -> invoked tr = sidePlan msg ++ [handleCompra2])
   /\ (carries msg (lit "@grupo on") -> invoked tr = sidePlan msg ++ [handleGrupo])
   /\ (carries msg (lit "hello") ->
       invoked tr = sidePlan msg
       /\ attempted tr = []
       /\ vars (snd r) = vars m))
  /\ (sideResolves W msg (tick m) = false ->
      invoked tr
      = handleAntiLinkMessage
          :: (if photoAwaited msg
              then handleComprovanteFoto
                     :: (if outcome W (S (tick m)) then [handleMensagemPix] else [])
              else [handleMensagemPix])
      /\ attempted tr = []
      /\ vars (snd r)
         = {| Telao3.pendingMessages :=
                Telao3.pendingMessages (vars m) ++ [errorReply (remoteJid msg)];
              Telao3.authReady := Telao3.authReady (vars m) |}).
Proof.
  intros HW r tr. split; [|apply telao3_side_fault].
  intros Hs.
  destruct (telao3_routed_sides W msg m Hs) as (Hinv & Hatt & Hvars).
  fold r in Hinv, Hatt, Hvars. fold tr in Hinv, Hatt.
  assert (L : forall body : jsstring,
             carries msg body ->
             trim (stripBidi body) = body -> isAscii body ->
             lowerTextOf W msg = List.map asciiLower body)
    by (intros body; apply lowerTextOf_carries, HW).
  split; [|split; [|split]]; intros Hc.
  - rewrite Hinv, (L _ Hc) by first [reflexivity | ascii_literal].
    change (List.map asciiLower (lit "@TABELA")) with (lit "@tabela").
    rewrite route_tabela. reflexivity.
  - rewrite Hinv, (L _ Hc) by first [reflexivity | ascii_literal].
    change (List.map asciiLower (lit ".compra abc")) with (lit ".compra abc").
    rewrite route_compra2. reflexivity.
  - rewrite Hinv, (L _ Hc) by first [reflexivity | ascii_literal].
    change (List.map asciiLower (lit "@grupo on")) with (lit "@grupo on").
    rewrite route_grupo. reflexivity.
  - assert (R : route (remoteJid msg) (lowerTextOf W msg) = None).
    { rewrite (L _ Hc) by first [reflexivity | ascii_literal].
      change (List.map asciiLower (lit "hello")) with (lit "hello").
      apply route_hello. }
    rewrite Hinv, R, app_nil_r. repeat split; auto.
Qed.

(** C6 amended, at an image sent to a group whose text ["@TABELA"] is
    carried by [extendedTextMessage.text], every call resolving. *)
Lemma router_examples_witness :
  invoked (newEffects telao3WithCreds
             (snd (Telao3.processMessage (sampleWorld []) photoWithText telao3WithCreds)))
  = [handleAntiLinkMessage; handleComprovanteFoto; handleMensagemPix; handleTabela].
Proof.
  refine (proj1 (proj1 (router_examples (sampleWorld []) photoWithText telao3WithCreds
                          (fun s _ => eq_refl)) eq_refl) _).
  split; [discriminate|]. right. left. split; [right|]; reflexivity.
Defined.

(** ** The group warm-up cache *)

Lemma endsWith_nil_false (p : jsstring) : p <> [] -> endsWith [] p = false.
Proof.
  unfold endsWith. intros H. cbn [List.rev].
  destruct (List.rev p) as [|c r] eqn:E; [|reflexivity].
  apply (f_equal (@List.rev N)) in E. rewrite rev_involutive in E. contradiction.
Qed.

Lemma ensureGroupReady_spec W (g : jsstring) (m : Machine Supervised.Vars) :
  exists b m', Supervised.ensureGroupReady W g m = (Normal b, m') /\ WarmUp W g m b m'.
Proof.
  unfold Supervised.ensureGroupReady.
  destruct (endsWith g (lit "@g.us")) eqn:Eg.
  - destruct g as [|c g].
    { rewrite endsWith_nil_false in Eg by discriminate. discriminate. }
    cbn [orb negb]. js_unfold.
    destruct (bool_decide _) eqn:Er.
    + apply bool_decide_eq_true in Er. eauto using WarmUp.
    + apply bool_decide_eq_false in Er.
      match goal with
      | |- context [?a <? Supervised.SENDER_COOLDOWN_MS] =>
          destruct (Z.ltb_spec0 a Supervised.SENDER_COOLDOWN_MS) as [Hlt|Hge]
      end.
      * eauto using WarmUp.
      * cbn [vars sock authFolder tick trace].
        destruct (outcome W (S (tick m))) eqn:Eo; cbn [vars sock authFolder tick trace].
        -- do 2 eexists; split; [reflexivity|].
           apply WarmSent; auto; lia.
        -- do 2 eexists; split; [reflexivity|].
           rewrite <- (app_assoc (trace m)). apply WarmFailed; auto; lia.
  - rewrite orb_true_r. eauto using WarmUp.
Qed.

(** ** Faults of handlers *)

Lemma js_eqb_refl (s : jsstring) : Js.eqb s s = true.
Proof. induction s as [|c s IH]; [reflexivity|]. cbn. rewrite N.eqb_refl. exact IH. Qed.

Lemma firstMatch_not_antilink table j t h :
  Forall (fun ph => isAntiLink (snd ph) = false) table ->
  firstMatch table j t = Some h -> isAntiLink h = false.
Proof.
  induction 1 as [|[p h'] table Hh _ IH]; cbn [firstMatch]; [discriminate|].
  destruct (p j t); [|exact IH].
  intros [= <-]. exact Hh.
Qed.

Lemma route_not_antilink j t h : route j t = Some h -> isAntiLink h = false.
Proof.
  apply firstMatch_not_antilink. unfold routeTable.
  repeat (apply List.Forall_cons; [reflexivity|]). apply List.Forall_nil.
Qed.

Lemma eqb_warmup_erro : String.eqb textInicializandoGrupo textErro = false.
Proof. reflexivity. Qed.

Lemma eqb_erro_erro : String.eqb textErro textErro = true.
Proof. reflexivity. Qed.

Ltac replies_done Hh :=
  cbn [repeat app count List.filter length isErrorReply fallbackTaken faulted
       existsb isTextOnly isFault isAntiLink negb andb orb Nat.add errorReply];
  rewrite ?eqb_warmup_erro, ?eqb_erro_erro, ?js_eqb_refl, ?Hh, ?app_nil_r;
  cbn [repeat app count List.filter length negb andb orb Nat.add];
  split; reflexivity.

Ltac processed_done Hh :=
  do 2 eexists; split; [reflexivity|];
  split; js_simpl;
  [ rewrite <- ?app_assoc; reflexivity
  | reflexivity | reflexivity
  | first [reflexivity | assumption]
  | reflexivity | reflexivity
  | set_solver
  | repeat (apply List.Forall_cons; [exact I || reflexivity|]); apply List.Forall_nil
  | first [ exists 0%nat; replies_done Hh | exists 1%nat; replies_done Hh ] ].

Ltac crunch W Ea :=
  repeat first [ progress (rewrite ?Ea; js_simpl) | progress (js_outcomes W) ].

Lemma supervised_processMessage W (msg : Msg) (m : Machine Supervised.Vars) :
  exists m' tr,
    Supervised.processMessage W msg m = (Normal tt, m') /\ Processed msg m m' tr.
Proof.
  unfold Supervised.processMessage. cbv zeta.
  rewrite (chain_is_route W (remoteJid msg) (lowerTextOf W msg) msg).
  assert (Hh : forall h, route (remoteJid msg) (lowerTextOf W msg) = Some h ->
                         isAntiLink h = false) by apply route_not_antilink.
  destruct (route (remoteJid msg) (lowerTextOf W msg)) as [h|];
    [specialize (Hh h eq_refl)|clear Hh; assert (Hh : true = true) by reflexivity].
  all: destruct (Supervised.authReady (vars m)) eqn:Ea;
    destruct (imageMessage msg);
    destruct (endsWith (remoteJid msg) (lit "@g.us")) eqn:Eg;
    cbn [andb]; js_unfold; crunch W Ea;
    try (processed_done Hh).
  all: try match goal with
       | |- context [Supervised.ensureGroupReady ?w ?g ?m1] =>
           destruct (ensureGroupReady_spec w g m1) as (b & m2 & E & Hw);
           rewrite E; clear E; destruct Hw; try congruence
       end.
  all: cbn [negb]; crunch W Ea; try (processed_done Hh).
  all: try (match goal with
       | |- context [if eqb ?t ?l || includes ?a ?t then _ else _] =>
           destruct (eqb t l || includes a t)
       end; crunch W Ea; try (processed_done Hh)).
Qed.

Lemma faulted_app (a b : list Effect) : faulted (a ++ b) = faulted a || faulted b.
Proof. apply existsb_app. Qed.

Lemma faulted_antiLink W s msg t : faulted (antiLinkEffects W s msg t) = false.
Proof. unfold antiLinkEffects. destruct (outcome W t); reflexivity. Qed.

Lemma faulted_tryEffects W s msg t hs :
  Forall (fun h => isAntiLink h = false) hs ->
  faulted (fst (tryEffects W s msg t hs)) = negb (snd (tryEffects W s msg t hs)).
Proof.
  intros H. revert t. induction H as [|h hs Hh _ IH]; intros t; [reflexivity|].
  cbn [tryEffects]. destruct (outcome W t); cbn [fst snd].
  - change (faulted (?e :: ?l)) with (isFault e || faulted l).
    cbn [isFault negb andb orb]. apply IH.
  - unfold faulted. cbn [existsb isFault negb andb orb]. rewrite Hh. reflexivity.
Qed.

Lemma mainPlan_not_antilink W msg :
  Forall (fun h => isAntiLink h = false) (mainPlan W msg).
Proof.
  unfold mainPlan. apply Forall_app. split; [|apply Forall_app; split].
  - destruct (_ && _); repeat constructor.
  - repeat constructor.
  - destruct (route _ _) as [h|] eqn:E; [|constructor].
    constructor; [|constructor]. eapply route_not_antilink, E.
Qed.

Lemma aboutMsg_tryEffects W s msg t hs :
  Forall (aboutMsg msg) (fst (tryEffects W s msg t hs)).
Proof.
  revert t. induction hs as [|h hs IH]; intros t; cbn [tryEffects]; [constructor|].
  destruct (outcome W t); cbn [fst]; repeat constructor. apply IH.
Qed.

Lemma aboutMsg_antiLink W s msg t : Forall (aboutMsg msg) (antiLinkEffects W s msg t).
Proof. unfold antiLinkEffects. destruct (outcome W t); repeat constructor. Qed.

Lemma telao3_newEffects W msg m :
  newEffects m (snd (Telao3.processMessage W msg m)) = telao3Effects W msg m.
Proof. rewrite telao3_processMessage. apply newEffects_app. reflexivity. Qed.

Lemma telao3Effects_faulted W msg m :
  faulted (telao3Effects W msg m)
  = negb (snd (tryEffects W (sock m) msg (S (tick m)) (mainPlan W msg))).
Proof.
  unfold telao3Effects.
  rewrite !faulted_app, faulted_antiLink, faulted_tryEffects
    by apply mainPlan_not_antilink.
  destruct (snd _); reflexivity.
Qed.

Lemma telao3Effects_attempted W msg m : attempted (telao3Effects W msg m) = [].
Proof.
  unfold telao3Effects.
  rewrite !attempted_app, attempted_antiLink, attempted_tryEffects.
  destruct (snd _); reflexivity.
Qed.

Lemma telao3Effects_about W msg m : Forall (aboutMsg msg) (telao3Effects W msg m).
Proof.
  unfold telao3Effects. rewrite !Forall_app.
  split; [apply aboutMsg_antiLink|split; [apply aboutMsg_tryEffects|]].
  destruct (snd _); repeat constructor.
Qed.

(** The ["messages.upsert"] listeners on a batch that has a first message. *)
Lemma telao3_upsert_cons W (msg : Msg) (rest : list Msg) (m : Machine Telao3.Vars) :
  Telao3.messages_upsert W (Some (msg :: rest)) m
  = if fromMe msg then (Normal tt, m)
    else if Telao3.authReady (vars m)
    then Telao3.processMessage W msg m
    else (Normal tt,
          {| vars := Telao3.push {| jid := remoteJid msg; msg := Text textIniciandoLongo |}
                       (vars m);
             sock := sock m; authFolder := authFolder m;
             tick := tick m; trace := trace m |}).
Proof.
  unfold Telao3.messages_upsert. js_unfold.
  destruct (fromMe msg); [reflexivity|].
  destruct (Telao3.authReady (vars m)); cbn [negb]; [|reflexivity].
  rewrite telao3_processMessage. reflexivity.
Qed.

Lemma supervised_upsert_cons W (msg : Msg) (rest : list Msg) (m : Machine Supervised.Vars) :
  Supervised.messages_upsert W (Some (msg :: rest)) m
  = if fromMe msg then (Normal tt, m)
    else if Supervised.authReady (vars m)
    then Supervised.processMessage W msg m
    else (Normal tt,
          {| vars := Supervised.push {| jid := remoteJid msg; msg := Text textIniciando |}
                       (vars m);
             sock := sock m; authFolder := authFolder m;
             tick := tick m; trace := trace m |}).
Proof.
  unfold Supervised.messages_upsert. js_unfold.
  destruct (fromMe msg); [reflexivity|].
  destruct (Supervised.authReady (vars m)); cbn [negb]; [|reflexivity].
  destruct (supervised_processMessage W msg m) as (m' & tr & E & _).
  rewrite E. reflexivity.
Qed.

Lemma telao3_upsert_normal W ms (m : Machine Telao3.Vars) :
  fst (Telao3.messages_upsert W ms m) = Normal tt.
Proof.
  destruct ms as [[|msg rest]|]; try reflexivity.
  rewrite telao3_upsert_cons.
  destruct (fromMe msg); [reflexivity|].
  destruct (Telao3.authReady (vars m)); [|reflexivity].
  rewrite telao3_processMessage. reflexivity.
Qed.

Lemma supervised_upsert_normal W ms (m : Machine Supervised.Vars) :
  fst (Supervised.messages_upsert W ms m) = Normal tt.
Proof.
  destruct ms as [[|msg rest]|]; try reflexivity.
  rewrite supervised_upsert_cons.
  destruct (fromMe msg); [reflexivity|].
  destruct (Supervised.authReady (vars m)); [|reflexivity].
  destruct (supervised_processMessage W msg m) as (m' & tr & E & _).
  rewrite E. reflexivity.
Qed.

(** C7 as stated fails on the supervised script: a ["@tabela"] message of a
    group whose warm-up send is rejected takes the lightweight path; the
    tabela handler rejects with the flag and again without it, the second
    fault is only logged, and no error reply is sent or queued. *)
Lemma handler_fault_unanswered :
  let W := sampleWorld [true; true; true; false; false; false] in
  let x := textMessage "120363@g.us" "@tabela" in
  let r := Supervised.processMessage W x readyMachine in
  fst r = Normal tt
  /\ trace (snd r)
     = [EInvoke handleAntiLinkMessage false 1 x true;
        EInvoke handleMensagemPix false 1 x true;
        ESend 1 (lit "120363@g.us") (Text textInicializandoGrupo) false;
        ELog LogGroupInitFailed;
        EInvoke handleTabela true 1 x false;
        EInvoke handleTabela false 1 x false;
        ELog LogTabelaFallback]
  /\ faulted (trace (snd r)) = true
  /\ count (isErrorReply (remoteJid x)) (trace (snd r)) = 0%nat
  /\ Supervised.pendingMessages (vars (snd r)) = [].
Proof. vm_compute. repeat split. Qed.

(** C7, amended.  [processMessage] always completes normally and so does the
    ["messages.upsert"] listener; it leaves the socket, the credential
    folder and the readiness flag as they were.  In [src/telao3/index.js]
    it sends nothing itself and queues one generic error reply to the
    sender exactly when a handler other than the anti-link scan rejected.
    In the supervised script, outside the lightweight path of a group that
    is not warmed up, exactly one generic error reply is delivered or
    queued when such a handler rejected and none otherwise; on the
    lightweight path none is. *)
Theorem handler_fault_isolated (W : World) (msg : Msg) :
  (forall m : Machine Telao3.Vars,
      let r := Telao3.processMessage W msg m in
      let tr := newEffects m (snd r) in
      fst r = Normal tt
      /\ sock (snd r) = sock m
      /\ authFolder (snd r) = authFolder m
      /\ Telao3.authReady (vars (snd r)) = Telao3.authReady (vars m)
      /\ attempted tr = []
      /\ Telao3.pendingMessages (vars (snd r))
         = Telao3.pendingMessages (vars m)
           ++ (if faulted tr then [errorReply (remoteJid msg)] else []))
  /\ (forall m : Machine Supervised.Vars,
      let r := Supervised.processMessage W msg m in
      let tr := newEffects m (snd r) in
      fst r = Normal tt
      /\ sock (snd r) = sock m
      /\ authFolder (snd r) = authFolder m
      /\ Supervised.authReady (vars (snd r)) = Supervised.authReady (vars m)
      /\ Supervised.reconnectAttempts (vars (snd r))
         = Supervised.reconnectAttempts (vars m)
      /\ exists k : nat,
          Supervised.pendingMessages (vars (snd r))
          = Supervised.pendingMessages (vars m)
            ++ repeat (errorReply (remoteJid msg)) k
          /\ (k + count (isErrorReply (remoteJid msg)) tr)%nat
             = if fallbackTaken tr then 0%nat
               else if faulted tr then 1%nat else 0%nat)
  /\ (forall ms (m : Machine Telao3.Vars),
      fst (Telao3.messages_upsert W ms m) = Normal tt)
  /\ (forall ms (m : Machine Supervised.Vars),
      fst (Supervised.messages_upsert W ms m) = Normal tt).
Proof.
  split; [|split; [|split]].
  - intros m r tr. subst tr r.
    rewrite telao3_newEffects, telao3Effects_faulted, telao3Effects_attempted.
    rewrite telao3_processMessage. cbn [fst snd vars sock authFolder].
    destruct (snd (tryEffects W (sock m) msg (S (tick m)) (mainPlan W msg)));
      cbn [negb Telao3.push Telao3.setPendingMessages Telao3.pendingMessages
           Telao3.authReady];
      rewrite ?app_nil_r; repeat split.
  - intros m r tr. subst tr r.
    destruct (supervised_processMessage W msg m) as (m' & tr & E & P).
    rewrite E. cbn [fst snd].
    rewrite (newEffects_app m m' tr) by apply P.
    destruct P. repeat split; assumption.
  - apply telao3_upsert_normal.
  - apply supervised_upsert_normal.
Qed.

(** ** Batches and the readiness gate *)

(** C9.  Both ["messages.upsert"] listeners behave on a batch exactly as on
    its first message alone, and every handler they invoke is invoked on
    that first message. *)
Theorem only_first_of_batch (W : World) (msg : Msg) (rest : list Msg) :
  (forall m : Machine Telao3.Vars,
      Telao3.messages_upsert W (Some (msg :: rest)) m
      = Telao3.messages_upsert W (Some [msg]) m)
  /\ (forall m : Machine Supervised.Vars,
      Supervised.messages_upsert W (Some (msg :: rest)) m
      = Supervised.messages_upsert W (Some [msg]) m)
  /\ (forall m : Machine Telao3.Vars,
      Forall (aboutMsg msg)
        (newEffects m (snd (Telao3.messages_upsert W (Some (msg :: rest)) m))))
  /\ (forall m : Machine Supervised.Vars,
      Forall (aboutMsg msg)
        (newEffects m (snd (Supervised.messages_upsert W (Some (msg :: rest)) m)))).
Proof.
  split; [|split; [|split]]; intros m.
  - reflexivity.
  - reflexivity.
  - rewrite telao3_upsert_cons.
    destruct (fromMe msg);
      [cbn [snd]; rewrite (newEffects_app m m []) by (symmetry; apply app_nil_r);
       constructor|].
    destruct (Telao3.authReady (vars m)).
    + rewrite telao3_newEffects. apply telao3Effects_about.
    + cbn [snd]. erewrite (newEffects_app m _ [])
        by (cbn [trace]; symmetry; apply app_nil_r).
      constructor.
  - rewrite supervised_upsert_cons.
    destruct (fromMe msg);
      [cbn [snd]; rewrite (newEffects_app m m []) by (symmetry; apply app_nil_r);
       constructor|].
    destruct (Supervised.authReady (vars m)).
    + destruct (supervised_processMessage W msg m) as (m' & tr & E & P).
      rewrite E. cbn [snd]. rewrite (newEffects_app m m' tr) by apply P. apply P.
    + cbn [snd]. erewrite (newEffects_app m _ [])
        by (cbn [trace]; symmetry; apply app_nil_r).
      constructor.
Qed.

Lemma qrEffects_no_invoke W t q e : In e (qrEffects W t q) -> isInvoke e = false.
Proof.
  unfold qrEffects. destruct (outcome W t); cbn [In];
    intros [<-|[<-|[]]]; reflexivity.
Qed.

Lemma telao3_open_no_invoke W u (m : Machine Telao3.Vars) e :
  connection u = Some ConnOpen ->
  In e (newEffects m (snd (Telao3.connection_update W u m))) -> isInvoke e = false.
Proof.
  intros Hc. rewrite telao3_open by assumption. cbn [snd].
  erewrite newEffects_app by reflexivity.
  intros H. apply in_app_or in H. destruct H as [H|H].
  - destruct (truthy (qr u)); [eapply qrEffects_no_invoke, H|destruct H].
  - eapply flushEffects_only_sends, H.
Qed.

Lemma supervised_open_no_invoke W u (m : Machine Supervised.Vars) e :
  connection u = Some ConnOpen ->
  In e (newEffects m (snd (Supervised.connection_update W u m))) -> isInvoke e = false.
Proof.
  intros Hc. rewrite supervised_open by assumption. cbn [snd].
  erewrite newEffects_app by reflexivity.
  intros H. apply in_app_or in H. destruct H as [H|H].
  - destruct (scanRuns _ u); [eapply qrEffects_no_invoke, H|destruct H].
  - apply in_app_or in H. destruct H as [H|[<-|[]]]; [|reflexivity].
    eapply flushEffects_only_sends, H.
Qed.

(** C10 as stated fails on both scripts: the listener looks at the first
    message of a batch only.  Of two inbound messages that arrive in one
    batch while the session is not ready, the second gets no reply; and
    when the first message of the batch is the bot's own, an inbound
    message that follows it gets none either. *)
Lemma later_messages_get_no_notice :
  let W := sampleWorld [] in
  let x := textMessage "5511@s.whatsapp.net" "@tabela" in
  let y := textMessage "5522@s.whatsapp.net" "@todos" in
  Telao3.pendingMessages
    (vars (snd (Telao3.messages_upsert W (Some [x; y]) Telao3.initial)))
  = [replyTo "5511@s.whatsapp.net" textIniciandoLongo]
  /\ Supervised.pendingMessages
       (vars (snd (Supervised.messages_upsert W (Some [x; y]) Supervised.initial)))
     = [replyTo "5511@s.whatsapp.net" textIniciando]
  /\ Telao3.pendingMessages
       (vars (snd (Telao3.messages_upsert W (Some [ownMessage; y]) Telao3.initial)))
     = []
  /\ Supervised.pendingMessages
       (vars (snd (Supervised.messages_upsert W (Some [ownMessage; y])
                     Supervised.initial)))
     = [].
Proof. vm_compute. repeat split. Qed.

(** C10, amended.  While [authReady] is unset, a batch whose first message
    is not the bot's own changes nothing but the queue, at the end of which
    one fixed text addressed to the conversation of that first message is
    appended: no handler is invoked, nothing is sent, and the machine left
    behind is the same for any other such message of the same conversation,
    so nothing of the message is kept for later.  The other messages of the
    batch are not looked at; a batch whose first message is the bot's own,
    an empty batch and an absent one change nothing at all.  The open
    transition that later flushes the queue invokes no handler either. *)
Theorem not_ready_never_routed (W : World) (msg : Msg) (rest : list Msg) :
  fromMe msg = false ->
  (forall m : Machine Telao3.Vars,
      Telao3.authReady (vars m) = false ->
      Telao3.messages_upsert W (Some (msg :: rest)) m
      = (Normal tt,
         {| vars :=
              {| Telao3.pendingMessages :=
                   Telao3.pendingMessages (vars m)
                   ++ [{| jid := remoteJid msg; msg := Text textIniciandoLongo |}];
                 Telao3.authReady := false |};
            sock := sock m; authFolder := authFolder m;
            tick := tick m; trace := trace m |})
      /\ (forall msg' rest',
             fromMe msg' = false -> remoteJid msg' = remoteJid msg ->
             Telao3.messages_upsert W (Some (msg' :: rest')) m
             = Telao3.messages_upsert W (Some (msg :: rest)) m))
  /\ (forall m : Machine Supervised.Vars,
      Supervised.authReady (vars m) = false ->
      Supervised.messages_upsert W (Some (msg :: rest)) m
      = (Normal tt,
         {| vars :=
              {| Supervised.pendingMessages :=
                   Supervised.pendingMessages (vars m)
                   ++ [{| jid := remoteJid msg; msg := Text textIniciando |}];
                 Supervised.authReady := false;
                 Supervised.qrSent := Supervised.qrSent (vars m);
                 Supervised.reconnectAttempts := Supervised.reconnectAttempts (vars m);
                 Supervised.senderReadyGroups := Supervised.senderReadyGroups (vars m);
                 Supervised.senderAttemptAt := Supervised.senderAttemptAt (vars m) |};
            sock := sock m; authFolder := authFolder m;
            tick := tick m; trace := trace m |})
      /\ (forall msg' rest',
             fromMe msg' = false -> remoteJid msg' = remoteJid msg ->
             Supervised.messages_upsert W (Some (msg' :: rest')) m
             = Supervised.messages_upsert W (Some (msg :: rest)) m))
  /\ (forall (own : Msg) (others : list Msg),
      fromMe own = true ->
      (forall m : Machine Telao3.Vars,
          Telao3.messages_upsert W (Some (own :: others)) m = (Normal tt, m))
      /\ (forall m : Machine Supervised.Vars,
          Supervised.messages_upsert W (Some (own :: others)) m = (Normal tt, m)))
  /\ (forall m : Machine Telao3.Vars,
      Telao3.messages_upsert W None m = (Normal tt, m)
      /\ Telao3.messages_upsert W (Some []) m = (Normal tt, m))
  /\ (forall m : Machine Supervised.Vars,
      Supervised.messages_upsert W None m = (Normal tt, m)
      /\ Supervised.messages_upsert W (Some []) m = (Normal tt, m))
  /\ (forall u (m : Machine Telao3.Vars) e,
      connection u = Some ConnOpen ->
      In e (newEffects m (snd (Telao3.connection_update W u m))) ->
      isInvoke e = false)
  /\ (forall u (m : Machine Supervised.Vars) e,
      connection u = Some ConnOpen ->
      In e (newEffects m (snd (Supervised.connection_update W u m))) ->
      isInvoke e = false).
Proof.
  intros Hf. split; [|split; [|split; [|split; [|split; [|split]]]]].
  - intros m Hr. split.
    + rewrite telao3_upsert_cons, Hf, Hr. unfold Telao3.push, Telao3.setPendingMessages.
      rewrite Hr. reflexivity.
    + intros msg' rest' Hf' Hj.
      rewrite !telao3_upsert_cons, Hf, Hf', Hr, Hj. reflexivity.
  - intros m Hr. split.
    + rewrite supervised_upsert_cons, Hf, Hr.
      unfold Supervised.push, Supervised.setPendingMessages.
      rewrite Hr. reflexivity.
    + intros msg' rest' Hf' Hj.
      rewrite !supervised_upsert_cons, Hf, Hf', Hr, Hj. reflexivity.
  - intros own others Ho. split; intros m.
    + rewrite telao3_upsert_cons, Ho. reflexivity.
    + rewrite supervised_upsert_cons, Ho. reflexivity.
  - intros m. split; reflexivity.
  - intros m. split; reflexivity.
  - intros u m e. apply telao3_open_no_invoke.
  - intros u m e. apply supervised_open_no_invoke.
Qed.

(** C10 amended, at a message that reaches the supervised script before the
    first open transition, followed in its batch by another one. *)
Lemma not_ready_never_routed_witness :
  Supervised.messages_upsert (sampleWorld [])
    (Some [textMessage "5511@s.whatsapp.net" "@tabela";
           textMessage "5522@s.whatsapp.net" "@todos"]) Supervised.initial
  = (Normal tt,
     {| vars :=
          {| Supervised.pendingMessages := [replyTo "5511@s.whatsapp.net" textIniciando];
             Supervised.authReady := false;
             Supervised.qrSent := false;
             Supervised.reconnectAttempts := 0;
             Supervised.senderReadyGroups := ∅;
             Supervised.senderAttemptAt := ∅ |};
        sock := 0%nat; authFolder := None; tick := 0%nat; trace := [] |}).
Proof.
  exact (proj1 (proj1 (proj2
    (not_ready_never_routed (sampleWorld [])
       (textMessage "5511@s.whatsapp.net" "@tabela")
       [textMessage "5522@s.whatsapp.net" "@todos"] eq_refl))
    Supervised.initial eq_refl)).
Defined.

(** ** Closures *)

(** A closure in the supervised script, in closed form. *)
Lemma supervised_close W (u : Update) (m : Machine Supervised.Vars) :
  connection u = Some ConnClose ->
  let sent := Supervised.qrSent (vars m) in
  let n := attemptsAtClose m u in
  let after (ready : bool) (attempts : Z) : Supervised.Vars :=
    {| Supervised.pendingMessages := Supervised.pendingMessages (vars m);
       Supervised.authReady := ready;
       Supervised.qrSent := qrSentAfter sent u;
       Supervised.reconnectAttempts := attempts;
       Supervised.senderReadyGroups := Supervised.senderReadyGroups (vars m);
       Supervised.senderAttemptAt := Supervised.senderAttemptAt (vars m) |} in
  Supervised.connection_update W u m
  = if motivo u =? DisconnectReason_loggedOut then
      (Normal tt,
       {| vars := after (Supervised.authReady (vars m)) 0;
          sock := sock m; authFolder := None;
          tick := (tick m + ticksOfGuardedScan sent u)%nat;
          trace := trace m ++ scanEffects W sent (tick m) u ++ [ESetTimeout 3000] |})
    else if n >? Supervised.MAX_RECONNECT_ATTEMPTS then
      (Halt,
       {| vars := after (Supervised.authReady (vars m)) n;
          sock := sock m; authFolder := authFolder m;
          tick := (tick m + ticksOfGuardedScan sent u)%nat;
          trace := trace m ++ scanEffects W sent (tick m) u ++ [EExit 1] |})
    else
      (Normal tt,
       {| vars := after false n;
          sock := sock m; authFolder := authFolder m;
          tick := (tick m + ticksOfGuardedScan sent u)%nat;
          trace := trace m ++ scanEffects W sent (tick m) u
                   ++ [ESetTimeout (Supervised.reconnectDelay n)] |}).
Proof.
  intros Hc sent n after. subst sent n after.
  unfold Supervised.connection_update, attemptsAtClose, qrSentAfter, scanEffects,
    ticksOfGuardedScan, scanRuns, qrEffects.
  rewrite Hc. destruct m as [[q a s c r l] k f t tr].
  destruct (truthy (qr u)) as [x|]; destruct s; js_unfold; js_simpl;
    cbn [negb]; js_outcomes W; js_simpl;
    destruct (motivo u =? DisconnectReason_loggedOut); js_simpl;
    try (destruct (0 + 1 >? Supervised.MAX_RECONNECT_ATTEMPTS));
    try (destruct (c + 1 >? Supervised.MAX_RECONNECT_ATTEMPTS));
    js_simpl; rewrite <- ?app_assoc, ?Nat.add_1_r, ?Nat.add_0_r; reflexivity.
Qed.

(** A closure in [src/telao3/index.js], in closed form. *)
Lemma telao3_close W (u : Update) (m : Machine Telao3.Vars) :
  connection u = Some ConnClose ->
  let pre := match truthy (qr u) with
             | Some q => qrEffects W (tick m) q
             | None => []
             end in
  Telao3.connection_update W u m
  = if motivo u =? DisconnectReason_loggedOut then
      (Halt,
       {| vars := vars m; sock := sock m; authFolder := authFolder m;
          tick := (tick m + ticksOfScan u)%nat;
          trace := trace m ++ pre ++ [EExit 0] |})
    else
      (Normal tt,
       {| vars := vars m; sock := sock m; authFolder := authFolder m;
          tick := (tick m + ticksOfScan u)%nat;
          trace := trace m ++ pre ++ [ESetTimeout 3000] |}).
Proof.
  intros Hc pre. subst pre.
  unfold Telao3.connection_update, ticksOfScan, qrEffects. rewrite Hc.
  destruct (truthy (qr u)) as [x|]; js_unfold; js_outcomes W;
    destruct (motivo u =? DisconnectReason_loggedOut);
    cbn [vars sock authFolder tick trace];
    rewrite <- ?app_assoc, ?Nat.add_1_r, ?Nat.add_0_r; reflexivity.
Qed.

(** A closure in the legacy script, in closed form. *)
Lemma legacy_close W (u : Update) (m : Machine Legacy.Vars) :
  connection u = Some ConnClose ->
  let sent := Legacy.qrSent (vars m) in
  let after : Legacy.Vars :=
    {| Legacy.pendingMessages := Legacy.pendingMessages (vars m);
       Legacy.authReady := Legacy.authReady (vars m);
       Legacy.qrSent := qrSentAfter sent u |} in
  Legacy.connection_update W u m
  = if motivo u =? DisconnectReason_loggedOut then
      (Normal tt,
       {| vars := after; sock := sock m; authFolder := None;
          tick := (tick m + ticksOfGuardedScan sent u)%nat;
          trace := trace m ++ scanEffects W sent (tick m) u ++ [ESetTimeout 3000] |})
    else
      (Normal tt,
       {| vars := after; sock := sock m; authFolder := authFolder m;
          tick := (tick m + ticksOfGuardedScan sent u)%nat;
          trace := trace m ++ scanEffects W sent (tick m) u ++ [ESetTimeout 5000] |}).
Proof.
  intros Hc sent after. subst sent after.
  unfold Legacy.connection_update, qrSentAfter, scanEffects,
    ticksOfGuardedScan, scanRuns, qrEffects.
  rewrite Hc. destruct m as [[q a s] k f t tr].
  destruct (truthy (qr u)) as [x|]; destruct s; js_unfold;
    cbn [Legacy.qrSent Legacy.setQrSent Legacy.pendingMessages Legacy.authReady
         negb vars sock authFolder tick trace];
    js_outcomes W;
    destruct (motivo u =? DisconnectReason_loggedOut);
    cbn [Legacy.qrSent Legacy.setQrSent Legacy.pendingMessages Legacy.authReady
         vars sock authFolder tick trace];
    rewrite <- ?app_assoc, ?Nat.add_1_r, ?Nat.add_0_r; reflexivity.
Qed.

(** ** The reconnect delay *)

Lemma reconnectDelay_cap (n : Z) : (Supervised.reconnectDelay n <= 30000)%Q.
Proof. apply Q.le_min_r. Qed.

Lemma growth_ge_1 : (1 <= 1.5)%Q.
Proof. discriminate. Qed.

Lemma reconnectDelay_mono (n n' : Z) :
  n <= n' -> (Supervised.reconnectDelay n <= Supervised.reconnectDelay n')%Q.
Proof.
  intros H. unfold Supervised.reconnectDelay.
  apply Q.min_le_compat_r.
  apply Qmult_le_l; [reflexivity|].
  apply Qpower_le_compat_l; [lia|apply growth_ge_1].
Qed.

Lemma reconnectDelay_floor (n : Z) :
  1 <= n -> (5000 <= Supervised.reconnectDelay n)%Q.
Proof.
  intros H. unfold Supervised.reconnectDelay.
  apply Q.min_glb; [|discriminate].
  rewrite <- (Qmult_1_r 5000) at 1.
  apply Qmult_le_l; [reflexivity|].
  apply Qpower_1_le; [apply growth_ge_1|lia].
Qed.

Lemma reconnectDelay_table :
  (Supervised.reconnectDelay 1 == 5000
   /\ Supervised.reconnectDelay 2 == 7500
   /\ Supervised.reconnectDelay 3 == 11250
   /\ Supervised.reconnectDelay 4 == 16875
   /\ Supervised.reconnectDelay 5 == 25312.5
   /\ Supervised.reconnectDelay 6 == 30000)%Q.
Proof. repeat split; vm_compute; reflexivity. Qed.

Lemma reconnectDelay_saturated (n : Z) :
  6 <= n -> (Supervised.reconnectDelay n == 30000)%Q.
Proof.
  intros H. apply Qle_antisym; [apply reconnectDelay_cap|].
  destruct reconnectDelay_table as (_ & _ & _ & _ & _ & <-).
  apply reconnectDelay_mono, H.
Qed.

(** ** Starting a session *)

Lemma writeFileSync_some {V} (name buffer : string) (d : gmap string string)
    (m : Machine V) :
  authFolder m = Some d ->
  writeFileSync name buffer m = (Normal tt, withFolder (Some (<[name := buffer]> d)) m).
Proof. intros E. unfold writeFileSync. js_unfold. rewrite E. reflexivity. Qed.

Lemma withFolder_same {V} (d : gmap string string) (m : Machine V) :
  authFolder m = Some d -> withFolder (Some d) m = m.
Proof. intros E. unfold withFolder. rewrite <- E. destruct m; reflexivity. Qed.

Lemma forOf_writes {V} (data : list (string * option string)) (m : Machine V) :
  authFolder m <> None ->
  exists c f,
    forOf data (fun file =>
      match snd file with
      | None => fun m => (Throw, m)
      | Some buffer => writeFileSync (fst file) buffer
      end) m = (c, withFolder (Some f) m)
    /\ (c = Normal tt \/ c = Throw).
Proof.
  revert m. induction data as [|[name [buffer|]] data IH]; intros m Hf;
    (destruct (authFolder m) as [d|] eqn:E; [|contradiction]).
  - exists (Normal tt), d. rewrite (withFolder_same d m E). auto.
  - cbn [forOf snd fst]. unfold bind at 1.
    rewrite (writeFileSync_some name buffer d m E).
    destruct (IH (withFolder (Some (<[name := buffer]> d)) m))
      as (c & f & -> & Hc); [discriminate|].
    exists c, f. split; [reflexivity|exact Hc].
  - exists Throw, d. cbn [forOf snd fst]. unfold bind at 1.
    rewrite (withFolder_same d m E). auto.
Qed.

(** [syncAuthFromSupabase] of the supervised script only touches the
    credential folder and takes one tick. *)
Lemma supervised_sync W (m : Machine Supervised.Vars) :
  exists b f,
    Supervised.syncAuthFromSupabase W m
    = (Normal b,
       {| vars := vars m; sock := sock m; authFolder := Some f;
          tick := S (tick m); trace := trace m |}).
Proof.
  assert (K : forall m1 : Machine Supervised.Vars,
             authFolder m1 <> None ->
             exists b f,
               tryCatch
                 (t <- takeTick ;;
                  match bucket W t with
                  | None => fun m => (Throw, m)
                  | Some [] => ret false
                  | Some data =>
                      forOf data (fun file =>
                        match snd file with
                        | None => fun m => (Throw, m)
                        | Some buffer => writeFileSync (fst file) buffer
                        end) ;;
                      ret true
                  end)
                 (setAuthFolder (Some ∅) ;; ret false) m1
               = (Normal b,
                  {| vars := vars m1; sock := sock m1; authFolder := Some f;
                     tick := S (tick m1); trace := trace m1 |})).
  { intros m1 Hf. unfold tryCatch, bind at 1 3, takeTick, setAuthFolder, ret.
    cbn [vars sock authFolder tick trace].
    destruct (bucket W (tick m1)) as [[|p l]|].
    - destruct (authFolder m1) as [d|] eqn:E; [|contradiction].
      exists false, d. reflexivity.
    - unfold bind.
      match goal with
      | |- context [forOf (p :: l) ?body ?m2] =>
          destruct (forOf_writes (p :: l) m2) as (c & f & -> & [-> | ->]);
            [cbn [authFolder]; exact Hf| |]
      end.
      + exists true, f. reflexivity.
      + exists false, ∅. reflexivity.
    - exists false, ∅. reflexivity. }
  unfold Supervised.syncAuthFromSupabase. unfold bind at 1.
  unfold mkdirIfMissing, bind, getAuthFolder, setAuthFolder, ret.
  destruct (authFolder m) as [d|] eqn:E.
  - destruct (K m) as (b & f & Hk); [congruence|].
    exists b, f. exact Hk.
  - destruct (K (withFolder (Some ∅) m)) as (b & f & Hk); [discriminate|].
    exists b, f. exact Hk.
Qed.

(** [iniciarBot] of the supervised script, in closed form: a new socket,
    [qrSent] unset, new empty caches, the counter cleared only if the
    session was ready. *)
Lemma supervised_iniciarBot W (m : Machine Supervised.Vars) :
  exists f,
    Supervised.iniciarBot W m
    = (Normal tt,
       {| vars :=
            {| Supervised.pendingMessages := Supervised.pendingMessages (vars m);
               Supervised.authReady := Supervised.authReady (vars m);
               Supervised.qrSent := false;
               Supervised.reconnectAttempts :=
                 if Supervised.authReady (vars m) then 0
                 else Supervised.reconnectAttempts (vars m);
               Supervised.senderReadyGroups := ∅;
               Supervised.senderAttemptAt := ∅ |};
          sock := S (sock m); authFolder := Some f;
          tick := S (tick m);
          trace := trace m ++ [ESocket (S (sock m))] |}).
Proof.
  unfold Supervised.iniciarBot, function. unfold bind at 1 2 3, getVars.
  destruct m as [[q a s c r l] k fo t tr]. js_simpl.
  destruct a.
  - unfold modify at 1. js_simpl.
    match goal with
    | |- context [Supervised.syncAuthFromSupabase W ?m1] =>
        destruct (supervised_sync W m1) as (b & f & ->)
    end.
    exists f. reflexivity.
  - unfold ret at 1.
    match goal with
    | |- context [Supervised.syncAuthFromSupabase W ?m1] =>
        destruct (supervised_sync W m1) as (b & f & ->)
    end.
    exists f. reflexivity.
Qed.

(** [iniciarBot] of the legacy script, in closed form. *)
Lemma legacy_iniciarBot W (m : Machine Legacy.Vars) :
  exists f,
    Legacy.iniciarBot W m
    = (Normal tt,
       {| vars := Legacy.setQrSent false (vars m);
          sock := S (sock m); authFolder := f;
          tick := S (tick m);
          trace := trace m ++ [ESocket (S (sock m))] |}).
Proof.
  unfold Legacy.iniciarBot, Legacy.syncAuthFromSupabase. js_unfold.
  destruct (bucket W (tick m)) as [data|]; [|eexists; reflexivity].
  destruct (List.find _ data) as [[name [buffer|]]|]; eexists; reflexivity.
Qed.

Lemma scheduled_scanEffects W sent t u : scheduled (scanEffects W sent t u) = [].
Proof.
  unfold scanEffects, qrEffects. destruct (scanRuns sent u); [|reflexivity].
  destruct (outcome W t); reflexivity.
Qed.

Lemma scheduled_qrEffects W t q : scheduled (qrEffects W t q) = [].
Proof. unfold qrEffects. destruct (outcome W t); reflexivity. Qed.

Lemma count_scanEffects W sent t u f :
  f = isSocket \/ f = isExit ->
  count f (scanEffects W sent t u) = 0%nat.
Proof.
  unfold scanEffects, qrEffects. intros [-> | ->];
    destruct (scanRuns sent u); try reflexivity;
    destruct (outcome W t); reflexivity.
Qed.

(** C3 as stated fails on [src/telao3/index.js]: after a lost connection the
    restart is scheduled 3000 ms later, which the formula yields for no
    attempt count. *)
Lemma flat_delay_in_telao3 :
  scheduled (trace (snd (Telao3.connection_update (sampleWorld []) lostUpdate
                           Telao3.initial)))
  = [3000%Q]
  /\ forall n : Z, 1 <= n -> ~ (3000 == Qmin (5000 * Qpower 1.5 (n - 1)) 30000)%Q.
Proof.
  split; [reflexivity|].
  intros n Hn E. pose proof (reconnectDelay_floor n Hn) as F.
  unfold Supervised.reconnectDelay, Supervised.RECONNECT_DELAY in F.
  rewrite <- E in F. revert F. apply Qlt_not_le. reflexivity.
Qed.

(** C3, amended.  In the supervised script a closure that is not a logout
    and leaves the counter at most at the ceiling schedules the restart
    after [min(5000 * 1.5^(attempts-1), 30000)] ms, [attempts] being the
    counter once it has counted this closure; that delay does not decrease
    as the count grows and never exceeds 30000.  The scripts without a
    counter schedule a flat delay: 3000 ms in [src/telao3/index.js],
    5000 ms in the legacy script. *)
Theorem reconnect_delay_policy (W : World) (u : Update) :
  connection u = Some ConnClose ->
  motivo u <> DisconnectReason_loggedOut ->
  (forall m : Machine Supervised.Vars,
      attemptsAtClose m u <= Supervised.MAX_RECONNECT_ATTEMPTS ->
      let r := Supervised.connection_update W u m in
      let attempts := Supervised.reconnectAttempts (vars (snd r)) in
      fst r = Normal tt
      /\ attempts = attemptsAtClose m u
      /\ exists d : Q,
          scheduled (newEffects m (snd r)) = [d]
          /\ (d == Qmin (5000 * Qpower 1.5 (attempts - 1)) 30000)%Q)
  /\ (forall n n' : Z,
      n <= n' -> (Supervised.reconnectDelay n <= Supervised.reconnectDelay n')%Q)
  /\ (forall n : Z, (Supervised.reconnectDelay n <= 30000)%Q)
  /\ (forall m : Machine Telao3.Vars,
      scheduled (newEffects m (snd (Telao3.connection_update W u m))) = [3000%Q])
  /\ (forall m : Machine Legacy.Vars,
      scheduled (newEffects m (snd (Legacy.connection_update W u m))) = [5000%Q]).
Proof.
  intros Hc Hm. apply Z.eqb_neq in Hm.
  split; [|split; [|split; [|split]]].
  - intros m Hn r attempts. subst attempts r.
    rewrite supervised_close by assumption. rewrite Hm.
    replace (attemptsAtClose m u >? Supervised.MAX_RECONNECT_ATTEMPTS) with false
      by (symmetry; rewrite Z.gtb_ltb; apply Z.ltb_ge; exact Hn).
    cbn [fst snd vars Supervised.reconnectAttempts].
    erewrite newEffects_app by reflexivity.
    rewrite scheduled_app, scheduled_scanEffects.
    repeat split. eexists. split; [reflexivity|]. reflexivity.
  - apply reconnectDelay_mono.
  - apply reconnectDelay_cap.
  - intros m. rewrite telao3_close by assumption. rewrite Hm. cbn [snd].
    erewrite newEffects_app by reflexivity.
    rewrite scheduled_app.
    destruct (truthy (qr u)); [rewrite scheduled_qrEffects|]; reflexivity.
  - intros m. rewrite legacy_close by assumption. rewrite Hm. cbn [snd].
    erewrite newEffects_app by reflexivity.
    rewrite scheduled_app, scheduled_scanEffects. reflexivity.
Qed.

(** C3 amended, at the second closure in a row of the supervised script. *)
Lemma reconnect_delay_policy_witness :
  let m := {| vars := Supervised.setReconnectAttempts 1 (vars Supervised.initial);
              sock := 1%nat; authFolder := Some ∅; tick := 0%nat; trace := [] |} in
  exists d : Q,
    scheduled (newEffects m (snd (Supervised.connection_update (sampleWorld [])
                                   lostUpdate m))) = [d]
    /\ (d == Qmin (5000 * Qpower 1.5 (2 - 1)) 30000)%Q.
Proof.
  intros m.
  assert (Hm : motivo lostUpdate <> DisconnectReason_loggedOut) by discriminate.
  assert (Hn : attemptsAtClose m lostUpdate <= Supervised.MAX_RECONNECT_ATTEMPTS)
    by (vm_compute; discriminate).
  exact (proj2 (proj2 (proj1 (reconnect_delay_policy (sampleWorld []) lostUpdate
                                eq_refl Hm) m Hn))).
Defined.

(** C4 as stated fails on [src/telao3/index.js]: on a logout closure the
    script ends the process with code 0; the credential folder is kept and
    no restart is scheduled. *)
Lemma logout_exits_in_telao3 :
  let r := Telao3.connection_update (sampleWorld []) loggedOutUpdate telao3WithCreds in
  fst r = Halt
  /\ trace (snd r) = [EExit 0]
  /\ scheduled (trace (snd r)) = []
  /\ authFolder (snd r) = Some {[ "creds.json"%string := "{}"%string ]}.
Proof. repeat split. Qed.

(** C4, amended.  On a logout closure the supervised script removes the
    local credential folder, sets the counter to zero and schedules
    [iniciarBot] after a flat 3000 ms, whatever the count was; it neither
    exits nor opens a socket itself: the socket in use changes only when
    [iniciarBot] runs.  The legacy script does the same without a counter.
    [src/telao3/index.js] ends the process with code 0 instead. *)
Theorem logout_closure (W : World) (u : Update) :
  connection u = Some ConnClose ->
  motivo u = DisconnectReason_loggedOut ->
  (forall m : Machine Supervised.Vars,
      let r := Supervised.connection_update W u m in
      let tr := newEffects m (snd r) in
      fst r = Normal tt
      /\ authFolder (snd r) = None
      /\ Supervised.reconnectAttempts (vars (snd r)) = 0
      /\ scheduled tr = [3000%Q]
      /\ sock (snd r) = sock m
      /\ count isSocket tr = 0%nat
      /\ count isExit tr = 0%nat)
  /\ (forall m : Machine Supervised.Vars,
      let r := Supervised.iniciarBot W m in
      fst r = Normal tt
      /\ sock (snd r) = S (sock m)
      /\ newEffects m (snd r) = [ESocket (S (sock m))])
  /\ (forall m : Machine Legacy.Vars,
      let r := Legacy.connection_update W u m in
      let tr := newEffects m (snd r) in
      fst r = Normal tt
      /\ authFolder (snd r) = None
      /\ scheduled tr = [3000%Q]
      /\ sock (snd r) = sock m
      /\ count isSocket tr = 0%nat
      /\ count isExit tr = 0%nat)
  /\ (forall m : Machine Telao3.Vars,
      let r := Telao3.connection_update W u m in
      let tr := newEffects m (snd r) in
      fst r = Halt
      /\ authFolder (snd r) = authFolder m
      /\ scheduled tr = []
      /\ List.filter isExit tr = [EExit 0]).
Proof.
  intros Hc Hm. apply Z.eqb_eq in Hm.
  split; [|split; [|split]].
  - intros m r tr. subst tr r.
    rewrite supervised_close by assumption. rewrite Hm. cbn [fst snd].
    erewrite newEffects_app by reflexivity.
    rewrite scheduled_app, !count_app, scheduled_scanEffects,
      !count_scanEffects by auto.
    repeat split.
  - intros m r. subst r.
    destruct (supervised_iniciarBot W m) as (f & ->). cbn [fst snd].
    erewrite newEffects_app by reflexivity. repeat split.
  - intros m r tr. subst tr r.
    rewrite legacy_close by assumption. rewrite Hm. cbn [fst snd].
    erewrite newEffects_app by reflexivity.
    rewrite scheduled_app, !count_app, scheduled_scanEffects,
      !count_scanEffects by auto.
    repeat split.
  - intros m r tr. subst tr r.
    rewrite telao3_close by assumption. rewrite Hm. cbn [fst snd].
    erewrite newEffects_app by reflexivity.
    rewrite scheduled_app, List.filter_app.
    destruct (truthy (qr u)) as [q|]; [|repeat split].
    rewrite scheduled_qrEffects. unfold qrEffects.
    destruct (outcome W (tick m)); repeat split.
Qed.

(** C4 amended, at a logout closure that arrives after seven failed
    attempts. *)
Lemma logout_closure_witness :
  let m := {| vars := Supervised.setReconnectAttempts 7 (vars Supervised.initial);
              sock := 1%nat;
              authFolder := Some {[ "creds.json"%string := "{}"%string ]};
              tick := 0%nat; trace := [] |} in
  let r := Supervised.connection_update (sampleWorld []) loggedOutUpdate m in
  let tr := newEffects m (snd r) in
  fst r = Normal tt
  /\ authFolder (snd r) = None
  /\ Supervised.reconnectAttempts (vars (snd r)) = 0
  /\ scheduled tr = [3000%Q]
  /\ sock (snd r) = sock m
  /\ count isSocket tr = 0%nat
  /\ count isExit tr = 0%nat.
Proof.
  intros m.
  exact (proj1 (logout_closure (sampleWorld []) loggedOutUpdate eq_refl eq_refl) m).
Defined.

(** ** The attempt counter *)

Lemma scanRuns_no_qr sent u : truthy (qr u) = None -> scanRuns sent u = None.
Proof. unfold scanRuns. intros ->. destruct sent; reflexivity. Qed.

Lemma run_cons {V} (handle : Event -> JS V unit) e es m :
  run handle (e :: es) m
  = match handle e m with
    | (Normal _, m') => run handle es m'
    | (Throw, m') => (Throw, m')
    | (Return, m') => (Return, m')
    | (Halt, m') => (Halt, m')
    end.
Proof. reflexivity. Qed.

Lemma run_app_normal {V} (handle : Event -> JS V unit) es es' m m' :
  run handle es m = (Normal tt, m') ->
  run handle (es ++ es') m = run handle es' m'.
Proof.
  revert m. induction es as [|e es IH]; intros m.
  - cbn. intros [= ->]. reflexivity.
  - cbn [app]. rewrite !run_cons.
    destruct (handle e m) as [[[]| | |] m1]; try discriminate. apply IH.
Qed.

(** One failed attempt below the ceiling: the closure schedules the restart
    after the delay of the new count, and the restart opens a new socket
    and keeps the count. *)
Lemma supervised_retry_cycle W (u : Update) (m : Machine Supervised.Vars) :
  transient u ->
  Supervised.reconnectAttempts (vars m) + 1 <= Supervised.MAX_RECONNECT_ATTEMPTS ->
  exists m',
    run (SupervisedRun.handle W) [EvConnection u; EvStart] m = (Normal tt, m')
    /\ Supervised.reconnectAttempts (vars m') = Supervised.reconnectAttempts (vars m) + 1
    /\ trace m'
       = trace m
         ++ [ESetTimeout (Supervised.reconnectDelay
                            (Supervised.reconnectAttempts (vars m) + 1));
             ESocket (S (sock m))].
Proof.
  intros (Hc & Hm & Hq) Hn. apply Z.eqb_neq in Hm.
  rewrite run_cons. cbn [SupervisedRun.handle].
  rewrite supervised_close by assumption.
  unfold attemptsAtClose, scanEffects, ticksOfGuardedScan, qrSentAfter.
  rewrite (scanRuns_no_qr _ u Hq), Hm.
  replace (_ >? Supervised.MAX_RECONNECT_ATTEMPTS) with false
    by (symmetry; rewrite Z.gtb_ltb; apply Z.ltb_ge; exact Hn).
  rewrite run_cons. cbn [SupervisedRun.handle].
  match goal with
  | |- context [Supervised.iniciarBot W ?m1] =>
      destruct (supervised_iniciarBot W m1) as (f & ->)
  end.
  js_simpl. eexists. split; [reflexivity|]. js_simpl.
  rewrite <- app_assoc. split; reflexivity.
Qed.

Lemma supervised_retries W (us : list Update) (m : Machine Supervised.Vars) :
  Forall transient us ->
  Supervised.reconnectAttempts (vars m) + Z.of_nat (length us)
    <= Supervised.MAX_RECONNECT_ATTEMPTS ->
  exists m' tr,
    run (SupervisedRun.handle W) (retryCycles us) m = (Normal tt, m')
    /\ Supervised.reconnectAttempts (vars m')
       = Supervised.reconnectAttempts (vars m) + Z.of_nat (length us)
    /\ trace m' = trace m ++ tr
    /\ count isExit tr = 0%nat
    /\ scheduled tr = delaysFrom (Supervised.reconnectAttempts (vars m)) (length us).
Proof.
  intros H. revert m. induction H as [|u us Hu _ IH]; intros m Hn.
  - exists m, []. cbn. rewrite Z.add_0_r, app_nil_r. auto.
  - cbn [length] in Hn.
    destruct (supervised_retry_cycle W u m Hu) as (m1 & E1 & A1 & T1); [lia|].
    destruct (IH m1) as (m2 & tr & E2 & A2 & T2 & X2 & S2); [lia|].
    exists m2. eexists. split; [|split; [|split; [|split]]].
    + change (retryCycles (u :: us))
        with ([EvConnection u; EvStart] ++ retryCycles us).
      rewrite (run_app_normal _ _ _ _ _ E1). exact E2.
    + rewrite A2, A1. cbn [length]. lia.
    + rewrite T2, T1, <- app_assoc. reflexivity.
    + rewrite count_app, X2. reflexivity.
    + rewrite scheduled_app, S2, A1. reflexivity.
Qed.

(** An update that neither closes nor opens the session, in closed form. *)
Lemma supervised_idle W (u : Update) (m : Machine Supervised.Vars) :
  connection u <> Some ConnClose ->
  connection u <> Some ConnOpen ->
  let sent := Supervised.qrSent (vars m) in
  Supervised.connection_update W u m
  = (Normal tt,
     {| vars :=
          {| Supervised.pendingMessages := Supervised.pendingMessages (vars m);
             Supervised.authReady := Supervised.authReady (vars m);
             Supervised.qrSent := qrSentAfter sent u;
             Supervised.reconnectAttempts := attemptsAtClose m u - 1;
             Supervised.senderReadyGroups := Supervised.senderReadyGroups (vars m);
             Supervised.senderAttemptAt := Supervised.senderAttemptAt (vars m) |};
        sock := sock m; authFolder := authFolder m;
        tick := (tick m + ticksOfGuardedScan sent u)%nat;
        trace := trace m ++ scanEffects W sent (tick m) u |}).
Proof.
  intros Hc Ho sent. subst sent.
  unfold Supervised.connection_update, attemptsAtClose, qrSentAfter, scanEffects,
    ticksOfGuardedScan, scanRuns, qrEffects.
  destruct m as [[q a s c r l] k f t tr].
  destruct (connection u) as [[| | |]|]; try contradiction;
    destruct (truthy (qr u)) as [x|]; destruct s; js_unfold;
    js_outcomes W;
    rewrite <- ?app_assoc, ?Nat.add_1_r, ?Nat.add_0_r, ?app_nil_r;
    repeat f_equal; lia.
Qed.

(** The counter after any ["connection.update"] event. *)
Lemma supervised_attempts_after W (u : Update) (m : Machine Supervised.Vars) :
  Supervised.reconnectAttempts (vars (snd (Supervised.connection_update W u m)))
  = match connection u with
    | Some ConnOpen => 0
    | Some ConnClose =>
        if motivo u =? DisconnectReason_loggedOut then 0 else attemptsAtClose m u
    | _ => attemptsAtClose m u - 1
    end.
Proof.
  destruct (connection u) as [[| | |]|] eqn:Hc.
  - rewrite supervised_close by assumption.
    destruct (motivo u =? _); [reflexivity|]. destruct (_ >? _); reflexivity.
  - rewrite supervised_open by assumption. reflexivity.
  - rewrite supervised_idle by congruence. reflexivity.
  - rewrite supervised_idle by congruence. reflexivity.
  - rewrite supervised_idle by congruence. reflexivity.
Qed.

(** C2 as stated fails on the supervised script: the counter is also cleared
    by the first scan signal of an instance, although the session has not
    reached open.  Here three attempts fail, the scan signal arrives and the
    counter falls from 3 to 0; and when every restart is followed by a scan
    signal, as for a device without credentials, eleven closures in a row
    do not end the process. *)
Lemma counter_cleared_by_scan :
  let W := sampleWorld [] in
  let m3 := snd (run (SupervisedRun.handle W)
                   (retryCycles [lostUpdate; lostUpdate; lostUpdate])
                   Supervised.initial) in
  let m4 := snd (Supervised.connection_update W scanUpdate m3) in
  let r := run (SupervisedRun.handle W)
             (flat_map (fun _ => [EvConnection lostUpdate; EvStart;
                                  EvConnection scanUpdate]) (seq 0 11))
             Supervised.initial in
  Supervised.reconnectAttempts (vars m3) = 3
  /\ connection scanUpdate <> Some ConnOpen
  /\ Supervised.reconnectAttempts (vars m4) = 0
  /\ Supervised.authReady (vars m4) = false
  /\ fst r = Normal tt
  /\ count isExit (trace (snd r)) = 0%nat
  /\ length (scheduled (trace (snd r))) = 11%nat.
Proof. vm_compute. repeat split; discriminate. Qed.

Lemma delaysFrom_length c n : length (delaysFrom c n) = n.
Proof. revert c. induction n as [|n IH]; intros c; cbn; [|rewrite IH]; reflexivity. Qed.

(** C2, amended.  In the supervised script, from a counter at zero, closures
    that are not logouts and carry no scan signal, each followed by the
    restart it scheduled, have this effect: up to ten of them each schedule
    a restart (with the delays of attempts 1, 2, ...) and none ends the
    process; the eleventh ends it with exit code 1.  The counter is set to
    zero when the session reaches open, and also by a logout closure, by
    the first scan signal of an instance and by [iniciarBot] when the
    session was ready; otherwise a closure adds one to it and every other
    event leaves it as it is. *)
Theorem reconnect_ceiling (W : World) :
  (forall (us : list Update) (m : Machine Supervised.Vars),
      Forall transient us ->
      Supervised.reconnectAttempts (vars m) = 0 ->
      (length us <= 10)%nat ->
      let r := run (SupervisedRun.handle W) (retryCycles us) m in
      fst r = Normal tt
      /\ Supervised.reconnectAttempts (vars (snd r)) = Z.of_nat (length us)
      /\ count isExit (newEffects m (snd r)) = 0%nat
      /\ scheduled (newEffects m (snd r)) = delaysFrom 0 (length us))
  /\ (forall (us : list Update) (u : Update) (m : Machine Supervised.Vars),
      Forall transient us -> transient u ->
      Supervised.reconnectAttempts (vars m) = 0 ->
      length us = 10%nat ->
      let r := run (SupervisedRun.handle W) (retryCycles us ++ [EvConnection u]) m in
      fst r = Halt
      /\ List.filter isExit (newEffects m (snd r)) = [EExit 1]
      /\ length (scheduled (newEffects m (snd r))) = 10%nat)
  /\ (forall (u : Update) (m : Machine Supervised.Vars),
      Supervised.reconnectAttempts (vars (snd (Supervised.connection_update W u m)))
      = match connection u with
        | Some ConnOpen => 0
        | Some ConnClose =>
            if motivo u =? DisconnectReason_loggedOut then 0
            else match scanRuns (Supervised.qrSent (vars m)) u with
                 | Some _ => 1
                 | None => Supervised.reconnectAttempts (vars m) + 1
                 end
        | _ => match scanRuns (Supervised.qrSent (vars m)) u with
               | Some _ => 0
               | None => Supervised.reconnectAttempts (vars m)
               end
        end)
  /\ (forall m : Machine Supervised.Vars,
      Supervised.reconnectAttempts (vars (snd (Supervised.iniciarBot W m)))
      = if Supervised.authReady (vars m) then 0
        else Supervised.reconnectAttempts (vars m))
  /\ (forall ms (m : Machine Supervised.Vars),
      Supervised.reconnectAttempts (vars (snd (Supervised.messages_upsert W ms m)))
      = Supervised.reconnectAttempts (vars m)).
Proof.
  split; [|split; [|split; [|split]]].
  - intros us m Hus H0 Hlen r. subst r.
    destruct (supervised_retries W us m Hus) as (m' & tr & E & A & T & X & S).
    { rewrite H0. unfold Supervised.MAX_RECONNECT_ATTEMPTS. lia. }
    rewrite E. cbn [fst snd]. rewrite (newEffects_app m m' tr T).
    rewrite A, S, H0. repeat split; assumption.
  - intros us u m Hus (Hc & Hm & Hq) H0 Hlen r. subst r.
    destruct (supervised_retries W us m Hus) as (m' & tr & E & A & T & X & S).
    { rewrite H0, Hlen. unfold Supervised.MAX_RECONNECT_ATTEMPTS. lia. }
    rewrite (run_app_normal _ _ _ _ _ E), run_cons. cbn [SupervisedRun.handle].
    apply Z.eqb_neq in Hm.
    rewrite supervised_close by assumption.
    unfold attemptsAtClose, scanEffects, ticksOfGuardedScan, qrSentAfter.
    rewrite (scanRuns_no_qr _ u Hq), Hm, A, H0, Hlen.
    cbn [Z.of_nat Z.add Z.gtb Z.compare Pos.of_succ_nat Pos.succ Pos.add
         Pos.compare Pos.compare_cont Supervised.MAX_RECONNECT_ATTEMPTS fst snd].
    erewrite newEffects_app by (cbn [trace]; rewrite T, <- app_assoc; reflexivity).
    rewrite List.filter_app, scheduled_app, S, length_app, delaysFrom_length, Hlen.
    assert (F : List.filter isExit tr = []).
    { unfold count in X. destruct (List.filter isExit tr); [reflexivity|discriminate]. }
    rewrite F. repeat split.
  - intros u m. rewrite supervised_attempts_after. unfold attemptsAtClose.
    destruct (connection u) as [[| | |]|]; try reflexivity;
      destruct (scanRuns _ u); try reflexivity; try lia.
  - intros m. destruct (supervised_iniciarBot W m) as (f & ->). reflexivity.
  - intros [[|msg rest]|] m; try reflexivity.
    rewrite supervised_upsert_cons.
    destruct (fromMe msg); [reflexivity|].
    destruct (Supervised.authReady (vars m)); [|reflexivity].
    destruct (supervised_processMessage W msg m) as (m' & tr & -> & P).
    apply P.
Qed.

(** C2 amended, at ten lost connections and an eleventh. *)
Lemma reconnect_ceiling_witness :
  let r := run (SupervisedRun.handle (sampleWorld []))
             (retryCycles (repeat lostUpdate 10) ++ [EvConnection lostUpdate])
             Supervised.initial in
  fst r = Halt
  /\ List.filter isExit (newEffects Supervised.initial (snd r)) = [EExit 1]
  /\ length (scheduled (newEffects Supervised.initial (snd r))) = 10%nat.
Proof.
  assert (Ht : transient lostUpdate).
  { split; [reflexivity|]. split; [discriminate|reflexivity]. }
  assert (Hus : Forall transient (repeat lostUpdate 10)).
  { cbn [repeat]. repeat (apply List.Forall_cons; [exact Ht|]). apply List.Forall_nil. }
  exact (proj1 (proj2 (reconnect_ceiling (sampleWorld [])))
           (repeat lostUpdate 10) lostUpdate Supervised.initial
           Hus Ht eq_refl eq_refl).
Defined.

(** ** The scan code *)

Lemma legacy_flush W (m : Machine Legacy.Vars) :
  Legacy.processPendingMessages W m
  = (Normal tt,
     {| vars := Legacy.setPendingMessages [] (vars m);
        sock := sock m; authFolder := authFolder m;
        tick := (tick m + length (Legacy.pendingMessages (vars m)))%nat;
        trace := trace m
                 ++ flushEffects W (sock m) (tick m)
                      (Legacy.pendingMessages (vars m)) |}).
Proof.
  unfold Legacy.processPendingMessages, bind, getVars, modify.
  rewrite forOf_flush. reflexivity.
Qed.

Lemma flushEffects_no_scan W s t q f :
  f = isQrEncode \/ f = isQrPrinted -> count f (flushEffects W s t q) = 0%nat.
Proof.
  intros Hf. revert t. induction q as [|p q IH]; intros t; [reflexivity|].
  cbn [flushEffects]. change (?e :: ?a ++ ?b) with ((e :: a) ++ b).
  rewrite count_app, IH.
  destruct Hf as [-> | ->]; destruct (outcome W t); reflexivity.
Qed.

Ltac scanned_done W Eq :=
  rewrite <- ?app_assoc;
  eexists; split; [try reflexivity; symmetry; apply app_nil_r|];
  split; unfold qrSentAfter, scanEffects, scanRuns, qrEffects; rewrite ?Eq;
  [reflexivity|];
  repeat match goal with H : outcome _ _ = _ |- _ => rewrite H; clear H end;
  eexists; split; [cbn [app]; try reflexivity; symmetry; apply app_nil_r|];
  rewrite ?count_app, ?flushEffects_no_scan by auto; split; reflexivity.

Ltac js_outcome_eqn W :=
  js_simpl;
  try match goal with
      | |- context [outcome W ?t] => destruct (outcome W t) eqn:?; js_simpl
      end.

Lemma legacy_scanned W (u : Update) (m : Machine Legacy.Vars) :
  exists tr,
    trace (snd (Legacy.connection_update W u m)) = trace m ++ tr
    /\ Scanned W (Legacy.qrSent (vars m)) (tick m) u
         (Legacy.qrSent (vars (snd (Legacy.connection_update W u m)))) tr.
Proof.
  destruct (connection u) as [[| | |]|] eqn:Hc.
  - rewrite legacy_close by assumption.
    destruct (motivo u =? _); cbn [snd trace vars Legacy.qrSent];
      eexists; (split; [reflexivity|]); split; [reflexivity| |reflexivity|];
      eexists; repeat split.
  - unfold Legacy.connection_update.
    rewrite Hc. destruct m as [[q a s] k f t tr].
    destruct (truthy (qr u)) as [x|] eqn:Eq; destruct s; js_unfold; js_outcome_eqn W;
      rewrite legacy_flush; js_simpl; scanned_done W Eq.
  - unfold Legacy.connection_update.
    rewrite Hc. destruct m as [[q a s] k f t tr].
    destruct (truthy (qr u)) as [x|] eqn:Eq; destruct s; js_unfold; js_outcome_eqn W;
      scanned_done W Eq.
  - unfold Legacy.connection_update.
    rewrite Hc. destruct m as [[q a s] k f t tr].
    destruct (truthy (qr u)) as [x|] eqn:Eq; destruct s; js_unfold; js_outcome_eqn W;
      scanned_done W Eq.
  - unfold Legacy.connection_update.
    rewrite Hc. destruct m as [[q a s] k f t tr].
    destruct (truthy (qr u)) as [x|] eqn:Eq; destruct s; js_unfold; js_outcome_eqn W;
      scanned_done W Eq.
Qed.

Lemma supervised_scanned W (u : Update) (m : Machine Supervised.Vars) :
  exists tr,
    trace (snd (Supervised.connection_update W u m)) = trace m ++ tr
    /\ Scanned W (Supervised.qrSent (vars m)) (tick m) u
         (Supervised.qrSent (vars (snd (Supervised.connection_update W u m)))) tr.
Proof.
  destruct (connection u) as [[| | |]|] eqn:Hc.
  - rewrite supervised_close by assumption.
    destruct (motivo u =? _); [|destruct (_ >? _)];
      cbn [snd trace vars Supervised.qrSent];
      eexists; (split; [reflexivity|]); split; [reflexivity| |reflexivity| |reflexivity|];
      eexists; repeat split.
  - rewrite supervised_open by assumption. cbn [snd trace vars Supervised.qrSent].
    eexists; (split; [reflexivity|]); split; [reflexivity|].
    eexists. split; [reflexivity|].
    rewrite !count_app, !flushEffects_no_scan by auto. split; reflexivity.
  - rewrite supervised_idle by congruence. cbn [snd trace vars Supervised.qrSent].
    eexists; (split; [reflexivity|]); split; [reflexivity|].
    exists []. rewrite app_nil_r. repeat split.
  - rewrite supervised_idle by congruence. cbn [snd trace vars Supervised.qrSent].
    eexists; (split; [reflexivity|]); split; [reflexivity|].
    exists []. rewrite app_nil_r. repeat split.
  - rewrite supervised_idle by congruence. cbn [snd trace vars Supervised.qrSent].
    eexists; (split; [reflexivity|]); split; [reflexivity|].
    exists []. rewrite app_nil_r. repeat split.
Qed.

Lemma scanEffects_counts W sent t u :
  count isQrEncode (scanEffects W sent t u)
  = match scanRuns sent u with Some _ => 1%nat | None => 0%nat end
  /\ (count isQrPrinted (scanEffects W sent t u)
      <= count isQrEncode (scanEffects W sent t u))%nat.
Proof.
  unfold scanEffects, qrEffects. destruct (scanRuns sent u); [|split; reflexivity].
  destruct (outcome W t); cbn; split; lia.
Qed.

Section ScanOnce.
Context {V : Type} (W : World) (qrSentOf : V -> bool)
        (listener : Update -> JS V unit).

Hypothesis listener_scanned :
  forall u m,
    exists tr,
      trace (snd (listener u m)) = trace m ++ tr
      /\ Scanned W (qrSentOf (vars m)) (tick m) u
           (qrSentOf (vars (snd (listener u m)))) tr.

(** Over any sequence of updates handled by one instance, the code is
    encoded at most once, printed at most as often as encoded, and not at
    all if [qrSent] was already set. *)
Lemma scan_at_most_once (us : list Update) (m : Machine V) :
  exists tr,
    trace (snd (forOf us listener m)) = trace m ++ tr
    /\ (count isQrEncode tr <= if qrSentOf (vars m) then 0 else 1)%nat
    /\ (count isQrPrinted tr <= count isQrEncode tr)%nat.
Proof.
  revert m. induction us as [|u us IH]; intros m.
  - exists []. cbn [forOf ret snd]. rewrite app_nil_r.
    split; [reflexivity|]. cbn. split; [|lia].
    destruct (qrSentOf (vars m)); lia.
  - cbn [forOf]. unfold bind.
    destruct (listener_scanned u m) as (tr1 & T1 & [S1 (post & -> & E1 & P1)]).
    destruct (scanEffects_counts W (qrSentOf (vars m)) (tick m) u) as (C1 & C2).
    assert (K : (count isQrEncode (scanEffects W (qrSentOf (vars m)) (tick m) u ++ post)
                 <= if qrSentOf (vars m) then 0 else 1)%nat
                /\ (count isQrPrinted (scanEffects W (qrSentOf (vars m)) (tick m) u ++ post)
                    <= count isQrEncode
                         (scanEffects W (qrSentOf (vars m)) (tick m) u ++ post))%nat).
    { rewrite !count_app, E1, P1, C1. split; [|lia].
      unfold scanRuns. destruct (qrSentOf (vars m)); [lia|].
      destruct (truthy (qr u)); lia. }
    destruct (listener u m) as [[[]| | |] m1] eqn:E; cbn [snd] in *;
      try (eexists; split; [exact T1|exact K]).
    destruct (IH m1) as (tr2 & T2 & N2 & Q2).
    eexists. split; [rewrite T2, T1, <- app_assoc; reflexivity|].
    rewrite !count_app in *. rewrite E1, P1, C1 in *. rewrite S1 in N2.
    unfold qrSentAfter, scanRuns in *.
    destruct (qrSentOf (vars m)); [lia|].
    destruct (truthy (qr u)); lia.
Qed.
End ScanOnce.

Lemma forOf_map {V A B} (f : A -> B) (xs : list A) (body : B -> JS V unit) m :
  forOf (List.map f xs) body m = forOf xs (fun x => body (f x)) m.
Proof.
  revert m. induction xs as [|x xs IH]; intros m; [reflexivity|].
  cbn [List.map forOf]. unfold bind.
  destruct (body (f x) m) as [[[]| | |] m1]; try reflexivity. apply IH.
Qed.

(** C8 as stated fails on [src/telao3/index.js], which has no [qrSent]
    guard: two scan signals on the same socket print the code twice. *)
Lemma scan_code_twice_in_telao3 :
  let m1 := snd (Telao3.iniciarBot (sampleWorld []) Telao3.initial) in
  let r := run (Telao3Run.handle (sampleWorld []))
             [EvConnection scanUpdate; EvConnection scanUpdate] m1 in
  sock (snd r) = sock m1
  /\ List.filter isQrPrinted (newEffects m1 (snd r))
     = [EQrPrinted (lit "2@abc"); EQrPrinted (lit "2@abc")].
Proof. vm_compute. split; reflexivity. Qed.

(** C8, amended.  In the scripts that keep the [qrSent] flag (the legacy and
    the supervised one), over any sequence of ["connection.update"] events
    handled by one session instance the code is encoded at most once and
    printed at most once, and never once [qrSent] is set; while the flag is
    unset the first scan signal is encoded (and printed if the encoding
    succeeds); and [iniciarBot], which opens the next instance, unsets the
    flag. *)
Theorem scan_code_once (W : World) :
  (forall (us : list Update) (m : Machine Legacy.Vars),
      let tr := newEffects m (snd (run (LegacyRun.handle W) (List.map EvConnection us) m)) in
      (count isQrEncode tr <= 1)%nat
      /\ (count isQrPrinted tr <= 1)%nat
      /\ (Legacy.qrSent (vars m) = true ->
          count isQrEncode tr = 0%nat /\ count isQrPrinted tr = 0%nat))
  /\ (forall (us : list Update) (m : Machine Supervised.Vars),
      let tr := newEffects m (snd (run (SupervisedRun.handle W) (List.map EvConnection us) m)) in
      (count isQrEncode tr <= 1)%nat
      /\ (count isQrPrinted tr <= 1)%nat
      /\ (Supervised.qrSent (vars m) = true ->
          count isQrEncode tr = 0%nat /\ count isQrPrinted tr = 0%nat))
  /\ (forall (u : Update) (q : jsstring) (m : Machine Legacy.Vars),
      Legacy.qrSent (vars m) = false -> truthy (qr u) = Some q ->
      let r := Legacy.connection_update W u m in
      Legacy.qrSent (vars (snd r)) = true
      /\ exists post, newEffects m (snd r) = qrEffects W (tick m) q ++ post)
  /\ (forall (u : Update) (q : jsstring) (m : Machine Supervised.Vars),
      Supervised.qrSent (vars m) = false -> truthy (qr u) = Some q ->
      let r := Supervised.connection_update W u m in
      Supervised.qrSent (vars (snd r)) = true
      /\ exists post, newEffects m (snd r) = qrEffects W (tick m) q ++ post)
  /\ (forall m : Machine Legacy.Vars,
      Legacy.qrSent (vars (snd (Legacy.iniciarBot W m))) = false)
  /\ (forall m : Machine Supervised.Vars,
      Supervised.qrSent (vars (snd (Supervised.iniciarBot W m))) = false).
Proof.
  split; [|split; [|split; [|split; [|split]]]].
  - intros us m tr. subst tr. unfold run. rewrite forOf_map.
    destruct (scan_at_most_once W Legacy.qrSent
                (fun u => LegacyRun.handle W (EvConnection u))
                (legacy_scanned W) us m) as (tr & T & N & P).
    rewrite (newEffects_app _ _ _ T).
    destruct (Legacy.qrSent (vars m)); repeat split; try lia; discriminate.
  - intros us m tr. subst tr. unfold run. rewrite forOf_map.
    destruct (scan_at_most_once W Supervised.qrSent
                (fun u => SupervisedRun.handle W (EvConnection u))
                (supervised_scanned W) us m) as (tr & T & N & P).
    rewrite (newEffects_app _ _ _ T).
    destruct (Supervised.qrSent (vars m)); repeat split; try lia; discriminate.
  - intros u q m Hs Hq r. subst r.
    destruct (legacy_scanned W u m) as (tr & T & [S1 (post & -> & _)]).
    rewrite S1, (newEffects_app _ _ _ T).
    unfold qrSentAfter, scanEffects, scanRuns. rewrite Hs, Hq. eauto.
  - intros u q m Hs Hq r. subst r.
    destruct (supervised_scanned W u m) as (tr & T & [S1 (post & -> & _)]).
    rewrite S1, (newEffects_app _ _ _ T).
    unfold qrSentAfter, scanEffects, scanRuns. rewrite Hs, Hq. eauto.
  - intros m. destruct (legacy_iniciarBot W m) as (f & ->). reflexivity.
  - intros m. destruct (supervised_iniciarBot W m) as (f & ->). reflexivity.
Qed.

(** C8 amended, at two scan signals in a row on a fresh legacy instance. *)
Lemma scan_code_once_witness :
  let m1 := snd (Legacy.iniciarBot (sampleWorld []) Legacy.initial) in
  let tr := newEffects m1
              (snd (run (LegacyRun.handle (sampleWorld []))
                      (List.map EvConnection [scanUpdate; scanUpdate]) m1)) in
  (count isQrEncode tr <= 1)%nat
  /\ (count isQrPrinted tr <= 1)%nat
  /\ (Legacy.qrSent (vars m1) = true ->
      count isQrEncode tr = 0%nat /\ count isQrPrinted tr = 0%nat).
Proof.
  intros m1.
  exact (proj1 (scan_code_once (sampleWorld [])) [scanUpdate; scanUpdate] m1).
Defined.

(** ** The warm-up cache, call after call *)










(** The caches of the supervised script live as long as one call of
    [iniciarBot]: a group warmed up on one socket is warmed up again, one
    second later, on the socket that a restart opens. *)
Lemma warmup_again_after_restart :
  let W := sampleWorld [] in
  let g := lit "120363@g.us" in
  let r1 := Supervised.ensureGroupReady W g readyMachine in
  let m2 := snd (Supervised.iniciarBot W (snd r1)) in
  let r3 := Supervised.ensureGroupReady W g m2 in
  fst r1 = Normal true
  /\ bool_decide (g ∈ Supervised.senderReadyGroups (vars (snd r1))) = true
  /\ bool_decide (g ∈ Supervised.senderReadyGroups (vars m2)) = false
  /\ attempted (trace (snd r3))
     = [{| jid := g; msg := Text textInicializandoGrupo |};
        {| jid := g; msg := Text textInicializandoGrupo |}]
  /\ clock W 3 - clock W 0 < Supervised.SENDER_COOLDOWN_MS.
Proof. vm_compute. repeat split. Qed.



(** ** The command router, branch by branch *)

Ltac lits :=
  repeat match goal with
         | |- context [lit ?s] =>
             let v := eval vm_compute in (lit s) in change (lit s) with v
         end.

Lemma js_eqb_eq (a b : jsstring) : Js.eqb a b = true <-> a = b.
Proof.
  split; [|intros ->; apply js_eqb_refl].
  revert b. induction a as [|x a IH]; intros [|y b]; cbn; try discriminate; [reflexivity|].
  intros H. apply andb_true_iff in H. destruct H as [H1 H2].
  apply N.eqb_eq in H1. subst. f_equal. apply IH, H2.
Qed.

Lemma startsWith_inv (s p : jsstring) :
  startsWith s p = true <-> exists rest, s = p ++ rest.
Proof.
  revert s. induction p as [|c p IH]; intros s; cbn.
  - split; [eauto|destruct s; reflexivity].
  - destruct s as [|d s]; [split; [discriminate|intros [r [=]]]|].
    cbn. rewrite andb_true_iff, N.eqb_eq, IH. split.
    + intros [-> [r ->]]. eauto.
    + intros [r [= -> ->]]. eauto.
Qed.

Lemma startsWith_nil (s : jsstring) : startsWith s [] = true.
Proof. destruct s; reflexivity. Qed.

Lemma route_none_iff (j t : jsstring) :
  route j t = None
  <-> startsWith t (lit ".compra") = false
      /\ startsWith t (lit "@") = false
      /\ startsWith t (lit "/") = false
      /\ includes [lit ".n"; lit ".t"; lit ".i"; lit ".s"] t = false.
Proof.
  unfold route, routeTable. cbn [firstMatch].
  split.
  - intros H.
    repeat match type of H with
           | (if ?c then _ else _) = None => destruct c eqn:?; [discriminate|]
           end.
    repeat match goal with
           | E : _ || _ = false |- _ => apply orb_false_iff in E; destruct E
           end.
    auto.
  - intros (H1 & H2 & H3 & H4). rewrite H1, H4.
    revert H2 H3. lits.
    destruct t as [|c t]; cbn [startsWith Js.eqb includes existsb andb orb].
    + rewrite andb_false_r. reflexivity.
    + rewrite !startsWith_nil, !andb_true_r. intros H2 H3.
      rewrite ?(N.eqb_sym 64 c), ?(N.eqb_sym 47 c), !H2, !H3. cbn [andb orb].
      rewrite andb_false_r. reflexivity.
Qed.

Lemma startsWith_app_true (s p q : jsstring) :
  startsWith s (p ++ q) = true -> startsWith s p = true.
Proof.
  rewrite !startsWith_inv. intros [r ->]. rewrite <- app_assoc. eauto.
Qed.

Ltac route_cases H :=
  unfold route, routeTable in H; cbn [firstMatch] in H;
  repeat match type of H with
         | (if ?c then _ else _) = _ => destruct c eqn:?; [try discriminate H|]
         end;
  try discriminate H.

Ltac route_prefix H :=
  apply startsWith_inv in H; destruct H as [? ->];
  unfold route, routeTable; cbn [firstMatch]; lits; cbn;
  rewrite ?startsWith_nil; try reflexivity.

Lemma route_remove_iff (j t : jsstring) :
  route j t = Some handleRemove
  <-> startsWith t (lit "@remove") || startsWith t (lit "/remove") = true.
Proof.
  split.
  - intros H. route_cases H. reflexivity.
  - intros H. apply orb_true_iff in H. destruct H as [H|H]; route_prefix H.
Qed.

Lemma route_compra_iff (j t : jsstring) :
  route j t = Some handleCompra
  <-> startsWith t (lit "@compra") || startsWith t (lit "@rentanas") = true.
Proof.
  split.
  - intros H. route_cases H.
    match goal with
    | E : startsWith t (lit "@remove") || _ = false |- _ =>
        apply orb_false_iff in E; destruct E as [E _]
    end.
    destruct (startsWith t (lit "@remove rentanas")) eqn:E3.
    + apply (startsWith_app_true t (lit "@remove") (lit " rentanas")) in E3. congruence.
    + rewrite orb_false_r in *. assumption.
  - intros H. apply orb_true_iff in H. destruct H as [H|H]; route_prefix H.
Qed.

Lemma route_concorrencia (j : jsstring) :
  route j (lit "@concorrencia")
  = Some (if endsWith j (lit "@g.us") then handleConcorrer else handleMessage).
Proof.
  unfold route, routeTable. cbn [firstMatch].
  destruct (endsWith j (lit "@g.us")); vm_compute; reflexivity.
Qed.

Ltac trace_done :=
  cbn [snd]; js_simpl;
  erewrite newEffects_app by (js_simpl; rewrite <- ?app_assoc; reflexivity);
  reflexivity.

Lemma supervised_routed W (msg : Msg) (m : Machine Supervised.Vars) :
  imageMessage msg = false ->
  outcome W (S (tick m)) = true ->
  tabelaLike (lowerTextOf W msg) = false ->
  invoked (newEffects m (snd (Supervised.processMessage W msg m)))
  = [handleAntiLinkMessage; handleMensagemPix]
    ++ match route (remoteJid msg) (lowerTextOf W msg) with
       | Some h => [h]
       | None => []
       end.
Proof.
  intros Hi Hp Ht. unfold tabelaLike in Ht.
  unfold Supervised.processMessage. cbv zeta.
  rewrite (chain_is_route W (remoteJid msg) (lowerTextOf W msg) msg).
  rewrite Hi, Ht. cbn [andb].
  destruct (route (remoteJid msg) (lowerTextOf W msg)) as [h|];
    destruct (Supervised.authReady (vars m)) eqn:Ea;
    destruct (endsWith (remoteJid msg) (lit "@g.us")) eqn:Eg;
    js_unfold; crunch W Ea; try discriminate Hp; try trace_done.
  all: try match goal with
       | |- context [Supervised.ensureGroupReady ?w ?g ?m1] =>
           destruct (ensureGroupReady_spec w g m1) as (b & m2 & E & Hw);
           rewrite E; clear E; destruct Hw; try congruence
       end.
  all: cbn [negb]; crunch W Ea; try discriminate Hp; try trace_done.
Qed.

Ltac route_literal H j :=
  apply js_eqb_eq in H; subst;
  unfold route, routeTable; cbn [firstMatch];
  destruct (endsWith j (lit "@g.us")); vm_compute; reflexivity.

Lemma includes_cons (a : jsstring) (arr : list jsstring) (s : jsstring) :
  includes (a :: arr) s = eqb a s || includes arr s.
Proof. reflexivity. Qed.

Lemma js_eqb_sym (a b : jsstring) : Js.eqb a b = Js.eqb b a.
Proof.
  revert b. induction a as [|x a IH]; intros [|y b]; cbn; try reflexivity.
  rewrite N.eqb_sym, IH. reflexivity.
Qed.

Ltac includes_cases H :=
  unfold includes in H; cbn [existsb] in H;
  repeat (apply orb_true_iff in H; destruct H as [H|H]);
  try discriminate H; rewrite js_eqb_sym in H.

Lemma route_compra2_iff (j t : jsstring) :
  route j t = Some handleCompra2 <-> startsWith t (lit ".compra") = true.
Proof.
  split.
  - intros H. route_cases H. reflexivity.
  - intros H. route_prefix H.
Qed.

Lemma route_listar_iff (j t : jsstring) :
  route j t = Some handleListar <-> eqb t (lit "@concorrentes") = true.
Proof.
  split.
  - intros H. route_cases H. reflexivity.
  - intros H. route_literal H j.
Qed.

Lemma route_ban_iff (j t : jsstring) :
  route j t = Some handleBan
  <-> startsWith t (lit "@ban") || startsWith t (lit "/ban") = true.
Proof.
  split.
  - intros H. route_cases H. reflexivity.
  - intros H. apply orb_true_iff in H. destruct H as [H|H]; route_prefix H.
Qed.

Lemma route_pagamento_iff (j t : jsstring) :
  route j t = Some handlePagamento <-> eqb t (lit "@pagamentos") = true.
Proof.
  split.
  - intros H. route_cases H. reflexivity.
  - intros H. route_literal H j.
Qed.

Lemma route_grupo_iff (j t : jsstring) :
  route j t = Some handleGrupo
  <-> includes [lit "@grupo on"; lit "@grupo off"] t = true.
Proof.
  split.
  - intros H. route_cases H. reflexivity.
  - intros H. includes_cases H; route_literal H j.
Qed.

Lemma route_concorrer_iff (j t : jsstring) :
  route j t = Some handleConcorrer
  <-> endsWith j (lit "@g.us") && eqb t (lit "@concorrencia") = true.
Proof.
  split.
  - intros H. route_cases H. reflexivity.
  - intros H. apply andb_true_iff in H. destruct H as [Hj H].
    apply js_eqb_eq in H. subst. rewrite route_concorrencia, Hj. reflexivity.
Qed.

Lemma route_tabela_iff (j t : jsstring) :
  route j t = Some handleTabela
  <-> eqb t (lit "@tabela") || includes [lit ".n"; lit ".t"; lit ".i"; lit ".s"] t = true.
Proof.
  split.
  - intros H. route_cases H; [reflexivity|apply orb_true_r].
  - intros H. apply orb_true_iff in H. destruct H as [H|H].
    + route_literal H j.
    + includes_cases H; route_literal H j.
Qed.

Lemma route_todos_iff (j t : jsstring) :
  route j t = Some handleTodos <-> eqb t (lit "@todos") = true.
Proof.
  split.
  - intros H. route_cases H. reflexivity.
  - intros H. route_literal H j.
Qed.

Lemma includes_In (arr : list jsstring) (s : jsstring) :
  includes arr s = true <-> In s arr.
Proof.
  unfold includes. rewrite existsb_exists. split.
  - intros (a & Ha & E). apply js_eqb_eq in E. subst. assumption.
  - intros H. exists s. split; [assumption|apply js_eqb_refl].
Qed.

Lemma tabelaLike_route (j t : jsstring) :
  tabelaLike t = true <-> route j t = Some handleTabela.
Proof.
  rewrite route_tabela_iff. unfold tabelaLike.
  rewrite !orb_true_iff, !includes_In. cbn [In]. tauto.
Qed.

Lemma routedShape_in (j t : jsstring) (hs : list Handler) (h : Handler) :
  routedShape j t hs ->
  h <> handleAntiLinkMessage -> h <> handleMensagemPix ->
  (In h hs <-> route j t = Some h).
Proof.
  intros [->|[R [->| ->]]] Ha Hp.
  - destruct (route j t) as [h'|]; cbn [app In]; split;
      try (intros [?|[?|[?|[]]]]); try (intros [?|[?|[]]]); try congruence.
    intros [= ->]. auto.
  - rewrite R. cbn [In]. split;
      [intros [?|[?|[?|[]]]]; congruence|intros [= ->]; auto].
  - rewrite R. cbn [In]. split;
      [intros [?|[?|[?|[?|[]]]]]; congruence|intros [= ->]; auto].
Qed.

Lemma routedShape_none (j t : jsstring) (hs : list Handler) :
  routedShape j t hs ->
  (hs = [handleAntiLinkMessage; handleMensagemPix] <-> route j t = None).
Proof.
  intros [->|[R [->| ->]]]; try (rewrite R; split; discriminate).
  destruct (route j t); split; try discriminate; reflexivity.
Qed.

Lemma route_at_slash (j t : jsstring) :
  startsWith t (lit "@") = true \/ startsWith t (lit "/") = true ->
  route j t <> None.
Proof.
  intros H R. apply route_none_iff in R. destruct R as (_ & R1 & R2 & _).
  destruct H; congruence.
Qed.

Lemma route_message_at_slash (j t : jsstring) :
  route j t = Some handleMessage ->
  startsWith t (lit "@") = true \/ startsWith t (lit "/") = true.
Proof.
  intros H. route_cases H.
  match goal with E : _ || _ = true |- _ => apply orb_true_iff in E; exact E end.
Qed.

Lemma route_is_command (j t : jsstring) (h : Handler) :
  route j t = Some h -> isCommand h = true.
Proof.
  intros H. route_cases H; injection H as <-; reflexivity.
Qed.

(** The generic branch takes the texts that start with ["@"] or ["/"] and
    that no branch before it takes. *)
Lemma route_message_iff (j t : jsstring) :
  route j t = Some handleMessage
  <-> (startsWith t (lit "@") = true \/ startsWith t (lit "/") = true)
      /\ startsWith t (lit "@remove") = false
      /\ startsWith t (lit "/remove") = false
      /\ startsWith t (lit "@ban") = false
      /\ startsWith t (lit "/ban") = false
      /\ startsWith t (lit "@compra") = false
      /\ startsWith t (lit "@rentanas") = false
      /\ ~ In t [lit "@concorrentes"; lit "@pagamentos"; lit "@grupo on";
                 lit "@grupo off"; lit "@tabela"; lit "@todos"]
      /\ ~ (endsWith j (lit "@g.us") = true /\ t = lit "@concorrencia").
Proof.
  split.
  - intros R. split; [apply (route_message_at_slash j), R|].
    assert (Rm : forall c, (c = true -> route j t = Some handleRemove) -> c = false)
      by (intros [|] Hc; [specialize (Hc eq_refl); congruence|reflexivity]).
    assert (Rb : forall c, (c = true -> route j t = Some handleBan) -> c = false)
      by (intros [|] Hc; [specialize (Hc eq_refl); congruence|reflexivity]).
    assert (Rc : forall c, (c = true -> route j t = Some handleCompra) -> c = false)
      by (intros [|] Hc; [specialize (Hc eq_refl); congruence|reflexivity]).
    repeat split.
    + apply Rm. intros H. apply route_remove_iff. rewrite H. reflexivity.
    + apply Rm. intros H. apply route_remove_iff. rewrite H. apply orb_true_r.
    + apply Rb. intros H. apply route_ban_iff. rewrite H. reflexivity.
    + apply Rb. intros H. apply route_ban_iff. rewrite H. apply orb_true_r.
    + apply Rc. intros H. apply route_compra_iff. rewrite H. reflexivity.
    + apply Rc. intros H. apply route_compra_iff. rewrite H. apply orb_true_r.
    + cbn [In]. intros [<-|[<-|[<-|[<-|[<-|[<-|[]]]]]]];
        revert R; unfold route, routeTable; cbn [firstMatch];
        generalize (endsWith j (lit "@g.us")); intros [|]; vm_compute; discriminate.
    + intros [Hj ->]. rewrite route_concorrencia, Hj in R. discriminate R.
  - intros (Hs & H1 & H2 & H3 & H4 & H5 & H6 & H7 & H8).
    destruct (route j t) as [h|] eqn:R; [|exfalso; eapply route_at_slash; eauto].
    pose proof (route_is_command j t h R) as Hcmd.
    destruct h; try reflexivity; try discriminate Hcmd; exfalso.
    + apply route_concorrer_iff, andb_true_iff in R. destruct R as [Rj Rt].
      apply js_eqb_eq in Rt. auto.
    + apply route_listar_iff, js_eqb_eq in R. apply H7. rewrite R. cbn [In]. auto.
    + apply route_remove_iff, orb_true_iff in R. destruct R; congruence.
    + apply route_pagamento_iff, js_eqb_eq in R. apply H7. rewrite R. cbn [In]. auto.
    + apply route_grupo_iff, includes_In in R. apply H7.
      cbn [In] in R |- *. intuition.
    + apply route_ban_iff, orb_true_iff in R. destruct R; congruence.
    + apply route_compra_iff, orb_true_iff in R. destruct R; congruence.
    + apply route_tabela_iff, orb_true_iff in R. destruct R as [R|R].
      * apply js_eqb_eq in R. apply H7. rewrite R. cbn [In]. auto 10.
      * apply includes_In in R. cbn [In] in R.
        destruct Hs as [Hs|Hs]; apply startsWith_inv in Hs; destruct Hs as [r ->];
          destruct R as [R|[R|[R|[R|[]]]]]; vm_compute in R; discriminate R.
    + apply route_todos_iff, js_eqb_eq in R. apply H7. rewrite R. cbn [In]. auto 10.
    + apply route_compra2_iff, startsWith_inv in R. destruct R as [r' ->].
      destruct Hs as [Hs|Hs]; vm_compute in Hs; discriminate Hs.
Qed.

Lemma dispatch_of_shape (j t : jsstring) (hs : list Handler) :
  routedShape j t hs -> Dispatch j t hs.
Proof.
  intros S.
  assert (I : forall h, h <> handleAntiLinkMessage -> h <> handleMensagemPix ->
                        (In h hs <-> route j t = Some h))
    by (intros h; apply routedShape_in, S).
  split.
  - rewrite I, route_compra2_iff by discriminate. reflexivity.
  - rewrite I, route_listar_iff, js_eqb_eq by discriminate. reflexivity.
  - rewrite I, route_remove_iff, orb_true_iff by discriminate. reflexivity.
  - rewrite I, route_ban_iff, orb_true_iff by discriminate. reflexivity.
  - rewrite I, route_pagamento_iff, js_eqb_eq by discriminate. reflexivity.
  - rewrite I, route_grupo_iff, includes_In by discriminate. reflexivity.
  - rewrite I, route_compra_iff, orb_true_iff by discriminate. reflexivity.
  - rewrite I, route_concorrer_iff, andb_true_iff, js_eqb_eq by discriminate.
    reflexivity.
  - rewrite I, route_tabela_iff, orb_true_iff, js_eqb_eq, includes_In by discriminate.
    cbn [In]. intuition congruence.
  - rewrite I, route_todos_iff, js_eqb_eq by discriminate. reflexivity.
  - rewrite I by discriminate. apply route_message_iff.
  - rewrite (routedShape_none j t hs S), route_none_iff.
    rewrite <- (includes_In _ t), not_true_iff_false. reflexivity.
  - destruct S as [->|[R [->| ->]]].
    + eexists. split; [reflexivity|].
      destruct (route j t) as [h|] eqn:R; [|left; reflexivity].
      right. left. exists h. split; [eapply route_is_command, R|reflexivity].
    + exists [handleTabela]. split; [reflexivity|].
      right. left. exists handleTabela. split; reflexivity.
    + exists [handleTabela; handleTabela]. split; [reflexivity|]. right. right. reflexivity.
Qed.

Ltac trace_invoked :=
  cbn [snd]; js_simpl;
  erewrite newEffects_app by (js_simpl; rewrite <- ?app_assoc; reflexivity);
  cbn [app invoked]; auto.

Lemma supervised_tabela_invoked W (msg : Msg) (m : Machine Supervised.Vars) :
  imageMessage msg = false ->
  outcome W (S (tick m)) = true ->
  tabelaLike (lowerTextOf W msg) = true ->
  supervisedInvoked W msg m
    = [handleAntiLinkMessage; handleMensagemPix; handleTabela]
  \/ supervisedInvoked W msg m
    = [handleAntiLinkMessage; handleMensagemPix; handleTabela; handleTabela].
Proof.
  intros Hi Hp Ht.
  pose proof (proj1 (tabelaLike_route (remoteJid msg) _) Ht) as R.
  unfold tabelaLike in Ht.
  unfold supervisedInvoked, Supervised.processMessage. cbv zeta.
  rewrite (chain_is_route W (remoteJid msg) (lowerTextOf W msg) msg).
  rewrite Hi, Ht, R. cbn [andb].
  destruct (Supervised.authReady (vars m)) eqn:Ea;
    destruct (endsWith (remoteJid msg) (lit "@g.us")) eqn:Eg;
    js_unfold; crunch W Ea; try discriminate Hp; try trace_invoked.
  all: try match goal with
       | |- context [Supervised.ensureGroupReady ?w ?g ?m1] =>
           destruct (ensureGroupReady_spec w g m1) as (b & m2 & E & Hw);
           rewrite E; clear E; destruct Hw; try congruence
       end.
  all: cbn [negb]; crunch W Ea; try discriminate Hp; try trace_invoked.
Qed.

Lemma telao3_shape W (msg : Msg) (m : Machine Telao3.Vars) :
  imageMessage msg = false ->
  outcome W (S (tick m)) = true ->
  routedShape (remoteJid msg) (lowerTextOf W msg) (telao3Invoked W msg m).
Proof.
  intros Hi Hp. left. apply (telao3_routed W msg m Hi Hp).
Qed.

Lemma supervised_shape W (msg : Msg) (m : Machine Supervised.Vars) :
  imageMessage msg = false ->
  outcome W (S (tick m)) = true ->
  routedShape (remoteJid msg) (lowerTextOf W msg) (supervisedInvoked W msg m).
Proof.
  intros Hi Hp. destruct (tabelaLike (lowerTextOf W msg)) eqn:Ht.
  - right. split; [apply tabelaLike_route, Ht|].
    apply supervised_tabela_invoked; assumption.
  - left. apply supervised_routed; assumption.
Qed.

(** X1.  Which command handler [processMessage] invokes, in
    [src/telao3/index.js] and in the supervised script, for a message
    without image whose pix side channel resolves.  The handlers invoked
    are the anti-link scan, the pix handler and then no command, one
    command or (supervised script only) the tabela handler twice.  Every
    specific command handler is invoked exactly when its own condition on
    the conversation and the lower-cased text holds (no earlier branch of
    the chain takes its texts, the ["@remove rentanas"] disjunct of the
    compra branch adding nothing); the generic handler is invoked exactly
    for the texts that start with ["@"] or ["/"] and satisfy the condition
    of no specific handler; and only the two side channels run exactly for
    a text that starts with none of [".compra"], ["@"], ["/"] and is none of
    the four shortcuts. *)
Theorem dispatch_conditions (W : World) (msg : Msg) :
  imageMessage msg = false ->
  (forall m : Machine Telao3.Vars,
      outcome W (S (tick m)) = true ->
      Dispatch (remoteJid msg) (lowerTextOf W msg) (telao3Invoked W msg m)
      /\ (length (telao3Invoked W msg m) <= 3)%nat)
  /\ (forall m : Machine Supervised.Vars,
      outcome W (S (tick m)) = true ->
      Dispatch (remoteJid msg) (lowerTextOf W msg) (supervisedInvoked W msg m)).
Proof.
  intros Hi. split; intros m Hp; [split|]; try apply dispatch_of_shape.
  - apply telao3_shape; assumption.
  - unfold telao3Invoked.
    rewrite (proj1 (telao3_routed W msg m Hi Hp)).
    destruct (route (remoteJid msg) (lowerTextOf W msg)); cbn [app length]; lia.
  - apply supervised_shape; assumption.
Qed.

(** X1, at the text ["@foo"] in a direct conversation: it starts with ["@"]
    and no specific branch takes it, so the generic handler is invoked. *)
Lemma dispatch_conditions_witness :
  In handleMessage (telao3Invoked (sampleWorld [])
                      (textMessage "5511@s.whatsapp.net" "@foo") Telao3.initial).
Proof.
  apply (dispatch_message _ _ _
           (proj1 (proj1 (dispatch_conditions (sampleWorld [])
                            (textMessage "5511@s.whatsapp.net" "@foo") eq_refl)
                     Telao3.initial eq_refl))).
  repeat split; try reflexivity; try (left; reflexivity).
  - cbn [In]. intros [H|[H|[H|[H|[H|[H|[]]]]]]]; vm_compute in H; discriminate H.
  - intros [H _]. vm_compute in H. discriminate H.
Defined.

Lemma routedShape_routed (j t : jsstring) (hs : list Handler) (h : Handler) :
  routedShape j t hs -> route j t = Some h -> h <> handleTabela ->
  hs = [handleAntiLinkMessage; handleMensagemPix; h].
Proof.
  intros [->|[R _]] E Hh; [rewrite E; reflexivity|congruence].
Qed.

(** X2.  Where the order of the chain decides, for a message without image
    whose pix side channel resolves, in both scripts: a text that starts
    with ["@remove rentanas"] is handled by the remove handler, whose branch
    comes first, and never by the compra handler; the text ["@concorrencia"]
    is handled by the concorrer handler in a group and falls through to the
    generic handler in any other conversation. *)
Theorem router_shadowing (W : World) (msg : Msg) :
  imageMessage msg = false ->
  let t := lowerTextOf W msg in
  let side := [handleAntiLinkMessage; handleMensagemPix] in
  let concorrencia :=
    if endsWith (remoteJid msg) (lit "@g.us") then handleConcorrer else handleMessage in
  (forall m : Machine Telao3.Vars,
      outcome W (S (tick m)) = true ->
      (startsWith t (lit "@remove rentanas") = true ->
       telao3Invoked W msg m = side ++ [handleRemove])
      /\ (t = lit "@concorrencia" ->
          telao3Invoked W msg m = side ++ [concorrencia]))
  /\ (forall m : Machine Supervised.Vars,
      outcome W (S (tick m)) = true ->
      (startsWith t (lit "@remove rentanas") = true ->
       supervisedInvoked W msg m = side ++ [handleRemove])
      /\ (t = lit "@concorrencia" ->
          supervisedInvoked W msg m = side ++ [concorrencia])).
Proof.
  intros Hi t side concorrencia.
  assert (R1 : startsWith t (lit "@remove rentanas") = true ->
               route (remoteJid msg) t = Some handleRemove).
  { intros H. apply route_remove_iff, orb_true_iff. left.
    apply (startsWith_app_true t (lit "@remove") (lit " rentanas")), H. }
  assert (R2 : t = lit "@concorrencia" ->
               route (remoteJid msg) t = Some concorrencia).
  { intros ->. apply route_concorrencia. }
  assert (N2 : concorrencia <> handleTabela)
    by (subst concorrencia; destruct (endsWith _ _); discriminate).
  split; intros m Hp; split; intros H.
  - apply (routedShape_routed (remoteJid msg) t);
      [apply telao3_shape; assumption|exact (R1 H)|discriminate].
  - apply (routedShape_routed (remoteJid msg) t);
      [apply telao3_shape; assumption|exact (R2 H)|exact N2].
  - apply (routedShape_routed (remoteJid msg) t);
      [apply supervised_shape; assumption|exact (R1 H)|discriminate].
  - apply (routedShape_routed (remoteJid msg) t);
      [apply supervised_shape; assumption|exact (R2 H)|exact N2].
Qed.

(** X2, at ["@remove rentanas 5511"] sent to a group. *)
Lemma router_shadowing_witness :
  telao3Invoked (sampleWorld [])
    (textMessage "120363@g.us" "@remove rentanas 5511") Telao3.initial
  = [handleAntiLinkMessage; handleMensagemPix; handleRemove].
Proof.
  exact (proj1 (proj1 (router_shadowing (sampleWorld [])
                         (textMessage "120363@g.us" "@remove rentanas 5511") eq_refl)
                  Telao3.initial eq_refl) eq_refl).
Defined.

(** ** Normalisation of the message text *)

Lemma trimStart_head (s : jsstring) (c : N) (s' : jsstring) :
  trimStart s = c :: s' -> isWhiteSpace c = false.
Proof.
  induction s as [|d s IH]; cbn [trimStart]; [discriminate|].
  destruct (isWhiteSpace d) eqn:E; [exact IH|].
  intros [= <- <-]. exact E.
Qed.

Lemma trimStart_suffix (s : jsstring) : exists ws, s = ws ++ trimStart s.
Proof.
  induction s as [|d s [ws IH]]; cbn [trimStart]; [exists []; reflexivity|].
  destruct (isWhiteSpace d); [|exists []; reflexivity].
  exists (d :: ws). cbn [app]. f_equal. exact IH.
Qed.

Lemma trimStart_whitespace (ws s : jsstring) :
  Forall (fun c => isWhiteSpace c = true) ws -> trimStart (ws ++ s) = trimStart s.
Proof.
  induction 1 as [|c ws Hc _ IH]; [reflexivity|].
  cbn [app trimStart]. rewrite Hc. exact IH.
Qed.

Lemma trimStart_fixed (c : N) (s : jsstring) :
  isWhiteSpace c = false -> trimStart (c :: s) = c :: s.
Proof. intros H. cbn [trimStart]. rewrite H. reflexivity. Qed.

Lemma trimStart_last (s : jsstring) (c : N) :
  trimStart (s ++ [c]) = [] \/ exists s', trimStart (s ++ [c]) = s' ++ [c].
Proof.
  induction s as [|d s IH]; cbn [app trimStart].
  - destruct (isWhiteSpace c); [left; reflexivity|right; exists []; reflexivity].
  - destruct (isWhiteSpace d); [exact IH|].
    right. exists (d :: s). reflexivity.
Qed.

Lemma trim_first (s : jsstring) (c : N) (s' : jsstring) :
  trim s = c :: s' -> isWhiteSpace c = false.
Proof.
  unfold trim. intros H.
  destruct (trimStart s) as [|d u] eqn:E; [discriminate|].
  pose proof (trimStart_head s d u E) as Hd.
  cbn [List.rev] in H.
  destruct (trimStart_last (List.rev u) d) as [E0|[w Ew]].
  - rewrite E0 in H. discriminate.
  - rewrite Ew, rev_app_distr in H. cbn [List.rev app] in H.
    injection H as <- _. exact Hd.
Qed.

Lemma trim_last (s s' : jsstring) (c : N) :
  trim s = s' ++ [c] -> isWhiteSpace c = false.
Proof.
  unfold trim. intros H.
  apply (f_equal (@List.rev N)) in H.
  rewrite rev_involutive, rev_app_distr in H. cbn [List.rev app] in H.
  eapply trimStart_head, H.
Qed.

Lemma trim_infix (s : jsstring) : exists a b, s = a ++ trim s ++ b.
Proof.
  unfold trim.
  destruct (trimStart_suffix s) as [a Ha].
  destruct (trimStart_suffix (List.rev (trimStart s))) as [b Hb].
  exists a, (List.rev b).
  rewrite <- rev_app_distr, <- Hb, rev_involutive. exact Ha.
Qed.

Lemma stripBidi_clean (s : jsstring) :
  Forall (fun c => isBidiControl c = false) (stripBidi s).
Proof.
  apply List.Forall_forall. intros c H. apply List.filter_In in H.
  destruct H as [_ H]. apply negb_true_iff, H.
Qed.

Lemma trim_padding (ws1 body ws2 : jsstring) :
  Forall (fun c => isWhiteSpace c = true) ws1 ->
  Forall (fun c => isWhiteSpace c = true) ws2 ->
  trim body = body ->
  trim (ws1 ++ body ++ ws2) = body.
Proof.
  intros H1 H2 Hb.
  assert (R : Forall (fun c => isWhiteSpace c = true) (List.rev ws2))
    by (apply List.Forall_rev, H2).
  destruct body as [|c b].
  - unfold trim. cbn [app]. rewrite trimStart_whitespace by assumption.
    destruct (trimStart_suffix ws2) as [a Ha].
    assert (E : trimStart ws2 = []).
    { destruct (trimStart ws2) as [|d u] eqn:E; [reflexivity|].
      pose proof (trimStart_head ws2 d u E) as Hd.
      rewrite List.Forall_forall in H2.
      rewrite (H2 d) in Hd; [discriminate|].
      rewrite Ha. apply in_or_app. right. left. reflexivity. }
    rewrite E. reflexivity.
  - pose proof (trim_first _ _ _ Hb) as Hc.
    unfold trim. rewrite trimStart_whitespace by assumption.
    change ((c :: b) ++ ws2) with (c :: b ++ ws2).
    rewrite trimStart_fixed by assumption.
    change (c :: b ++ ws2) with ((c :: b) ++ ws2).
    rewrite rev_app_distr, trimStart_whitespace by assumption.
    destruct (List.rev (c :: b)) as [|l r] eqn:E.
    { apply (f_equal (@List.rev N)) in E. rewrite rev_involutive in E. discriminate. }
    assert (Hl : isWhiteSpace l = false).
    { apply (trim_last (c :: b) (List.rev r)). rewrite Hb.
      apply (f_equal (@List.rev N)) in E. rewrite rev_involutive in E. exact E. }
    rewrite trimStart_fixed by assumption.
    rewrite <- E. apply rev_involutive.
Qed.

Lemma stripBidi_padding (s : jsstring) :
  Forall (fun c => isPadding c = true) s ->
  Forall (fun c => isWhiteSpace c = true) (stripBidi s).
Proof.
  intros H. apply List.Forall_forall. intros c Hc. apply List.filter_In in Hc.
  destruct Hc as [Hin Hn]. rewrite List.Forall_forall in H.
  specialize (H c Hin). unfold isPadding in H.
  apply negb_true_iff in Hn. rewrite Hn in H. exact H.
Qed.

(** ASCII lower-casing turns no code unit into a directional mark or into
    white space, and none of these into something else. *)
Lemma asciiLower_class (c : N) :
  isBidiControl (asciiLower c) = isBidiControl c
  /\ isWhiteSpace (asciiLower c) = isWhiteSpace c.
Proof.
  unfold asciiLower.
  destruct ((65 <=? c) && (c <=? 90))%N eqn:E; [|split; reflexivity].
  apply andb_true_iff in E. destruct E as [E1 E2].
  apply N.leb_le in E1, E2.
  unfold isBidiControl, isWhiteSpace.
  repeat match goal with
         | |- context [(?a =? ?b)%N] =>
             first [ rewrite (proj2 (N.eqb_neq a b)) by lia
                   | rewrite (proj2 (N.eqb_eq a b)) by lia ]
         | |- context [(?a <=? ?b)%N] =>
             first [ rewrite (proj2 (N.leb_le a b)) by lia
                   | rewrite (proj2 (N.leb_gt a b)) by lia ]
         end.
  split; reflexivity.
Qed.

Lemma last_map_asciiLower (s t : jsstring) (c : N) :
  List.map asciiLower s = t ++ [c] ->
  exists t' c', s = t' ++ [c'] /\ c = asciiLower c'.
Proof.
  intros H. destruct (List.exists_last (l := s)) as (t' & c' & ->).
  - intros ->. destruct t; discriminate H.
  - exists t', c'. split; [reflexivity|].
    rewrite List.map_app in H. cbn [List.map] in H.
    apply app_inj_tail in H. symmetry. apply H.
Qed.

(** X3.  For every message, [messageText] - the text that [processMessage]
    lower-cases and then matches commands against - holds no directional
    mark and neither starts nor ends with white space: the marks are
    deleted first and the result is trimmed.  When that text is ASCII and
    [toLowerCase] is the ASCII mapping on ASCII text, the same holds of the
    lower-cased text that the command chain reads. *)
Theorem normalized_text_clean (W : World) (m : Msg) :
  (Forall (fun c => isBidiControl c = false) (normalizedText m)
   /\ (forall c s, normalizedText m = c :: s -> isWhiteSpace c = false)
   /\ (forall c s, normalizedText m = s ++ [c] -> isWhiteSpace c = false))
  /\ (lowerAscii W ->
      isAscii (normalizedText m) ->
      Forall (fun c => isBidiControl c = false) (lowerTextOf W m)
      /\ (forall c s, lowerTextOf W m = c :: s -> isWhiteSpace c = false)
      /\ (forall c s, lowerTextOf W m = s ++ [c] -> isWhiteSpace c = false)).
Proof.
  assert (Clean : Forall (fun c => isBidiControl c = false) (normalizedText m)
                  /\ (forall c s, normalizedText m = c :: s -> isWhiteSpace c = false)
                  /\ (forall c s, normalizedText m = s ++ [c] -> isWhiteSpace c = false)).
  { unfold normalizedText.
    set (raw := orEmpty (orElse (conversation m)
                           (orElse (extendedText m) (messageText m)))).
    split; [|split].
    - destruct (trim_infix (stripBidi raw)) as (a & b & E).
      pose proof (stripBidi_clean raw) as H. rewrite E in H.
      apply Forall_app in H. destruct H as [_ H].
      apply Forall_app in H. apply H.
    - intros c s. apply trim_first.
    - intros c s. apply trim_last. }
  split; [exact Clean|].
  intros HW Ha. unfold lowerTextOf. rewrite (HW _ Ha).
  destruct Clean as (C1 & C2 & C3).
  split; [|split].
  - apply List.Forall_map. eapply List.Forall_impl; [|exact C1].
    cbv beta. intros c Hc. rewrite (proj1 (asciiLower_class c)). exact Hc.
  - intros c s E. destruct (normalizedText m) as [|c' s'] eqn:En; [discriminate E|].
    cbn [List.map] in E. injection E as <- _.
    rewrite (proj2 (asciiLower_class c')). eapply C2. reflexivity.
  - intros c s E. apply last_map_asciiLower in E. destruct E as (t' & c' & E & ->).
    rewrite (proj2 (asciiLower_class c')). eapply C3, E.
Qed.

(** X3, at a command wrapped in blanks. *)
Lemma normalized_text_clean_witness :
  let m := textMessage "5511@s.whatsapp.net" " @Tabela " in
  lowerTextOf (sampleWorld []) m = lit "@tabela"
  /\ Forall (fun c => isBidiControl c = false) (lowerTextOf (sampleWorld []) m).
Proof.
  intros m. split; [reflexivity|].
  refine (proj1 (proj2 (normalized_text_clean (sampleWorld []) m)
                   (fun s _ => eq_refl) _)).
  vm_compute. repeat constructor.
Defined.

(** X4.  Directional marks and white space around a command do not matter:
    when [conversation] is a text [body] that is already normal (no mark in
    it, no white space at its ends), wrapped in any number of marks and
    white space, the normalised text is [body]. *)
Theorem padding_ignored (m : Msg) (pre body post : jsstring) :
  conversation m = Some (pre ++ body ++ post) ->
  Forall (fun c => isPadding c = true) pre ->
  Forall (fun c => isPadding c = true) post ->
  body <> [] ->
  stripBidi body = body ->
  trim body = body ->
  normalizedText m = body.
Proof.
  intros Hc Hpre Hpost Hne Hs Ht. unfold normalizedText. rewrite Hc.
  assert (E : orEmpty (orElse (Some (pre ++ body ++ post))
                         (orElse (extendedText m) (messageText m)))
              = pre ++ body ++ post).
  { destruct (pre ++ body ++ post) as [|c l] eqn:E; [|reflexivity].
    apply app_eq_nil in E. destruct E as [_ E].
    apply app_eq_nil in E. destruct E as [E _]. contradiction. }
  rewrite E. unfold stripBidi. rewrite !List.filter_app.
  fold (stripBidi pre) (stripBidi body) (stripBidi post). rewrite Hs.
  apply trim_padding; auto using stripBidi_padding.
Qed.

(** X4, at ["@tabela"] between a left-to-right mark, spaces and a
    pop-directional-isolate. *)
Lemma padding_ignored_witness :
  normalizedText
    {| remoteJid := lit "5511@s.whatsapp.net"; fromMe := false;
       conversation := Some ([0x200e; 32]%N ++ lit "@tabela" ++ [32; 0x2069]%N);
       extendedText := None; messageText := None; imageMessage := false |}
  = lit "@tabela".
Proof.
  apply padding_ignored with (pre := [0x200e; 32]%N) (post := [32; 0x2069]%N).
  - reflexivity.
  - repeat (apply List.Forall_cons; [reflexivity|]). apply List.Forall_nil.
  - repeat (apply List.Forall_cons; [reflexivity|]). apply List.Forall_nil.
  - discriminate.
  - reflexivity.
  - reflexivity.
Defined.

Lemma route_empty (j : jsstring) : route j [] = None.
Proof. route_compute j. Qed.

Lemma invoked_tryEffects_prefix W s msg t hs :
  exists rest,
    hs = invoked (fst (tryEffects W s msg t hs)) ++ rest
    /\ (snd (tryEffects W s msg t hs) = true -> rest = []).
Proof.
  revert t. induction hs as [|h hs IH]; intros t; cbn [tryEffects].
  - exists []. split; reflexivity.
  - destruct (outcome W t); cbn [fst snd invoked].
    + destruct (IH (S t)) as (rest & E & Hr). exists rest. split; [|exact Hr].
      cbn [app]. f_equal. exact E.
    + exists hs. split; [reflexivity|discriminate].
Qed.

(** X5.  A message without text (a photo, a sticker, or only marks and
    white space) reaches no command handler in [src/telao3/index.js]: the
    handlers invoked are, in order, the anti-link scan, the receipt handler
    when the message carries an image and comes from a group, and the pix
    handler, up to the first of the last two that rejects; nothing is
    sent, and the variables are unchanged unless a handler rejected. *)
Theorem textless_message (W : World) (msg : Msg) (m : Machine Telao3.Vars) :
  lowerAscii W ->
  normalizedText msg = [] ->
  let r := Telao3.processMessage W msg m in
  let tr := newEffects m (snd r) in
  let plan :=
    [handleAntiLinkMessage]
    ++ (if imageMessage msg && endsWith (remoteJid msg) (lit "@g.us")
        then [handleComprovanteFoto] else [])
    ++ [handleMensagemPix] in
  (exists rest, plan = invoked tr ++ rest)
  /\ (faulted tr = false -> invoked tr = plan /\ vars (snd r) = vars m)
  /\ attempted tr = [].
Proof.
  intros HW Hn r tr plan. subst r tr plan.
  assert (Ht : lowerTextOf W msg = []).
  { unfold lowerTextOf. rewrite Hn. apply (HW []). constructor. }
  rewrite telao3_newEffects, telao3Effects_faulted, telao3Effects_attempted.
  rewrite telao3_processMessage. cbn [snd vars].
  unfold telao3Effects. rewrite !invoked_app, invoked_antiLink.
  assert (P : mainPlan W msg
              = (if imageMessage msg && endsWith (remoteJid msg) (lit "@g.us")
                 then [handleComprovanteFoto] else [])
                ++ [handleMensagemPix]).
  { unfold mainPlan. rewrite Ht, route_empty, app_nil_r. reflexivity. }
  rewrite <- P.
  destruct (invoked_tryEffects_prefix W (sock m) msg (S (tick m)) (mainPlan W msg))
    as (rest & E & Hr).
  destruct (snd (tryEffects W (sock m) msg (S (tick m)) (mainPlan W msg))) eqn:Es.
  - rewrite (Hr eq_refl), app_nil_r in E. cbn [invoked]. rewrite app_nil_r, <- E.
    split; [exists []; rewrite app_nil_r; reflexivity|]. split; [|reflexivity].
    intros _. split; reflexivity.
  - cbn [invoked negb]. rewrite app_nil_r.
    split; [|split; [discriminate|reflexivity]].
    exists rest. rewrite <- app_assoc. f_equal. exact E.
Qed.

(** X5, at a photo sent to a group, every handler resolving. *)
Lemma textless_message_witness :
  let r := Telao3.processMessage (sampleWorld []) photoMessage Telao3.initial in
  invoked (newEffects Telao3.initial (snd r))
  = [handleAntiLinkMessage; handleComprovanteFoto; handleMensagemPix]
  /\ vars (snd r) = vars Telao3.initial.
Proof.
  exact (proj1 (proj2 (textless_message (sampleWorld []) photoMessage Telao3.initial
                         (fun s _ => eq_refl) eq_refl)) eq_refl).
Defined.

(** ** The warm-up gate *)

Ltac light_done :=
  cbn [fst snd]; js_simpl;
  erewrite newEffects_app by (js_simpl; rewrite <- ?app_assoc; reflexivity);
  cbn [app commandCalls List.filter isCommandCall count isErrorReply length];
  rewrite ?eqb_warmup_erro; cbn [andb List.filter length];
  split; [reflexivity|];
  split;
    [ first [ exists true, true; reflexivity
            | exists false, true; reflexivity
            | exists false, false; reflexivity ]
    | split; reflexivity ].

Lemma supervised_light W (msg : Msg) (m : Machine Supervised.Vars) :
  imageMessage msg = false ->
  outcome W (S (tick m)) = true ->
  endsWith (remoteJid msg) (lit "@g.us") = true ->
  fst (Supervised.ensureGroupReady W (remoteJid msg) (snd (sideChannels W msg m)))
  = Normal false ->
  tabelaLike (lowerTextOf W msg) = true ->
  let r := Supervised.processMessage W msg m in
  let tr := newEffects m (snd r) in
  fst r = Normal tt
  /\ (exists ok ok2 : bool,
        commandCalls tr
        = EInvoke handleTabela true (sock m) msg ok
            :: (if ok then [] else [EInvoke handleTabela false (sock m) msg ok2]))
  /\ count (isErrorReply (remoteJid msg)) tr = 0%nat
  /\ Supervised.pendingMessages (vars (snd r)) = Supervised.pendingMessages (vars m).
Proof.
  intros Hi Hp Eg Hr Ht. unfold tabelaLike in Ht.
  unfold Supervised.processMessage. cbv zeta.
  rewrite (chain_is_route W (remoteJid msg) (lowerTextOf W msg) msg).
  rewrite Hi, Ht, Eg. cbn [andb].
  revert Hr. unfold sideChannels. js_unfold.
  destruct (outcome W (tick m)); js_simpl; rewrite Hp; js_simpl.
  all: match goal with
       | |- context [Supervised.ensureGroupReady ?w ?g ?m1] =>
           destruct (ensureGroupReady_spec w g m1) as (b & m2 & E & Hw);
           rewrite E; clear E; destruct Hw; try congruence
       end.
  all: cbn [fst negb]; intros Hr; try discriminate Hr.
  all: js_simpl; js_outcomes W; light_done.
Qed.

(** X6.  What the warm-up gate of the supervised script does to a message
    of a group for which [ensureGroupReady] answers false (no image, pix
    side channel resolving).  It never blocks a command: a text that is not
    served by the lightweight path is dispatched exactly as it is for a
    group that is ready.  For ["@tabela"] and the four shortcuts the
    tabela handler is called with the text-only flag, called again without
    it only if that call rejects, and nothing else is dispatched; whatever
    these calls do, [processMessage] completes normally and no error reply
    is sent or queued. *)
Theorem warmup_gate (W : World) (msg : Msg) (m : Machine Supervised.Vars) :
  imageMessage msg = false ->
  outcome W (S (tick m)) = true ->
  endsWith (remoteJid msg) (lit "@g.us") = true ->
  fst (Supervised.ensureGroupReady W (remoteJid msg) (snd (sideChannels W msg m)))
  = Normal false ->
  let t := lowerTextOf W msg in
  let r := Supervised.processMessage W msg m in
  let tr := newEffects m (snd r) in
  (tabelaLike t = false ->
   invoked tr
   = [handleAntiLinkMessage; handleMensagemPix]
     ++ match route (remoteJid msg) t with Some h => [h] | None => [] end)
  /\ (tabelaLike t = true ->
      fst r = Normal tt
      /\ (exists ok ok2 : bool,
            commandCalls tr
            = EInvoke handleTabela true (sock m) msg ok
                :: (if ok then [] else [EInvoke handleTabela false (sock m) msg ok2]))
      /\ count (isErrorReply (remoteJid msg)) tr = 0%nat
      /\ Supervised.pendingMessages (vars (snd r))
         = Supervised.pendingMessages (vars m)).
Proof.
  intros Hi Hp Eg Hr t r tr. split; intros Ht.
  - apply supervised_routed; assumption.
  - apply supervised_light; assumption.
Qed.

(** X6, at ["@ban 5511"] sent to a group whose warm-up failed seven seconds
    before: the ban handler is invoked all the same. *)
Lemma warmup_gate_witness :
  let msg := textMessage "120363@g.us" "@ban 5511" in
  invoked (newEffects coolingMachine
             (snd (Supervised.processMessage (sampleWorld []) msg coolingMachine)))
  = [handleAntiLinkMessage; handleMensagemPix; handleBan].
Proof.
  intros msg.
  assert (Hr : fst (Supervised.ensureGroupReady (sampleWorld []) (remoteJid msg)
                      (snd (sideChannels (sampleWorld []) msg coolingMachine)))
               = Normal false) by (vm_compute; reflexivity).
  exact (proj1 (warmup_gate (sampleWorld []) msg coolingMachine
                  eq_refl eq_refl eq_refl Hr) eq_refl).
Defined.

Ltac warm_done :=
  cbn [snd]; js_simpl;
  erewrite newEffects_app by (js_simpl; rewrite <- ?app_assoc; reflexivity);
  split; [cbn [app attempted]; eexists; reflexivity|];
  split;
    [ unfold lastAttempt; js_simpl; rewrite lookup_insert_eq; reflexivity
    | js_simpl; split; try reflexivity; try discriminate; try set_solver ].

(** X7.  In the supervised script a message without image whose pix side
    channel resolves, of a group that is not yet in [senderReadyGroups] and
    whose cooldown has elapsed, makes [processMessage] send the warm-up
    text to the group, whatever the message says (command or not), before
    anything else is sent; the clock reading is recorded, and the group
    becomes ready exactly when that send resolves. *)
Theorem any_group_message_warms_up (W : World) (msg : Msg) (m : Machine Supervised.Vars) :
  imageMessage msg = false ->
  outcome W (S (tick m)) = true ->
  endsWith (remoteJid msg) (lit "@g.us") = true ->
  remoteJid msg ∉ Supervised.senderReadyGroups (vars m) ->
  Supervised.SENDER_COOLDOWN_MS
    <= clock W (S (S (tick m))) - lastAttempt m (remoteJid msg) ->
  let r := Supervised.processMessage W msg m in
  let tr := newEffects m (snd r) in
  (exists rest, attempted tr = warmUpMessage (remoteJid msg) :: rest)
  /\ lastAttempt (snd r) (remoteJid msg) = clock W (S (S (tick m)))
  /\ (remoteJid msg ∈ Supervised.senderReadyGroups (vars (snd r))
      <-> outcome W (S (S (S (tick m)))) = true).
Proof.
  intros Hi Hp Eg Hn Hc. unfold lastAttempt in Hc.
  unfold Supervised.processMessage. cbv zeta.
  rewrite (chain_is_route W (remoteJid msg) (lowerTextOf W msg) msg).
  rewrite Hi, Eg. cbn [andb].
  destruct (route (remoteJid msg) (lowerTextOf W msg)) as [h|];
    destruct (eqb (lowerTextOf W msg) (lit "@tabela")
              || includes [lit ".t"; lit ".n"; lit ".i"; lit ".s"] (lowerTextOf W msg));
    destruct (Supervised.authReady (vars m)) eqn:Ea;
    js_unfold;
    destruct (outcome W (tick m)); js_simpl; rewrite Hp; js_simpl.
  all: match goal with
       | |- context [Supervised.ensureGroupReady ?w ?g ?m1] =>
           destruct (ensureGroupReady_spec w g m1) as (b & m2 & E & Hw);
           rewrite E; clear E; destruct Hw;
           cbn [vars sock authFolder tick trace] in *;
           try congruence; try contradiction; try lia
       end.
  all: cbn [negb];
    repeat match goal with
           | H : outcome ?w ?t = _ |- _ => rewrite H in *
           end;
    crunch W Ea; warm_done.
Qed.

(** X7, at a plain ["bom dia"] sent to a group the bot has not written to
    yet. *)
Lemma any_group_message_warms_up_witness :
  let msg := textMessage "120363@g.us" "bom dia" in
  exists rest,
    attempted (newEffects readyMachine
                 (snd (Supervised.processMessage (sampleWorld []) msg readyMachine)))
    = warmUpMessage (lit "120363@g.us") :: rest.
Proof.
  intros msg.
  assert (Hn : remoteJid msg ∉ Supervised.senderReadyGroups (vars readyMachine)).
  { change (lit "120363@g.us" ∉ (∅ : gset jsstring)). apply not_elem_of_empty. }
  assert (Hc : Supervised.SENDER_COOLDOWN_MS
               <= clock (sampleWorld []) (S (S (tick readyMachine)))
                  - lastAttempt readyMachine (remoteJid msg))
    by (vm_compute; discriminate).
  exact (proj1 (any_group_message_warms_up (sampleWorld []) msg readyMachine
                  eq_refl eq_refl eq_refl Hn Hc)).
Defined.

(** ** Runs of events *)

Lemma run_invariant {V} (handle : Event -> JS V unit) (P : Machine V -> Prop) :
  (forall e m, P m -> P (snd (handle e m))) ->
  forall es m, P m -> P (snd (run handle es m)).
Proof.
  intros Hstep es. induction es as [|e es IH]; intros m Hm; [exact Hm|].
  rewrite run_cons. specialize (Hstep e m Hm).
  destruct (handle e m) as [[[]| | |] m1]; cbn [snd] in *; auto.
Qed.

Ltac effects_done :=
  cbn [snd]; js_simpl;
  eexists; split; [rewrite <- ?app_assoc; reflexivity|];
  repeat (apply List.Forall_cons; [reflexivity|]); apply List.Forall_nil.

Lemma supervised_processMessage_effects W (msg : Msg) (m : Machine Supervised.Vars) :
  exists tr,
    trace (snd (Supervised.processMessage W msg m)) = trace m ++ tr
    /\ Forall (fun e => isMessageEffect e = true) tr.
Proof.
  unfold Supervised.processMessage. cbv zeta.
  rewrite (chain_is_route W (remoteJid msg) (lowerTextOf W msg) msg).
  destruct (route (remoteJid msg) (lowerTextOf W msg)) as [h|].
  all: destruct (Supervised.authReady (vars m)) eqn:Ea;
    destruct (imageMessage msg);
    destruct (endsWith (remoteJid msg) (lit "@g.us")) eqn:Eg;
    cbn [andb]; js_unfold; crunch W Ea;
    try effects_done.
  all: try match goal with
       | |- context [Supervised.ensureGroupReady ?w ?g ?m1] =>
           destruct (ensureGroupReady_spec w g m1) as (b & m2 & E & Hw);
           rewrite E; clear E; destruct Hw; try congruence
       end.
  all: cbn [negb]; crunch W Ea; try effects_done.
  all: try (match goal with
       | |- context [if eqb ?t ?l || includes ?a ?t then _ else _] =>
           destruct (eqb t l || includes a t)
       end; crunch W Ea; try effects_done).
Qed.

Lemma count_none (f : Effect -> bool) (tr : list Effect) :
  Forall (fun e => f e = false) tr -> count f tr = 0%nat.
Proof.
  unfold count. induction 1 as [|e tr He _ IH]; [reflexivity|].
  cbn [List.filter]. rewrite He. exact IH.
Qed.

Lemma messageEffect_not_exit (tr : list Effect) :
  Forall (fun e => isMessageEffect e = true) tr -> count isExit tr = 0%nat.
Proof.
  intros H. apply count_none. eapply List.Forall_impl; [|exact H].
  intros [] E; try reflexivity; discriminate.
Qed.

Lemma flushEffects_messageEffects W s t q :
  Forall (fun e => isMessageEffect e = true) (flushEffects W s t q).
Proof.
  revert t. induction q as [|p q IH]; intros t; cbn [flushEffects]; [constructor|].
  constructor; [reflexivity|]. apply Forall_app. split; [|apply IH].
  destruct (outcome W t); repeat constructor.
Qed.

Lemma telao3Effects_messageEffects W msg m :
  Forall (fun e => isMessageEffect e = true) (telao3Effects W msg m).
Proof.
  unfold telao3Effects, antiLinkEffects. rewrite !Forall_app. split; [|split].
  - destruct (outcome W (tick m)); repeat constructor.
  - generalize (S (tick m)). induction (mainPlan W msg) as [|h hs IH]; intros t;
      cbn [tryEffects]; [constructor|].
    destruct (outcome W t); cbn [fst]; repeat constructor. apply IH.
  - destruct (snd _); repeat constructor.
Qed.

(** The new effects of a ["messages.upsert"] event are message effects. *)
Lemma supervised_upsert_effects W ms (m : Machine Supervised.Vars) :
  exists tr,
    trace (snd (Supervised.messages_upsert W ms m)) = trace m ++ tr
    /\ Forall (fun e => isMessageEffect e = true) tr.
Proof.
  destruct ms as [[|msg rest]|];
    try (exists []; split; [symmetry; apply app_nil_r|constructor]).
  rewrite supervised_upsert_cons.
  destruct (fromMe msg);
    [exists []; split; [symmetry; apply app_nil_r|constructor]|].
  destruct (Supervised.authReady (vars m)).
  - apply supervised_processMessage_effects.
  - exists []. split; [symmetry; apply app_nil_r|constructor].
Qed.

Lemma telao3_upsert_effects W ms (m : Machine Telao3.Vars) :
  exists tr,
    trace (snd (Telao3.messages_upsert W ms m)) = trace m ++ tr
    /\ Forall (fun e => isMessageEffect e = true) tr.
Proof.
  destruct ms as [[|msg rest]|];
    try (exists []; split; [symmetry; apply app_nil_r|constructor]).
  rewrite telao3_upsert_cons.
  destruct (fromMe msg);
    [exists []; split; [symmetry; apply app_nil_r|constructor]|].
  destruct (Telao3.authReady (vars m)).
  - exists (telao3Effects W msg m). rewrite telao3_processMessage.
    split; [reflexivity|apply telao3Effects_messageEffects].
  - exists []. split; [symmetry; apply app_nil_r|constructor].
Qed.

Lemma scanEffects_not_exit W sent t u : count isExit (scanEffects W sent t u) = 0%nat.
Proof. apply count_scanEffects. auto. Qed.

(** How one event completes in the supervised script. *)
Lemma supervised_handle_completion W (e : Event) (m : Machine Supervised.Vars) :
  exists tr,
    trace (snd (SupervisedRun.handle W e m)) = trace m ++ tr
    /\ ((fst (SupervisedRun.handle W e m) = Normal tt /\ count isExit tr = 0%nat)
        \/ (fst (SupervisedRun.handle W e m) = Halt
            /\ isLostConnection e
            /\ exists pre, tr = pre ++ [EExit 1] /\ count isExit pre = 0%nat)).
Proof.
  destruct e as [|u|ms]; cbn [SupervisedRun.handle].
  - destruct (supervised_iniciarBot W m) as (f & ->). cbn [fst snd trace].
    eexists. split; [reflexivity|]. left. split; reflexivity.
  - destruct (connection u) as [[| | |]|] eqn:Hc.
    + rewrite supervised_close by assumption.
      destruct (motivo u =? DisconnectReason_loggedOut) eqn:Hm;
        [|destruct (_ >? _)]; cbn [fst snd trace];
        (eexists; split; [reflexivity|]).
      * left. split; [reflexivity|].
        rewrite count_app, scanEffects_not_exit. reflexivity.
      * right. split; [reflexivity|]. split.
        { split; [assumption|]. apply Z.eqb_neq, Hm. }
        eexists. split; [reflexivity|apply scanEffects_not_exit].
      * left. split; [reflexivity|].
        rewrite count_app, scanEffects_not_exit. reflexivity.
    + rewrite supervised_open by assumption. cbn [fst snd trace].
      eexists. split; [reflexivity|]. left. split; [reflexivity|].
      rewrite !count_app,
        (messageEffect_not_exit _ (flushEffects_messageEffects W _ _ _)).
      destruct (scanRuns _ u) as [q|]; [|reflexivity].
      unfold qrEffects. destruct (outcome W (tick m)); reflexivity.
    + rewrite supervised_idle by congruence. cbn [fst snd trace].
      eexists. split; [reflexivity|]. left. split; [reflexivity|].
      apply scanEffects_not_exit.
    + rewrite supervised_idle by congruence. cbn [fst snd trace].
      eexists. split; [reflexivity|]. left. split; [reflexivity|].
      apply scanEffects_not_exit.
    + rewrite supervised_idle by congruence. cbn [fst snd trace].
      eexists. split; [reflexivity|]. left. split; [reflexivity|].
      apply scanEffects_not_exit.
  - destruct (supervised_upsert_effects W ms m) as (tr & T & F).
    exists tr. split; [exact T|]. left.
    split; [apply supervised_upsert_normal|apply messageEffect_not_exit, F].
Qed.

(** X8.  Whatever events the supervised script is given, a run of its
    listeners either completes normally, without any call of
    [process.exit], or ends the process with exit code 1 as its last effect
    and with no other exit before; no listener ever throws.  The process
    can only end on a closure that is not a logout. *)
Theorem supervised_run_completion (W : World) (es : list Event)
    (m : Machine Supervised.Vars) :
  let r := run (SupervisedRun.handle W) es m in
  let tr := newEffects m (snd r) in
  (fst r = Normal tt /\ count isExit tr = 0%nat)
  \/ (fst r = Halt
      /\ (exists pre, tr = pre ++ [EExit 1] /\ count isExit pre = 0%nat)
      /\ Exists isLostConnection es).
Proof.
  cbv zeta.
  assert (K : forall es m,
             exists tr,
               trace (snd (run (SupervisedRun.handle W) es m)) = trace m ++ tr
               /\ ((fst (run (SupervisedRun.handle W) es m) = Normal tt
                    /\ count isExit tr = 0%nat)
                   \/ (fst (run (SupervisedRun.handle W) es m) = Halt
                       /\ (exists pre, tr = pre ++ [EExit 1] /\ count isExit pre = 0%nat)
                       /\ Exists isLostConnection es))).
  { clear es m. induction es as [|e es IH]; intros m.
    - exists []. cbn. rewrite app_nil_r. auto.
    - rewrite run_cons.
      destruct (supervised_handle_completion W e m)
        as (tr1 & T1 & [[N1 X1]|(H1 & L1 & pre & -> & X1)]).
      + destruct (SupervisedRun.handle W e m) as [c m1]. cbn [fst snd] in *. subst c.
        destruct (IH m1) as (tr2 & T2 & [[N2 X2]|(H2 & (pre & -> & X2) & L2)]).
        * exists (tr1 ++ tr2). split; [rewrite T2, T1, app_assoc; reflexivity|].
          left. split; [assumption|]. rewrite count_app, X1, X2. reflexivity.
        * exists (tr1 ++ pre ++ [EExit 1]).
          split; [rewrite T2, T1, <- !app_assoc; reflexivity|].
          right. split; [assumption|]. split; [|apply Exists_cons_tl, L2].
          exists (tr1 ++ pre). split; [rewrite app_assoc; reflexivity|].
          rewrite count_app, X1, X2. reflexivity.
      + destruct (SupervisedRun.handle W e m) as [c m1]. cbn [fst snd] in *. subst c.
        exists (pre ++ [EExit 1]). split; [assumption|].
        right. split; [reflexivity|]. split; [eauto|apply Exists_cons_hd, L1]. }
  destruct (K es m) as (tr & T & H).
  rewrite (newEffects_app _ _ _ T). exact H.
Qed.

Lemma supervised_handle_attempts W (e : Event) (m : Machine Supervised.Vars) :
  0 <= Supervised.reconnectAttempts (vars m) <= Supervised.MAX_RECONNECT_ATTEMPTS ->
  let r := SupervisedRun.handle W e m in
  0 <= Supervised.reconnectAttempts (vars (snd r)) <= Supervised.MAX_RECONNECT_ATTEMPTS + 1
  /\ (fst r = Normal tt ->
      Supervised.reconnectAttempts (vars (snd r)) <= Supervised.MAX_RECONNECT_ATTEMPTS).
Proof.
  intros Ha r. subst r. unfold Supervised.MAX_RECONNECT_ATTEMPTS in *.
  destruct e as [|u|ms]; cbn [SupervisedRun.handle].
  - destruct (supervised_iniciarBot W m) as (f & ->).
    cbn [fst snd vars Supervised.reconnectAttempts].
    destruct (Supervised.authReady (vars m)); lia.
  - assert (Hn : 1 <= attemptsAtClose m u <= 11)
      by (unfold attemptsAtClose; destruct (scanRuns _ u); lia).
    destruct (connection u) as [[| | |]|] eqn:Hc.
    + rewrite supervised_close by assumption.
      unfold Supervised.MAX_RECONNECT_ATTEMPTS.
      destruct (motivo u =? DisconnectReason_loggedOut);
        [|destruct (Z.gtb_spec (attemptsAtClose m u) 10)];
        cbn [fst snd vars Supervised.reconnectAttempts];
        split; try lia; try discriminate; intros _; lia.
    + rewrite supervised_open by assumption.
      cbn [fst snd vars Supervised.reconnectAttempts]. lia.
    + rewrite supervised_idle by congruence.
      cbn [fst snd vars Supervised.reconnectAttempts].
      unfold attemptsAtClose in *. destruct (scanRuns _ u); lia.
    + rewrite supervised_idle by congruence.
      cbn [fst snd vars Supervised.reconnectAttempts].
      unfold attemptsAtClose in *. destruct (scanRuns _ u); lia.
    + rewrite supervised_idle by congruence.
      cbn [fst snd vars Supervised.reconnectAttempts].
      unfold attemptsAtClose in *. destruct (scanRuns _ u); lia.
  - assert (E : Supervised.reconnectAttempts (vars (snd (Supervised.messages_upsert W ms m)))
                = Supervised.reconnectAttempts (vars m)).
    { destruct ms as [[|msg rest]|]; try reflexivity.
      rewrite supervised_upsert_cons.
      destruct (fromMe msg); [reflexivity|].
      destruct (Supervised.authReady (vars m)); [|reflexivity].
      destruct (supervised_processMessage W msg m) as (m' & tr & -> & P).
      apply P. }
    rewrite E. lia.
Qed.

(** X9.  The attempt counter of the supervised script stays within
    [0 .. MAX_RECONNECT_ATTEMPTS] for as long as the process runs, whatever
    the events, and is [MAX_RECONNECT_ATTEMPTS + 1] at most when the
    process ends: the power [1.5^(reconnectAttempts - 1)] is never taken
    beyond the exponent 10. *)
Theorem attempts_bounded (W : World) (es : list Event) (m : Machine Supervised.Vars) :
  0 <= Supervised.reconnectAttempts (vars m) <= Supervised.MAX_RECONNECT_ATTEMPTS ->
  let r := run (SupervisedRun.handle W) es m in
  0 <= Supervised.reconnectAttempts (vars (snd r)) <= Supervised.MAX_RECONNECT_ATTEMPTS + 1
  /\ (fst r = Normal tt ->
      Supervised.reconnectAttempts (vars (snd r)) <= Supervised.MAX_RECONNECT_ATTEMPTS).
Proof.
  revert m. induction es as [|e es IH]; intros m Ha.
  - cbn. split; [lia|]. intros _. lia.
  - cbv zeta. rewrite run_cons.
    pose proof (supervised_handle_attempts W e m Ha) as S. cbv zeta in S.
    destruct (SupervisedRun.handle W e m) as [[[]| | |] m1]; cbn [fst snd] in *;
      try (split; [apply S|discriminate]).
    apply IH. split; [apply S|apply S; reflexivity].
Qed.

(** X9, at three lost connections, each followed by its restart, and a
    message. *)
Lemma attempts_bounded_witness :
  let r := run (SupervisedRun.handle (sampleWorld []))
             (retryCycles [lostUpdate; lostUpdate; lostUpdate]
              ++ [EvMessages (Some [textMessage "5511@s.whatsapp.net" "@tabela"])])
             Supervised.initial in
  Supervised.reconnectAttempts (vars (snd r)) <= Supervised.MAX_RECONNECT_ATTEMPTS.
Proof.
  refine (proj2 (attempts_bounded (sampleWorld []) _ Supervised.initial _) _).
  - vm_compute. split; discriminate.
  - vm_compute. reflexivity.
Defined.

(** ** Hydration of the credential folder *)

Lemma writeDownloaded_lookup_other (data : list (string * option string))
    (d : gmap string string) (name : string) :
  (forall buffer, ~ In (name, Some buffer) data) ->
  writeDownloaded data d !! name = d !! name.
Proof.
  revert d. induction data as [|[n [b|]] data IH]; intros d H; cbn [writeDownloaded].
  - reflexivity.
  - rewrite IH by (intros b' Hb; apply (H b'); right; exact Hb).
    apply lookup_insert_ne. intros <-. apply (H b). left. reflexivity.
  - apply IH. intros b' Hb. apply (H b'). right. exact Hb.
Qed.

Lemma writeDownloaded_lookup (data : list (string * option string))
    (d : gmap string string) (name buffer : string) :
  List.NoDup (List.map fst data) ->
  In (name, Some buffer) data ->
  writeDownloaded data d !! name = Some buffer.
Proof.
  revert d. induction data as [|[n [b|]] data IH]; intros d Hn Hin;
    cbn [writeDownloaded]; [destruct Hin| |];
    cbn [List.map fst] in Hn; apply List.NoDup_cons_iff in Hn; destruct Hn as [Hn1 Hn2].
  - destruct Hin as [[= -> ->]|Hin]; [|apply IH; assumption].
    rewrite writeDownloaded_lookup_other; [apply lookup_insert_eq|].
    intros b' Hb. apply Hn1. apply (List.in_map fst) in Hb. exact Hb.
  - destruct Hin as [[=]|Hin]. apply IH; assumption.
Qed.

Lemma telao3_downloads {V} (data : list (string * option string))
    (d : gmap string string) (m : Machine V) :
  authFolder m = Some d ->
  forOf data (fun file =>
    tryCatch
      (match snd file with
       | None => fun m => (Throw, m)
       | Some buffer => writeFileSync (fst file) buffer
       end)
      (emit (ELog LogDownloadFailed))) m
  = (Normal tt,
     {| vars := vars m; sock := sock m;
        authFolder := Some (writeDownloaded data d);
        tick := tick m;
        trace := trace m
                 ++ repeat (ELog LogDownloadFailed)
                      (length (List.filter downloadFailed data)) |}).
Proof.
  revert d m. induction data as [|[name [buffer|]] data IH]; intros d m E.
  - cbn. rewrite app_nil_r, <- E. destruct m; reflexivity.
  - cbn [forOf snd fst]. unfold bind at 1, tryCatch at 1.
    rewrite (writeFileSync_some name buffer d m E).
    rewrite (IH (<[name := buffer]> d)) by reflexivity. reflexivity.
  - cbn [forOf snd fst]. unfold bind at 1, tryCatch at 1, emit at 1.
    rewrite (IH d) by exact E.
    cbn [vars sock authFolder tick trace writeDownloaded List.filter downloadFailed
         snd length repeat].
    rewrite <- app_assoc. reflexivity.
Qed.

(** [syncAuthFromSupabase] of [src/telao3/index.js], in closed form. *)
Lemma telao3_sync W (m : Machine Telao3.Vars) :
  Telao3.syncAuthFromSupabase W m
  = (Normal tt,
     {| vars := vars m; sock := sock m;
        authFolder :=
          Some match bucket W (tick m) with
               | None => localFiles m
               | Some data => writeDownloaded data (localFiles m)
               end;
        tick := S (tick m);
        trace := trace m
                 ++ match bucket W (tick m) with
                    | None => [ELog LogListFailed]
                    | Some data =>
                        repeat (ELog LogDownloadFailed)
                          (length (List.filter downloadFailed data))
                    end |}).
Proof.
  unfold Telao3.syncAuthFromSupabase, function, localFiles.
  unfold bind at 1. unfold mkdirIfMissing, bind at 1, getAuthFolder.
  destruct (authFolder m) as [d|] eqn:E; cbn [default].
  - unfold ret at 1. unfold bind at 1, takeTick. cbn [tick].
    destruct (bucket W (tick m)) as [data|].
    + rewrite (telao3_downloads data d) by exact E. reflexivity.
    + unfold bind, emit, returnJS. cbn [vars sock authFolder tick trace].
      rewrite E. reflexivity.
  - unfold setAuthFolder at 1. unfold bind at 1, takeTick.
    cbn [vars sock authFolder tick trace].
    destruct (bucket W (tick m)) as [data|].
    + rewrite (telao3_downloads data ∅) by reflexivity. reflexivity.
    + reflexivity.
Qed.

Lemma count_repeat_log (n : nat) :
  count isDownloadFailedLog (repeat (ELog LogDownloadFailed) n) = n.
Proof. unfold count. induction n as [|n IH]; cbn; [|rewrite IH]; reflexivity. Qed.

(** X10.  [syncAuthFromSupabase] of [src/telao3/index.js] never throws and
    changes nothing but the credential folder, which exists afterwards.
    When the listing fails the local files are kept as they are.
    Otherwise every listed file whose download succeeds is written over
    the local one, a failed download is logged and skipped without
    stopping the others, and a local file that was not downloaded
    (absent from the listing, or its download failed) is kept. *)
Theorem telao3_hydration (W : World) (m : Machine Telao3.Vars) :
  let r := Telao3.syncAuthFromSupabase W m in
  fst r = Normal tt
  /\ vars (snd r) = vars m
  /\ sock (snd r) = sock m
  /\ exists d',
      authFolder (snd r) = Some d'
      /\ (bucket W (tick m) = None ->
          d' = localFiles m /\ newEffects m (snd r) = [ELog LogListFailed])
      /\ (forall data,
            bucket W (tick m) = Some data ->
            (forall name buffer,
                List.NoDup (List.map fst data) ->
                In (name, Some buffer) data -> d' !! name = Some buffer)
            /\ (forall name,
                   (forall buffer, ~ In (name, Some buffer) data) ->
                   d' !! name = localFiles m !! name)
            /\ count isDownloadFailedLog (newEffects m (snd r))
               = length (List.filter downloadFailed data)).
Proof.
  cbv zeta. rewrite telao3_sync. cbn [fst snd vars sock authFolder].
  split; [reflexivity|]. split; [reflexivity|]. split; [reflexivity|].
  eexists. split; [reflexivity|].
  erewrite newEffects_app by reflexivity.
  destruct (bucket W (tick m)) as [data|]; split; try discriminate.
  - intros data' [= <-]. split; [|split].
    + intros name buffer. apply writeDownloaded_lookup.
    + intros name. apply writeDownloaded_lookup_other.
    + apply count_repeat_log.
  - intros _. split; reflexivity.
Qed.

(** X10, at a bucket of two files of which the second cannot be
    downloaded, and a local folder that holds an older copy of it. *)
Lemma telao3_hydration_witness :
  let W := bucketWorld [("creds.json", Some "{new}"); ("keys.json", None)]%string in
  let m := withFolder (Some {[ "keys.json"%string := "{old}"%string ]}) Telao3.initial in
  exists d',
    authFolder (snd (Telao3.syncAuthFromSupabase W m)) = Some d'
    /\ d' !! "creds.json"%string = Some "{new}"%string
    /\ d' !! "keys.json"%string = Some "{old}"%string.
Proof.
  intros W m.
  destruct (telao3_hydration W m) as (_ & _ & _ & d' & E & _ & H).
  destruct (H _ eq_refl) as (H1 & H2 & _).
  exists d'. split; [exact E|]. split.
  - apply H1; [|left; reflexivity].
    repeat constructor; cbn; intuition discriminate.
  - rewrite H2; [reflexivity|].
    intros buffer [[=]|[[=]|[]]].
Defined.

Lemma supervised_downloads {V} (data : list (string * option string))
    (d : gmap string string) (m : Machine V) :
  authFolder m = Some d ->
  exists f,
    forOf data (fun file =>
      match snd file with
      | None => fun m => (Throw, m)
      | Some buffer => writeFileSync (fst file) buffer
      end) m
    = (if existsb downloadFailed data then Throw else Normal tt,
       withFolder (Some f) m)
    /\ (existsb downloadFailed data = false -> f = writeDownloaded data d).
Proof.
  revert d m. induction data as [|[name [buffer|]] data IH]; intros d m E.
  - exists d. cbn. rewrite (withFolder_same d m E). auto.
  - cbn [forOf snd fst existsb downloadFailed orb writeDownloaded]. unfold bind at 1.
    rewrite (writeFileSync_some name buffer d m E).
    destruct (IH (<[name := buffer]> d) (withFolder (Some (<[name := buffer]> d)) m))
      as (f & -> & Hf); [reflexivity|].
    exists f. split; [reflexivity|exact Hf].
  - exists d. cbn [forOf snd fst existsb downloadFailed orb]. unfold bind at 1.
    rewrite (withFolder_same d m E). split; [reflexivity|discriminate].
Qed.

(** [syncAuthFromSupabase] of the supervised script, in closed form. *)
Lemma supervised_sync_closed W (m : Machine Supervised.Vars) :
  let answer : bool * gmap string string :=
    match bucket W (tick m) with
    | None => (false, ∅)
    | Some [] => (false, localFiles m)
    | Some data =>
        if existsb downloadFailed data then (false, ∅)
        else (true, writeDownloaded data (localFiles m))
    end in
  Supervised.syncAuthFromSupabase W m
  = (Normal (fst answer),
     {| vars := vars m; sock := sock m; authFolder := Some (snd answer);
        tick := S (tick m); trace := trace m |}).
Proof.
  cbv zeta.
  assert (K : forall (m1 : Machine Supervised.Vars) (d : gmap string string),
             authFolder m1 = Some d ->
             tryCatch
               (t <- takeTick ;;
                match bucket W t with
                | None => fun m => (Throw, m)
                | Some [] => ret false
                | Some data =>
                    forOf data (fun file =>
                      match snd file with
                      | None => fun m => (Throw, m)
                      | Some buffer => writeFileSync (fst file) buffer
                      end) ;;
                    ret true
                end)
               (setAuthFolder (Some ∅) ;; ret false) m1
             = (Normal (fst match bucket W (tick m1) with
                            | None => (false, ∅)
                            | Some [] => (false, d)
                            | Some data =>
                                if existsb downloadFailed data then (false, ∅)
                                else (true, writeDownloaded data d)
                            end),
                {| vars := vars m1; sock := sock m1;
                   authFolder :=
                     Some (snd match bucket W (tick m1) with
                               | None => (false, ∅)
                               | Some [] => (false, d)
                               | Some data =>
                                   if existsb downloadFailed data then (false, ∅)
                                   else (true, writeDownloaded data d)
                               end);
                   tick := S (tick m1); trace := trace m1 |})).
  { intros m1 d E. unfold tryCatch, bind at 1 3, takeTick, setAuthFolder, ret.
    cbn [vars sock authFolder tick trace].
    destruct (bucket W (tick m1)) as [[|p l]|]; cbn [fst snd].
    - rewrite E. reflexivity.
    - unfold bind.
      match goal with
      | |- context [forOf (p :: l) ?body ?m2] =>
          destruct (supervised_downloads (p :: l) d m2) as (f & -> & Hf);
            [cbn [authFolder]; exact E|]
      end.
      destruct (existsb downloadFailed (p :: l)); cbn [fst snd].
      + reflexivity.
      + rewrite (Hf eq_refl). reflexivity.
    - reflexivity. }
  unfold Supervised.syncAuthFromSupabase, localFiles. unfold bind at 1.
  unfold mkdirIfMissing, bind, getAuthFolder, setAuthFolder, ret.
  destruct (authFolder m) as [d|] eqn:E; cbn [default].
  - apply K, E.
  - rewrite (K _ ∅) by reflexivity. reflexivity.
Qed.

Lemma existsb_downloadFailed (data : list (string * option string)) :
  existsb downloadFailed data = false <-> Forall (fun file => snd file <> None) data.
Proof.
  induction data as [|[name [buffer|]] data IH]; cbn [existsb downloadFailed snd orb].
  - split; [constructor|reflexivity].
  - rewrite IH. split; [constructor; [discriminate|assumption]|].
    intros H. inversion H. assumption.
  - split; [discriminate|]. intros H. inversion H. cbn in *. congruence.
Qed.

(** X11.  [syncAuthFromSupabase] of the supervised script never throws,
    changes nothing but the credential folder and leaves a folder behind.
    It answers true exactly when the listing succeeds, is not empty and
    every download succeeds; the folder then holds the downloaded files
    written over the local ones.  On an empty listing the local files are
    kept.  On any failure, of the listing or of a single download, the
    folder is left empty: the files that were there before and those
    already downloaded are all removed. *)
Theorem supervised_hydration (W : World) (m : Machine Supervised.Vars) :
  exists (b : bool) (f : gmap string string),
    Supervised.syncAuthFromSupabase W m
    = (Normal b,
       {| vars := vars m; sock := sock m; authFolder := Some f;
          tick := S (tick m); trace := trace m |})
    /\ (b = true
        <-> exists data,
              bucket W (tick m) = Some data /\ data <> []
              /\ Forall (fun file => snd file <> None) data)
    /\ (forall data,
          b = true -> bucket W (tick m) = Some data ->
          f = writeDownloaded data (localFiles m))
    /\ (bucket W (tick m) = Some [] -> f = localFiles m)
    /\ (b = false -> bucket W (tick m) <> Some [] -> f = ∅).
Proof.
  pose proof (supervised_sync_closed W m) as C. cbv zeta in C.
  do 2 eexists. split; [exact C|].
  destruct (bucket W (tick m)) as [[|p l]|]; cbn [fst snd].
  - split; [|split; [|split]]; try discriminate; try reflexivity.
    + split; [discriminate|]. intros (data & [= <-] & Hne & _). contradiction.
    + intros _ H. contradiction.
  - destruct (existsb downloadFailed (p :: l)) eqn:E; cbn [fst snd].
    + split; [|split; [|split]]; try discriminate; try reflexivity.
      split; [discriminate|]. intros (data & [= <-] & _ & H).
      apply existsb_downloadFailed in H. congruence.
    + split; [|split; [|split]]; try discriminate.
      * split; [|reflexivity]. intros _. exists (p :: l).
        split; [reflexivity|]. split; [discriminate|].
        apply existsb_downloadFailed, E.
      * intros data _ [= <-]. reflexivity.
  - split; [|split; [|split]]; try discriminate; try reflexivity.
    split; [discriminate|]. intros (data & [=] & _).
Qed.

(** X11, at a bucket whose second file cannot be downloaded: the local
    credentials are gone. *)
Lemma supervised_hydration_witness :
  let W := bucketWorld [("creds.json", Some "{new}"); ("keys.json", None)]%string in
  exists b f,
    Supervised.syncAuthFromSupabase W supervisedWithCreds
    = (Normal b,
       {| vars := vars supervisedWithCreds; sock := 1%nat; authFolder := Some f;
          tick := 1%nat; trace := [] |})
    /\ f = ∅.
Proof.
  intros W.
  destruct (supervised_hydration W supervisedWithCreds) as (b & f & E & Hb & _ & _ & Hf).
  exists b, f. split; [exact E|].
  apply Hf; [|discriminate].
  destruct b; [|reflexivity].
  destruct (proj1 Hb eq_refl) as (data & [= <-] & _ & H).
  inversion H as [|x l _ H2]. inversion H2 as [|y l' H3 _]. cbn in H3. congruence.
Defined.

(** [iniciarBot] of the supervised script, with the folder it leaves. *)
Lemma supervised_iniciarBot_folder W (m : Machine Supervised.Vars) :
  let answer : bool * gmap string string :=
    match bucket W (tick m) with
    | None => (false, ∅)
    | Some [] => (false, localFiles m)
    | Some data =>
        if existsb downloadFailed data then (false, ∅)
        else (true, writeDownloaded data (localFiles m))
    end in
  Supervised.iniciarBot W m
  = (Normal tt,
     {| vars :=
          {| Supervised.pendingMessages := Supervised.pendingMessages (vars m);
             Supervised.authReady := Supervised.authReady (vars m);
             Supervised.qrSent := false;
             Supervised.reconnectAttempts :=
               if Supervised.authReady (vars m) then 0
               else Supervised.reconnectAttempts (vars m);
             Supervised.senderReadyGroups := ∅;
             Supervised.senderAttemptAt := ∅ |};
        sock := S (sock m); authFolder := Some (snd answer);
        tick := S (tick m);
        trace := trace m ++ [ESocket (S (sock m))] |}).
Proof.
  cbv zeta.
  unfold Supervised.iniciarBot, function. unfold bind at 1 2 3, getVars.
  destruct m as [[q a s c r l] k fo t tr]. js_simpl.
  destruct a.
  - unfold modify at 1. js_simpl.
    match goal with
    | |- context [Supervised.syncAuthFromSupabase W ?m1] =>
        pose proof (supervised_sync_closed W m1) as C; cbv zeta in C; rewrite C; clear C
    end.
    reflexivity.
  - unfold ret at 1.
    match goal with
    | |- context [Supervised.syncAuthFromSupabase W ?m1] =>
        pose proof (supervised_sync_closed W m1) as C; cbv zeta in C; rewrite C; clear C
    end.
    reflexivity.
Qed.

(** X12.  In the supervised script the credentials dropped at a logout
    closure come back at the restart that the closure schedules, whenever
    the bucket still lists them and every download succeeds: the folder
    is gone after the closure, and after the restart it holds exactly the
    files of the bucket. *)
Theorem logout_then_restart (W : World) (u : Update) (m : Machine Supervised.Vars)
    (data : list (string * option string)) :
  connection u = Some ConnClose ->
  motivo u = DisconnectReason_loggedOut ->
  bucket W (tick m + ticksOfGuardedScan (Supervised.qrSent (vars m)) u)%nat = Some data ->
  data <> [] ->
  Forall (fun file => snd file <> None) data ->
  let r := run (SupervisedRun.handle W) [EvConnection u; EvStart] m in
  fst r = Normal tt
  /\ authFolder (snd (Supervised.connection_update W u m)) = None
  /\ authFolder (snd r) = Some (writeDownloaded data ∅)
  /\ sock (snd r) = S (sock m)
  /\ Supervised.qrSent (vars (snd r)) = false.
Proof.
  intros Hc Hm Hb Hne Hd. apply Z.eqb_eq in Hm. cbv zeta.
  rewrite run_cons. cbn [SupervisedRun.handle].
  rewrite supervised_close by assumption. rewrite Hm. cbv iota beta.
  rewrite run_cons. cbn [SupervisedRun.handle].
  match goal with
  | |- context [Supervised.iniciarBot W ?m1] =>
      pose proof (supervised_iniciarBot_folder W m1) as C; cbv zeta in C; rewrite C; clear C
  end.
  cbn [fst snd vars sock authFolder tick Supervised.qrSent]. rewrite Hb.
  apply existsb_downloadFailed in Hd. rewrite Hd.
  destruct data as [|p l]; [contradiction|].
  cbn [fst snd]. unfold localFiles. cbn [authFolder default].
  repeat split.
Qed.

(** X12, at a logout of a session whose two credential files are still in
    the bucket. *)
Lemma logout_then_restart_witness :
  let data := [("creds.json", Some "{}"); ("keys.json", Some "[]")]%string in
  let r := run (SupervisedRun.handle (bucketWorld data))
             [EvConnection loggedOutUpdate; EvStart] supervisedWithCreds in
  authFolder (snd r) = Some (writeDownloaded data ∅).
Proof.
  intros data.
  refine (proj1 (proj2 (proj2 (logout_then_restart (bucketWorld data) loggedOutUpdate
                                 supervisedWithCreds data eq_refl eq_refl eq_refl _ _)))).
  - discriminate.
  - repeat constructor; discriminate.
Defined.

(** ** Invariants of runs *)

(** [iniciarBot] of [src/telao3/index.js], in closed form. *)
Lemma telao3_iniciarBot W (m : Machine Telao3.Vars) :
  exists f logs,
    Telao3.iniciarBot W m
    = (Normal tt,
       {| vars := vars m; sock := S (sock m); authFolder := Some f;
          tick := S (tick m);
          trace := trace m ++ logs ++ [ESocket (S (sock m))] |})
    /\ Forall (fun e => isMessageEffect e = true) logs
    /\ scheduled logs = [].
Proof.
  unfold Telao3.iniciarBot, function. unfold bind at 1.
  rewrite telao3_sync. js_unfold.
  do 2 eexists. split; [rewrite <- app_assoc; reflexivity|].
  destruct (bucket W (tick m)) as [data|]; [|split; repeat constructor].
  induction (length (List.filter downloadFailed data)) as [|n [IH1 IH2]];
    cbn [repeat]; split; try constructor; auto.
Qed.

(** An update that neither closes nor opens the session, in
    [src/telao3/index.js]. *)
Lemma telao3_idle W (u : Update) (m : Machine Telao3.Vars) :
  connection u <> Some ConnClose ->
  connection u <> Some ConnOpen ->
  Telao3.connection_update W u m
  = (Normal tt,
     {| vars := vars m; sock := sock m; authFolder := authFolder m;
        tick := (tick m + ticksOfScan u)%nat;
        trace := trace m
                 ++ match truthy (qr u) with
                    | Some q => qrEffects W (tick m) q
                    | None => []
                    end |}).
Proof.
  intros Hc Ho. unfold Telao3.connection_update, ticksOfScan, qrEffects.
  destruct (connection u) as [[| | |]|]; try contradiction;
    destruct (truthy (qr u)) as [x|]; js_unfold; js_outcomes W;
    rewrite <- ?app_assoc, ?Nat.add_1_r, ?Nat.add_0_r, ?app_nil_r;
    destruct m; reflexivity.
Qed.

Lemma telao3_handle_ready W (e : Event) (m : Machine Telao3.Vars) :
  Telao3.authReady (vars m) = true ->
  Telao3.authReady (vars (snd (Telao3Run.handle W e m))) = true.
Proof.
  intros Hr. destruct e as [|u|ms]; cbn [Telao3Run.handle].
  - destruct (telao3_iniciarBot W m) as (f & logs & -> & _). exact Hr.
  - destruct (connection u) as [[| | |]|] eqn:Hc.
    + rewrite telao3_close by assumption. destruct (motivo u =? _); exact Hr.
    + rewrite telao3_open by assumption. reflexivity.
    + rewrite telao3_idle by congruence. exact Hr.
    + rewrite telao3_idle by congruence. exact Hr.
    + rewrite telao3_idle by congruence. exact Hr.
  - destruct ms as [[|msg rest]|]; try exact Hr.
    rewrite telao3_upsert_cons. destruct (fromMe msg); [exact Hr|].
    rewrite Hr, telao3_processMessage. cbn [snd vars].
    destruct (snd _); exact Hr.
Qed.

(** X13.  In [src/telao3/index.js] nothing ever unsets [authReady]: once
    the session has been open, the flag stays set over any events, closures
    included.  From then on the readiness gate of ["messages.upsert"] never
    queues again: every message that is not the bot's own is handed to
    [processMessage], also while the connection is down. *)
Theorem telao3_ready_is_permanent (W : World) (es : list Event)
    (m : Machine Telao3.Vars) :
  Telao3.authReady (vars m) = true ->
  let m' := snd (run (Telao3Run.handle W) es m) in
  Telao3.authReady (vars m') = true
  /\ forall msg rest,
       fromMe msg = false ->
       Telao3.messages_upsert W (Some (msg :: rest)) m' = Telao3.processMessage W msg m'.
Proof.
  intros Hr m'.
  assert (R : Telao3.authReady (vars m') = true).
  { subst m'. apply (run_invariant (Telao3Run.handle W)
                       (fun m => Telao3.authReady (vars m) = true)); [|exact Hr].
    intros e m1. apply telao3_handle_ready. }
  split; [exact R|].
  intros msg rest Hf. rewrite telao3_upsert_cons, Hf, R. reflexivity.
Qed.

(** X13, at an open transition followed by a lost connection. *)
Lemma telao3_ready_is_permanent_witness :
  let m1 := snd (Telao3.connection_update (sampleWorld []) openUpdate Telao3.initial) in
  Telao3.authReady
    (vars (snd (run (Telao3Run.handle (sampleWorld [])) [EvConnection lostUpdate] m1)))
  = true.
Proof.
  intros m1.
  exact (proj1 (telao3_ready_is_permanent (sampleWorld []) [EvConnection lostUpdate]
                  m1 eq_refl)).
Defined.

Lemma telao3_handle_queue W (e : Event) (m : Machine Telao3.Vars) :
  Forall isFixedReply (Telao3.pendingMessages (vars m)) ->
  Forall isFixedReply (Telao3.pendingMessages (vars (snd (Telao3Run.handle W e m)))).
Proof.
  intros Hq. destruct e as [|u|ms]; cbn [Telao3Run.handle].
  - destruct (telao3_iniciarBot W m) as (f & logs & -> & _). exact Hq.
  - destruct (connection u) as [[| | |]|] eqn:Hc.
    + rewrite telao3_close by assumption. destruct (motivo u =? _); exact Hq.
    + rewrite telao3_open by assumption. constructor.
    + rewrite telao3_idle by congruence. exact Hq.
    + rewrite telao3_idle by congruence. exact Hq.
    + rewrite telao3_idle by congruence. exact Hq.
  - destruct ms as [[|msg rest]|]; try exact Hq.
    rewrite telao3_upsert_cons. destruct (fromMe msg); [exact Hq|].
    destruct (Telao3.authReady (vars m)).
    + rewrite telao3_processMessage. cbn [snd vars].
      destruct (snd _); [exact Hq|].
      cbn [Telao3.push Telao3.setPendingMessages Telao3.pendingMessages].
      apply Forall_app. split; [exact Hq|]. repeat constructor.
    + cbn [snd vars Telao3.push Telao3.setPendingMessages Telao3.pendingMessages].
      apply Forall_app. split; [exact Hq|].
      constructor; [|constructor]. right. left. reflexivity.
Qed.

Lemma isFixedReply_repeat (to : jsstring) (k : nat) :
  Forall isFixedReply (repeat (errorReply to) k).
Proof. induction k; cbn [repeat]; constructor; [left; reflexivity|assumption]. Qed.

Lemma supervised_handle_queue W (e : Event) (m : Machine Supervised.Vars) :
  Forall isFixedReply (Supervised.pendingMessages (vars m)) ->
  Forall isFixedReply
    (Supervised.pendingMessages (vars (snd (SupervisedRun.handle W e m)))).
Proof.
  intros Hq. destruct e as [|u|ms]; cbn [SupervisedRun.handle].
  - destruct (supervised_iniciarBot W m) as (f & ->). exact Hq.
  - destruct (connection u) as [[| | |]|] eqn:Hc.
    + rewrite supervised_close by assumption.
      destruct (motivo u =? _); [|destruct (_ >? _)]; exact Hq.
    + rewrite supervised_open by assumption. constructor.
    + rewrite supervised_idle by congruence. exact Hq.
    + rewrite supervised_idle by congruence. exact Hq.
    + rewrite supervised_idle by congruence. exact Hq.
  - destruct ms as [[|msg rest]|]; try exact Hq.
    rewrite supervised_upsert_cons. destruct (fromMe msg); [exact Hq|].
    destruct (Supervised.authReady (vars m)).
    + destruct (supervised_processMessage W msg m) as (m' & tr & -> & P).
      cbn [snd]. destruct (processed_replies _ _ _ _ P) as (k & -> & _).
      apply Forall_app. split; [exact Hq|apply isFixedReply_repeat].
    + cbn [snd vars Supervised.push Supervised.setPendingMessages
           Supervised.pendingMessages].
      apply Forall_app. split; [exact Hq|].
      constructor; [|constructor]. right. right. reflexivity.
Qed.

(** X14.  The queue never holds anything but the fixed notices: over any
    events, in [src/telao3/index.js] and in the supervised script, every
    entry of [pendingMessages] carries the generic error text or the
    starting-up text, so that no text of a user and no output of a handler
    is ever kept for later delivery. *)
Theorem queue_holds_fixed_texts (W : World) (es : list Event) :
  (forall m : Machine Telao3.Vars,
      Forall isFixedReply (Telao3.pendingMessages (vars m)) ->
      Forall isFixedReply
        (Telao3.pendingMessages (vars (snd (run (Telao3Run.handle W) es m)))))
  /\ (forall m : Machine Supervised.Vars,
      Forall isFixedReply (Supervised.pendingMessages (vars m)) ->
      Forall isFixedReply
        (Supervised.pendingMessages (vars (snd (run (SupervisedRun.handle W) es m))))).
Proof.
  split; intros m Hq.
  - apply (run_invariant (Telao3Run.handle W)
             (fun m => Forall isFixedReply (Telao3.pendingMessages (vars m))));
      [|exact Hq].
    intros e m1. apply telao3_handle_queue.
  - apply (run_invariant (SupervisedRun.handle W)
             (fun m => Forall isFixedReply (Supervised.pendingMessages (vars m))));
      [|exact Hq].
    intros e m1. apply supervised_handle_queue.
Qed.

(** X14, at a start, a message that arrives too early, the open transition
    and a command whose handler rejects. *)
Lemma queue_holds_fixed_texts_witness :
  Forall isFixedReply
    (Supervised.pendingMessages
       (vars (snd (run (SupervisedRun.handle (sampleWorld [true; true; true; false; false]))
                     [EvStart;
                      EvMessages (Some [textMessage "5511@s.whatsapp.net" "oi"]);
                      EvConnection openUpdate;
                      EvMessages (Some [textMessage "5511@s.whatsapp.net" "@todos"])]
                     Supervised.initial)))).
Proof.
  apply (proj2 (queue_holds_fixed_texts _ _)). constructor.
Defined.

Lemma invoked_none (tr : list Effect) :
  (forall e, In e tr -> isInvoke e = false) -> invoked tr = [].
Proof.
  induction tr as [|e tr IH]; intros H; [reflexivity|].
  pose proof (H e (or_introl eq_refl)) as He.
  destruct e; try discriminate He; cbn [invoked]; apply IH;
    intros e' He'; apply H; right; exact He'.
Qed.

Lemma telao3_startup W (bs : list (option (list Msg))) (m : Machine Telao3.Vars) :
  Telao3.authReady (vars m) = false ->
  run (Telao3Run.handle W) (List.map EvMessages bs) m
  = (Normal tt,
     {| vars :=
          Telao3.setPendingMessages
            (Telao3.pendingMessages (vars m) ++ startupNotices textIniciandoLongo bs)
            (vars m);
        sock := sock m; authFolder := authFolder m;
        tick := tick m; trace := trace m |}).
Proof.
  revert m. induction bs as [|b bs IH]; intros m Hr.
  - cbn. rewrite app_nil_r. destruct m as [[q a] s f t tr]. reflexivity.
  - cbn [List.map]. rewrite run_cons. cbn [Telao3Run.handle].
    destruct b as [[|msg rest]|].
    + cbn -[run]. rewrite IH by exact Hr. reflexivity.
    + rewrite telao3_upsert_cons, Hr.
      cbn [startupNotices flat_map].
      destruct (fromMe msg).
      * rewrite IH by exact Hr. reflexivity.
      * rewrite IH by exact Hr.
        cbn [vars sock authFolder tick trace Telao3.push Telao3.setPendingMessages
             Telao3.pendingMessages Telao3.authReady app].
        rewrite <- app_assoc. reflexivity.
    + cbn -[run]. rewrite IH by exact Hr. reflexivity.
Qed.

Lemma supervised_startup W (bs : list (option (list Msg))) (m : Machine Supervised.Vars) :
  Supervised.authReady (vars m) = false ->
  run (SupervisedRun.handle W) (List.map EvMessages bs) m
  = (Normal tt,
     {| vars :=
          Supervised.setPendingMessages
            (Supervised.pendingMessages (vars m) ++ startupNotices textIniciando bs)
            (vars m);
        sock := sock m; authFolder := authFolder m;
        tick := tick m; trace := trace m |}).
Proof.
  revert m. induction bs as [|b bs IH]; intros m Hr.
  - cbn. rewrite app_nil_r. destruct m as [[q a s c r l] k f t tr]. reflexivity.
  - cbn [List.map]. rewrite run_cons. cbn [SupervisedRun.handle].
    destruct b as [[|msg rest]|].
    + cbn -[run]. rewrite IH by exact Hr. reflexivity.
    + rewrite supervised_upsert_cons, Hr.
      cbn [startupNotices flat_map].
      destruct (fromMe msg).
      * rewrite IH by exact Hr. reflexivity.
      * rewrite IH by exact Hr.
        cbn [vars sock authFolder tick trace Supervised.push
             Supervised.setPendingMessages Supervised.pendingMessages
             Supervised.authReady Supervised.qrSent Supervised.reconnectAttempts
             Supervised.senderReadyGroups Supervised.senderAttemptAt app].
        rewrite <- app_assoc. reflexivity.
    + cbn -[run]. rewrite IH by exact Hr. reflexivity.
Qed.

(** X15.  Messages that arrive before the session is ready are answered at
    the open transition, once each and in the order of arrival: after any
    series of ["messages.upsert"] batches received while [authReady] is
    unset, the open transition attempts the delivery of what was queued
    before followed by one starting-up notice for each batch whose first
    message is not the bot's own, addressed to the conversation of that
    message; no handler is invoked for any of them, and the queue is empty
    and the session ready afterwards. *)
Theorem startup_messages_answered_at_open (W : World)
    (bs : list (option (list Msg))) (u : Update) :
  connection u = Some ConnOpen ->
  (forall m : Machine Telao3.Vars,
      Telao3.authReady (vars m) = false ->
      let r := run (Telao3Run.handle W) (List.map EvMessages bs ++ [EvConnection u]) m in
      let tr := newEffects m (snd r) in
      fst r = Normal tt
      /\ attempted tr
         = Telao3.pendingMessages (vars m) ++ startupNotices textIniciandoLongo bs
      /\ invoked tr = []
      /\ Telao3.pendingMessages (vars (snd r)) = []
      /\ Telao3.authReady (vars (snd r)) = true)
  /\ (forall m : Machine Supervised.Vars,
      Supervised.authReady (vars m) = false ->
      let r := run (SupervisedRun.handle W) (List.map EvMessages bs ++ [EvConnection u]) m in
      let tr := newEffects m (snd r) in
      fst r = Normal tt
      /\ attempted tr
         = Supervised.pendingMessages (vars m) ++ startupNotices textIniciando bs
      /\ invoked tr = []
      /\ Supervised.pendingMessages (vars (snd r)) = []
      /\ Supervised.authReady (vars (snd r)) = true).
Proof.
  intros Hc. split; intros m Hr; cbv zeta.
  - rewrite (run_app_normal _ _ _ _ _ (telao3_startup W bs m Hr)).
    rewrite run_cons. cbn [Telao3Run.handle].
    rewrite telao3_open by assumption. cbn [run forOf ret fst snd].
    erewrite newEffects_app by reflexivity.
    cbn [vars sock authFolder tick trace Telao3.pendingMessages
         Telao3.setPendingMessages Telao3.authReady].
    rewrite !attempted_app, flushEffects_attempted.
    split; [reflexivity|]. split; [|split; [|split; reflexivity]].
    + destruct (truthy (qr u)); [rewrite qrEffects_attempted|]; reflexivity.
    + apply invoked_none. intros e He. apply in_app_or in He. destruct He as [He|He].
      * destruct (truthy (qr u)); [eapply qrEffects_no_invoke, He|destruct He].
      * eapply flushEffects_only_sends, He.
  - rewrite (run_app_normal _ _ _ _ _ (supervised_startup W bs m Hr)).
    rewrite run_cons. cbn [SupervisedRun.handle].
    rewrite supervised_open by assumption. cbn [run forOf ret fst snd].
    erewrite newEffects_app by reflexivity.
    cbn [vars sock authFolder tick trace Supervised.pendingMessages
         Supervised.setPendingMessages Supervised.authReady Supervised.qrSent].
    rewrite !attempted_app, flushEffects_attempted.
    cbn [attempted]. rewrite app_nil_r.
    split; [reflexivity|]. split; [|split; [|split; reflexivity]].
    + destruct (scanRuns _ u); [rewrite qrEffects_attempted|]; reflexivity.
    + apply invoked_none. intros e He. apply in_app_or in He. destruct He as [He|He].
      * destruct (scanRuns _ u); [eapply qrEffects_no_invoke, He|destruct He].
      * apply in_app_or in He. destruct He as [He|[<-|[]]]; [|reflexivity].
        eapply flushEffects_only_sends, He.
Qed.

(** X15, at two early messages of different conversations and a batch of
    the bot's own. *)
Lemma startup_messages_answered_at_open_witness :
  let bs := [Some [textMessage "5511@s.whatsapp.net" "@tabela"];
             Some [{| remoteJid := lit "5511@s.whatsapp.net"; fromMe := true;
                      conversation := Some (lit "ok"); extendedText := None;
                      messageText := None; imageMessage := false |}];
             Some [textMessage "120363@g.us" "oi"; textMessage "120363@g.us" "@todos"]] in
  let r := run (Telao3Run.handle (sampleWorld []))
             (List.map EvMessages bs ++ [EvConnection openUpdate]) Telao3.initial in
  attempted (newEffects Telao3.initial (snd r))
  = [replyTo "5511@s.whatsapp.net" textIniciandoLongo;
     replyTo "120363@g.us" textIniciandoLongo].
Proof.
  intros bs.
  exact (proj1 (proj2 (proj1 (startup_messages_answered_at_open (sampleWorld []) bs
                                openUpdate eq_refl) Telao3.initial eq_refl))).
Defined.

Lemma messageEffect_not_scheduled (tr : list Effect) :
  Forall (fun e => isMessageEffect e = true) tr -> scheduled tr = [].
Proof.
  induction 1 as [|e tr He _ IH]; [reflexivity|].
  destruct e; try discriminate He; cbn [scheduled]; exact IH.
Qed.

(** The open transition of the legacy script, in closed form. *)
Lemma legacy_open W (u : Update) (m : Machine Legacy.Vars) :
  connection u = Some ConnOpen ->
  let sent := Legacy.qrSent (vars m) in
  Legacy.connection_update W u m
  = (Normal tt,
     {| vars := {| Legacy.pendingMessages := [];
                   Legacy.authReady := true;
                   Legacy.qrSent := qrSentAfter sent u |};
        sock := sock m; authFolder := authFolder m;
        tick := (tick m + ticksOfGuardedScan sent u
                 + length (Legacy.pendingMessages (vars m)))%nat;
        trace := trace m ++ scanEffects W sent (tick m) u
                 ++ flushEffects W (sock m) (tick m + ticksOfGuardedScan sent u)%nat
                      (Legacy.pendingMessages (vars m))
                 ++ [ESyncToSupabase] |}).
Proof.
  intros Hc sent. subst sent. unfold Legacy.connection_update.
  rewrite Hc. unfold qrSentAfter, scanEffects, qrEffects, ticksOfGuardedScan, scanRuns.
  destruct m as [[q a s] k f t tr].
  destruct (truthy (qr u)) as [c|]; destruct s; js_unfold;
    cbn [Legacy.qrSent negb vars sock authFolder tick trace];
    try (destruct (outcome W t));
    cbn [vars sock authFolder tick trace];
    rewrite legacy_flush;
    cbn [vars sock authFolder tick trace Legacy.pendingMessages
         Legacy.authReady Legacy.qrSent Legacy.setAuthReady
         Legacy.setPendingMessages Legacy.setQrSent];
    rewrite <- ?app_assoc, ?Nat.add_1_r, ?Nat.add_0_r; reflexivity.
Qed.

(** An update that neither closes nor opens the session, in the legacy
    script. *)
Lemma legacy_idle W (u : Update) (m : Machine Legacy.Vars) :
  connection u <> Some ConnClose ->
  connection u <> Some ConnOpen ->
  let sent := Legacy.qrSent (vars m) in
  Legacy.connection_update W u m
  = (Normal tt,
     {| vars := {| Legacy.pendingMessages := Legacy.pendingMessages (vars m);
                   Legacy.authReady := Legacy.authReady (vars m);
                   Legacy.qrSent := qrSentAfter sent u |};
        sock := sock m; authFolder := authFolder m;
        tick := (tick m + ticksOfGuardedScan sent u)%nat;
        trace := trace m ++ scanEffects W sent (tick m) u |}).
Proof.
  intros Hc Ho sent. subst sent.
  unfold Legacy.connection_update, qrSentAfter, scanEffects,
    ticksOfGuardedScan, scanRuns, qrEffects.
  destruct m as [[q a s] k f t tr].
  destruct (connection u) as [[| | |]|]; try contradiction;
    destruct (truthy (qr u)) as [x|]; destruct s; js_unfold;
    cbn [Legacy.qrSent Legacy.setQrSent Legacy.pendingMessages Legacy.authReady
         negb vars sock authFolder tick trace];
    js_outcomes W;
    rewrite <- ?app_assoc, ?Nat.add_1_r, ?Nat.add_0_r, ?app_nil_r; reflexivity.
Qed.

Lemma isClose_true (u : Update) : isClose u = true <-> connection u = Some ConnClose.
Proof.
  unfold isClose. destruct (connection u) as [[| | |]|]; split;
    try discriminate; reflexivity.
Qed.

(** What one lifecycle event of the legacy script schedules. *)
Lemma legacy_handle_schedule W (e : Event) (m : Machine Legacy.Vars) :
  isLifecycle e ->
  exists tr,
    trace (snd (LegacyRun.handle W e m)) = trace m ++ tr
    /\ fst (LegacyRun.handle W e m) = Normal tt
    /\ count isExit tr = 0%nat
    /\ scheduled tr = List.map legacyDelay (closures [e]).
Proof.
  intros Hl. destruct e as [|u|ms]; cbn [LegacyRun.handle]; [| |destruct Hl].
  - destruct (legacy_iniciarBot W m) as (f & ->). cbn [fst snd trace].
    eexists. split; [reflexivity|]. repeat split.
  - unfold closures. cbn [flat_map]. rewrite app_nil_r.
    destruct (connection u) as [[| | |]|] eqn:Hc.
    + rewrite (proj2 (isClose_true u) Hc).
      rewrite legacy_close by assumption. unfold legacyDelay. cbn [List.map].
      destruct (motivo u =? DisconnectReason_loggedOut); cbn [fst snd trace];
        (eexists; split; [reflexivity|]); (split; [reflexivity|]);
        rewrite count_app, scheduled_app, scanEffects_not_exit,
          scheduled_scanEffects; split; reflexivity.
    + replace (isClose u) with false by (unfold isClose; rewrite Hc; reflexivity).
      rewrite legacy_open by assumption. cbn [fst snd trace].
      eexists. split; [reflexivity|]. split; [reflexivity|].
      rewrite !count_app, !scheduled_app, scanEffects_not_exit, scheduled_scanEffects,
        (messageEffect_not_exit _ (flushEffects_messageEffects W _ _ _)),
        (messageEffect_not_scheduled _ (flushEffects_messageEffects W _ _ _)).
      split; reflexivity.
    + replace (isClose u) with false by (unfold isClose; rewrite Hc; reflexivity).
      rewrite legacy_idle by congruence. cbn [fst snd trace].
      eexists. split; [reflexivity|]. split; [reflexivity|].
      rewrite scanEffects_not_exit, scheduled_scanEffects. split; reflexivity.
    + replace (isClose u) with false by (unfold isClose; rewrite Hc; reflexivity).
      rewrite legacy_idle by congruence. cbn [fst snd trace].
      eexists. split; [reflexivity|]. split; [reflexivity|].
      rewrite scanEffects_not_exit, scheduled_scanEffects. split; reflexivity.
    + replace (isClose u) with false by (unfold isClose; rewrite Hc; reflexivity).
      rewrite legacy_idle by congruence. cbn [fst snd trace].
      eexists. split; [reflexivity|]. split; [reflexivity|].
      rewrite scanEffects_not_exit, scheduled_scanEffects. split; reflexivity.
Qed.

Section FlatRestarts.
Context {V : Type} (handle : Event -> JS V unit) (P : Event -> Prop)
        (delay : Update -> Q).

Hypothesis handle_schedule :
  forall e m,
    P e ->
    exists tr,
      trace (snd (handle e m)) = trace m ++ tr
      /\ fst (handle e m) = Normal tt
      /\ count isExit tr = 0%nat
      /\ scheduled tr = List.map delay (closures [e]).

(** When every event completes normally and schedules one restart per
    closure, so does a run. *)
Lemma run_flat_restarts (es : list Event) (m : Machine V) :
  Forall P es ->
  exists tr,
    trace (snd (run handle es m)) = trace m ++ tr
    /\ fst (run handle es m) = Normal tt
    /\ count isExit tr = 0%nat
    /\ scheduled tr = List.map delay (closures es).
Proof.
  intros H. revert m. induction H as [|e es He _ IH]; intros m.
  - exists []. cbn. rewrite app_nil_r. auto.
  - rewrite run_cons.
    destruct (handle_schedule e m He) as (tr1 & T1 & N1 & X1 & S1).
    destruct (handle e m) as [c m1]. cbn [fst snd] in *. subst c.
    destruct (IH m1) as (tr2 & T2 & N2 & X2 & S2).
    exists (tr1 ++ tr2). split; [rewrite T2, T1, app_assoc; reflexivity|].
    split; [exact N2|].
    rewrite count_app, scheduled_app, X1, X2, S1, S2.
    split; [reflexivity|].
    rewrite <- List.map_app. f_equal.
    unfold closures. cbn [flat_map]. rewrite app_nil_r. reflexivity.
Qed.
End FlatRestarts.

(** What one event of [src/telao3/index.js] schedules, logout closures
    apart. *)
Lemma telao3_handle_schedule W (e : Event) (m : Machine Telao3.Vars) :
  notLogout e ->
  exists tr,
    trace (snd (Telao3Run.handle W e m)) = trace m ++ tr
    /\ fst (Telao3Run.handle W e m) = Normal tt
    /\ count isExit tr = 0%nat
    /\ scheduled tr = List.map (fun _ => 3000%Q) (closures [e]).
Proof.
  intros Hl. destruct e as [|u|ms]; cbn [Telao3Run.handle].
  - destruct (telao3_iniciarBot W m) as (f & logs & -> & Hlogs & Slogs).
    cbn [fst snd trace].
    eexists. split; [reflexivity|]. split; [reflexivity|].
    rewrite count_app, scheduled_app, Slogs, (messageEffect_not_exit _ Hlogs).
    split; reflexivity.
  - unfold closures. cbn [flat_map]. rewrite app_nil_r.
    assert (Q0 : forall t,
               count isExit match truthy (qr u) with
                            | Some q => qrEffects W t q
                            | None => []
                            end = 0%nat
               /\ scheduled match truthy (qr u) with
                            | Some q => qrEffects W t q
                            | None => []
                            end = []).
    { intros t. destruct (truthy (qr u)) as [q|]; [|split; reflexivity].
      unfold qrEffects. destruct (outcome W t); split; reflexivity. }
    destruct (connection u) as [[| | |]|] eqn:Hc.
    + rewrite (proj2 (isClose_true u) Hc).
      rewrite telao3_close by assumption.
      replace (motivo u =? DisconnectReason_loggedOut) with false
        by (symmetry; apply Z.eqb_neq, Hl; exact Hc).
      cbv zeta. cbn [fst snd trace List.map].
      eexists. split; [reflexivity|]. split; [reflexivity|].
      destruct (Q0 (tick m)) as [E1 E2].
      rewrite count_app, scheduled_app, E1, E2. split; reflexivity.
    + replace (isClose u) with false by (unfold isClose; rewrite Hc; reflexivity).
      rewrite telao3_open by assumption. cbn [fst snd trace].
      eexists. split; [reflexivity|]. split; [reflexivity|].
      destruct (Q0 (tick m)) as [E1 E2].
      rewrite !count_app, !scheduled_app, E1, E2,
        (messageEffect_not_exit _ (flushEffects_messageEffects W _ _ _)),
        (messageEffect_not_scheduled _ (flushEffects_messageEffects W _ _ _)).
      split; reflexivity.
    + replace (isClose u) with false by (unfold isClose; rewrite Hc; reflexivity).
      rewrite telao3_idle by congruence. cbn [fst snd trace].
      eexists. split; [reflexivity|]. split; [reflexivity|]. apply Q0.
    + replace (isClose u) with false by (unfold isClose; rewrite Hc; reflexivity).
      rewrite telao3_idle by congruence. cbn [fst snd trace].
      eexists. split; [reflexivity|]. split; [reflexivity|]. apply Q0.
    + replace (isClose u) with false by (unfold isClose; rewrite Hc; reflexivity).
      rewrite telao3_idle by congruence. cbn [fst snd trace].
      eexists. split; [reflexivity|]. split; [reflexivity|]. apply Q0.
  - destruct (telao3_upsert_effects W ms m) as (tr & T & F).
    exists tr. split; [exact T|]. split; [apply telao3_upsert_normal|].
    split; [apply messageEffect_not_exit, F|apply messageEffect_not_scheduled, F].
Qed.

(** X16.  The scripts without an attempt counter never give up.  Over any
    lifecycle events the legacy script completes normally, never calls
    [process.exit] and schedules exactly one restart for each closure,
    3000 ms later after a logout and 5000 ms later otherwise, however many
    closures came before.  [src/telao3/index.js] does the same over any
    events that hold no logout closure, with 3000 ms for every closure. *)
Theorem restarts_without_ceiling (W : World) (es : list Event) :
  (forall m : Machine Legacy.Vars,
      Forall isLifecycle es ->
      let r := run (LegacyRun.handle W) es m in
      let tr := newEffects m (snd r) in
      fst r = Normal tt
      /\ count isExit tr = 0%nat
      /\ scheduled tr = List.map legacyDelay (closures es))
  /\ (forall m : Machine Telao3.Vars,
      Forall notLogout es ->
      let r := run (Telao3Run.handle W) es m in
      let tr := newEffects m (snd r) in
      fst r = Normal tt
      /\ count isExit tr = 0%nat
      /\ scheduled tr = List.map (fun _ => 3000%Q) (closures es)).
Proof.
  split; intros m H; cbv zeta.
  - destruct (run_flat_restarts (LegacyRun.handle W) isLifecycle legacyDelay
                (fun e m => legacy_handle_schedule W e m) es m H)
      as (tr & T & N & X & S).
    rewrite (newEffects_app _ _ _ T). auto.
  - destruct (run_flat_restarts (Telao3Run.handle W) notLogout (fun _ => 3000%Q)
                (fun e m => telao3_handle_schedule W e m) es m H)
      as (tr & T & N & X & S).
    rewrite (newEffects_app _ _ _ T). auto.
Qed.

(** X16, at twelve lost connections in a row, each followed by its
    restart, in the legacy script. *)
Lemma restarts_without_ceiling_witness :
  let es := retryCycles (repeat lostUpdate 12) in
  let r := run (LegacyRun.handle (sampleWorld [])) es Legacy.initial in
  fst r = Normal tt
  /\ count isExit (newEffects Legacy.initial (snd r)) = 0%nat
  /\ scheduled (newEffects Legacy.initial (snd r)) = List.map legacyDelay (closures es).
Proof.
  intros es.
  apply (proj1 (restarts_without_ceiling (sampleWorld []) es) Legacy.initial).
  subst es. cbn [repeat retryCycles flat_map app].
  repeat (apply List.Forall_cons; [exact I|]). apply List.Forall_nil.
Defined.

(** ** Health check and keep-alive *)

(** X17.  The keep-alive timer of the supervised script changes nothing:
    the update it emits carries neither a scan code nor a connection state
    that the listener acts on, so no variable changes, nothing is sent and
    no effect is produced, whether or not the session is ready. *)
Theorem keepalive_changes_nothing (W : World) (m : Machine Supervised.Vars) :
  Supervised.keepAlive W m = (Normal tt, m).
Proof.
  unfold Supervised.keepAlive. js_unfold.
  destruct (negb (Nat.eqb (sock m) 0) && Supervised.authReady (vars m));
    [|reflexivity].
  rewrite supervised_idle by discriminate.
  unfold attemptsAtClose, qrSentAfter, scanEffects, ticksOfGuardedScan, scanRuns.
  cbn [qr Supervised.pingUpdate truthy].
  destruct m as [[q a s c r l] k f t tr]. js_simpl.
  destruct s; rewrite app_nil_r, Nat.add_0_r; repeat f_equal; lia.
Qed.

Lemma supervised_handle_ready W (e : Event) (m : Machine Supervised.Vars) :
  fst (SupervisedRun.handle W e m) = Normal tt ->
  (Supervised.authReady (vars (snd (SupervisedRun.handle W e m))) = true
   <-> isOpening e \/ (Supervised.authReady (vars m) = true /\ ~ isLostConnection e)).
Proof.
  destruct e as [|u|ms]; cbn [SupervisedRun.handle isOpening isLostConnection].
  - destruct (supervised_iniciarBot W m) as (f & ->). cbn [snd vars Supervised.authReady].
    intros _. tauto.
  - destruct (connection u) as [[| | |]|] eqn:Hc.
    + rewrite supervised_close by assumption.
      destruct (Z.eqb_spec (motivo u) DisconnectReason_loggedOut) as [Hm|Hm];
        [|destruct (_ >? _)]; cbn [fst snd vars Supervised.authReady];
        try discriminate; intros _.
      * split; [intros H; right; split; [exact H|tauto]|].
        intros [[=]|[H _]]. exact H.
      * split; [discriminate|]. intros [[=]|[_ H]]. exfalso. apply H. auto.
    + rewrite supervised_open by assumption. cbn [fst snd vars Supervised.authReady].
      intros _. split; auto.
    + rewrite supervised_idle by congruence. cbn [fst snd vars Supervised.authReady].
      intros _. split; [intros H; right; split; [exact H|intros [[=] _]]|].
      intros [[=]|[H _]]. exact H.
    + rewrite supervised_idle by congruence. cbn [fst snd vars Supervised.authReady].
      intros _. split; [intros H; right; split; [exact H|intros [[=] _]]|].
      intros [[=]|[H _]]. exact H.
    + rewrite supervised_idle by congruence. cbn [fst snd vars Supervised.authReady].
      intros _. split; [intros H; right; split; [exact H|intros [[=] _]]|].
      intros [[=]|[H _]]. exact H.
  - intros _.
    assert (E : Supervised.authReady (vars (snd (Supervised.messages_upsert W ms m)))
                = Supervised.authReady (vars m)).
    { destruct ms as [[|msg rest]|]; try reflexivity.
      rewrite supervised_upsert_cons.
      destruct (fromMe msg); [reflexivity|].
      destruct (Supervised.authReady (vars m)) eqn:Ea; [|exact Ea].
      destruct (supervised_processMessage W msg m) as (m' & tr & -> & P).
      cbn [snd]. rewrite (processed_ready _ _ _ _ P). exact Ea. }
    rewrite E. tauto.
Qed.

Lemma reportedStatus_connected W (m : Machine Supervised.Vars) :
  reportedStatus W m = Some "connected"%string <-> Supervised.authReady (vars m) = true.
Proof.
  unfold reportedStatus, Supervised.health. js_unfold.
  destruct (Supervised.authReady (vars m)); cbn; split; try discriminate; reflexivity.
Qed.

(** X18.  What [GET /health] of the supervised script reports follows
    [authReady]: the status is ["connected"] exactly when the flag is set,
    and the request changes nothing in the script.  After an event that
    does not end the process the status is ["connected"] exactly when the
    event is an open transition, or the status was ["connected"] before
    and the event is not a closure for another reason than a logout.  In
    particular a logout closure leaves a ["connected"] status as it is. *)
Theorem health_reports_readiness (W : World) (m : Machine Supervised.Vars) :
  (reportedStatus W m = Some "connected"%string
   <-> Supervised.authReady (vars m) = true)
  /\ vars (snd (Supervised.health W m)) = vars m
  /\ trace (snd (Supervised.health W m)) = trace m
  /\ forall e,
       fst (SupervisedRun.handle W e m) = Normal tt ->
       (reportedStatus W (snd (SupervisedRun.handle W e m)) = Some "connected"%string
        <-> isOpening e
            \/ (reportedStatus W m = Some "connected"%string /\ ~ isLostConnection e)).
Proof.
  split; [apply reportedStatus_connected|].
  split; [reflexivity|]. split; [reflexivity|].
  intros e He. rewrite !reportedStatus_connected.
  apply supervised_handle_ready, He.
Qed.

(** X18, at a logout closure of a ready session. *)
Lemma health_reports_readiness_witness :
  reportedStatus (sampleWorld [])
    (snd (SupervisedRun.handle (sampleWorld []) (EvConnection loggedOutUpdate) readyMachine))
  = Some "connected"%string.
Proof.
  apply (proj2 (proj2 (proj2 (health_reports_readiness (sampleWorld []) readyMachine)))
           (EvConnection loggedOutUpdate) eq_refl).
  right. split; [reflexivity|]. intros [_ H]. apply H. reflexivity.
Defined.

(** ** The gate of the script without a cache *)

Ltac uncached_simpl :=
  cbn [vars sock authFolder tick trace fst snd negb
       Uncached.pendingMessages Uncached.authReady Uncached.qrSent
       Uncached.push Uncached.setPendingMessages].

Ltac uncached_done :=
  cbn [fst snd]; uncached_simpl;
  erewrite newEffects_app by (uncached_simpl; rewrite <- ?app_assoc; reflexivity);
  cbn [app attempted invoked uncachedWarmUp errorReply];
  rewrite ?app_nil_r; repeat split; reflexivity.

(** X19.  In the script that warms a group up without a cache, every
    message of a group (no image, pix side channel resolving) first sends
    the warm-up message to the group.  When that send resolves the command
    is dispatched as routed.  When it rejects, the notice asking to try
    again is sent instead and no command handler runs; and since that
    notice is sent inside the main [try] block, its own rejection queues
    the generic error reply, which nothing else does here. *)
Theorem uncached_gate (W : World) (msg : Msg) (m : Machine Uncached.Vars) :
  imageMessage msg = false ->
  outcome W (S (tick m)) = true ->
  endsWith (remoteJid msg) (lit "@g.us") = true ->
  let r := Uncached.processMessage W msg m in
  let tr := newEffects m (snd r) in
  let side := [handleAntiLinkMessage; handleMensagemPix] in
  fst r = Normal tt
  /\ (outcome W (S (S (tick m))) = true ->
      attempted tr = [uncachedWarmUp (remoteJid msg)]
      /\ invoked tr
         = side ++ match route (remoteJid msg) (lowerTextOf W msg) with
                   | Some h => [h]
                   | None => []
                   end)
  /\ (outcome W (S (S (tick m))) = false ->
      attempted tr
      = [uncachedWarmUp (remoteJid msg);
         {| jid := remoteJid msg; msg := Text textTenteNovamente |}]
      /\ invoked tr = side
      /\ Uncached.pendingMessages (vars (snd r))
         = Uncached.pendingMessages (vars m)
           ++ (if outcome W (S (S (S (tick m)))) then []
               else [errorReply (remoteJid msg)])).
Proof.
  intros Hi Hp Eg. unfold Uncached.processMessage. cbv zeta.
  rewrite (chain_is_route W (remoteJid msg) (lowerTextOf W msg) msg).
  rewrite Hi, Eg. cbn [andb]. unfold Uncached.ensureGroupReady. rewrite Eg. cbn [negb].
  destruct (route (remoteJid msg) (lowerTextOf W msg)) as [h|];
    js_unfold; uncached_simpl;
    destruct (outcome W (tick m)); uncached_simpl; rewrite Hp; uncached_simpl;
    destruct (outcome W (S (S (tick m)))); uncached_simpl;
    try (destruct (outcome W (S (S (S (tick m))))); uncached_simpl);
    (split; [reflexivity|]); split; intros Hw; try discriminate Hw;
    uncached_done.
Qed.

(** X19, at ["@todos"] sent to a group when both the warm-up message and
    the notice are rejected. *)
Lemma uncached_gate_witness :
  let W := sampleWorld [true; true; false; false] in
  let msg := textMessage "120363@g.us" "@todos" in
  let r := Uncached.processMessage W msg Uncached.initial in
  invoked (newEffects Uncached.initial (snd r))
  = [handleAntiLinkMessage; handleMensagemPix]
  /\ Uncached.pendingMessages (vars (snd r)) = [errorReply (lit "120363@g.us")].
Proof.
  intros W msg.
  exact (proj2 (proj2 (proj2 (uncached_gate W msg Uncached.initial
                                eq_refl eq_refl eq_refl)) eq_refl)).
Defined.

(** ** Reactions, welcomes and uploads *)

Lemma newCalls_app (m m' : Machine Side.Log) (cs : list Side.Call) :
  vars m' = vars m ++ cs -> newCalls m m' = cs.
Proof.
  intros E. unfold newCalls. rewrite E.
  rewrite skipn_app, skipn_all, Nat.sub_diag. reflexivity.
Qed.

Lemma handled_app (a b : list Side.Call) : handled (a ++ b) = handled a ++ handled b.
Proof. apply flat_map_app. Qed.

Lemma handleReaction_step W (r : Side.Reaction) (m : Machine Side.Log) :
  Side.handleReaction W r m
  = (if outcome W (tick m) then Normal tt else Throw,
     {| vars := vars m ++ [Side.CReaction (sock m) r (outcome W (tick m))];
        sock := sock m; authFolder := authFolder m;
        tick := S (tick m); trace := trace m |}).
Proof. reflexivity. Qed.

Lemma reactions_guarded W (rs : list Side.Reaction) (m : Machine Side.Log) :
  exists cs,
    Side.messages_reaction_guarded W rs m
    = (Normal tt,
       {| vars := vars m ++ cs; sock := sock m; authFolder := authFolder m;
          tick := (tick m + length rs)%nat; trace := trace m |})
    /\ handled cs = rs.
Proof.
  revert m. induction rs as [|r rs IH]; intros m.
  - exists []. cbn. rewrite app_nil_r, Nat.add_0_r. destruct m; auto.
  - unfold Side.messages_reaction_guarded. cbn [forOf]. unfold bind at 1.
    unfold tryCatch at 1. rewrite handleReaction_step.
    fold (Side.messages_reaction_guarded W rs).
    destruct (outcome W (tick m)).
    + match goal with
      | |- context [Side.messages_reaction_guarded W rs ?m1] =>
          destruct (IH m1) as (cs & -> & Hcs)
      end.
      cbn [vars sock authFolder tick trace length].
      eexists. split; [rewrite <- app_assoc, Nat.add_succ_r; reflexivity|].
      cbn [app handled flat_map]. fold (handled cs). rewrite Hcs. reflexivity.
    + unfold Side.consoleError, modify. cbn [vars sock authFolder tick trace].
      match goal with
      | |- context [Side.messages_reaction_guarded W rs ?m1] =>
          destruct (IH m1) as (cs & -> & Hcs)
      end.
      cbn [vars sock authFolder tick trace length].
      eexists. split; [rewrite <- !app_assoc, Nat.add_succ_r; reflexivity|].
      cbn [app handled flat_map]. fold (handled cs). rewrite Hcs. reflexivity.
Qed.

Lemma reactions_unguarded_all W (rs : list Side.Reaction) (m : Machine Side.Log) :
  (forall i, (i < length rs)%nat -> outcome W (tick m + i) = true) ->
  exists cs,
    Side.messages_reaction W rs m
    = (Normal tt,
       {| vars := vars m ++ cs; sock := sock m; authFolder := authFolder m;
          tick := (tick m + length rs)%nat; trace := trace m |})
    /\ handled cs = rs.
Proof.
  revert m. induction rs as [|r rs IH]; intros m H.
  - exists []. cbn. rewrite app_nil_r, Nat.add_0_r. destruct m; auto.
  - unfold Side.messages_reaction. cbn [forOf]. unfold bind at 1.
    rewrite handleReaction_step.
    fold (Side.messages_reaction W rs).
    pose proof (H 0%nat ltac:(cbn [length]; lia)) as H0. rewrite Nat.add_0_r in H0.
    rewrite H0.
    match goal with
    | |- context [Side.messages_reaction W rs ?m1] =>
        destruct (IH m1) as (cs & -> & Hcs)
    end.
    { intros i Hi. cbn [tick]. rewrite Nat.add_succ_l, <- Nat.add_succ_r.
      apply H. cbn [length]. lia. }
    cbn [vars sock authFolder tick trace length].
    eexists. split; [rewrite <- app_assoc, Nat.add_succ_r; reflexivity|].
    cbn [app handled flat_map]. fold (handled cs). rewrite Hcs. reflexivity.
Qed.

Lemma reactions_unguarded_fault W (rs : list Side.Reaction) (k : nat)
    (m : Machine Side.Log) :
  (k < length rs)%nat ->
  (forall i, (i < k)%nat -> outcome W (tick m + i) = true) ->
  outcome W (tick m + k) = false ->
  exists cs,
    Side.messages_reaction W rs m
    = (Throw,
       {| vars := vars m ++ cs; sock := sock m; authFolder := authFolder m;
          tick := (tick m + S k)%nat; trace := trace m |})
    /\ handled cs = firstn (S k) rs.
Proof.
  revert k m. induction rs as [|r rs IH]; intros k m Hk Hb Hf;
    [cbn [length] in Hk; lia|].
  unfold Side.messages_reaction. cbn [forOf]. unfold bind at 1.
  rewrite handleReaction_step.
  fold (Side.messages_reaction W rs).
  destruct k as [|k].
  - rewrite Nat.add_0_r in Hf. rewrite Hf.
    eexists. split; [rewrite Nat.add_1_r; reflexivity|]. reflexivity.
  - pose proof (Hb 0%nat ltac:(lia)) as H0. rewrite Nat.add_0_r in H0. rewrite H0.
    match goal with
    | |- context [Side.messages_reaction W rs ?m1] =>
        destruct (IH k m1) as (cs & -> & Hcs)
    end.
    { cbn [length] in Hk. lia. }
    { intros i Hi. cbn [tick]. rewrite Nat.add_succ_l, <- Nat.add_succ_r.
      apply Hb. lia. }
    { cbn [tick]. rewrite Nat.add_succ_l, <- Nat.add_succ_r. exact Hf. }
    cbn [vars sock authFolder tick trace].
    eexists. split; [rewrite <- app_assoc, Nat.add_succ_l, <- Nat.add_succ_r; reflexivity|].
    cbn [app handled flat_map firstn]. fold (handled cs). rewrite Hcs. reflexivity.
Qed.

(** X20.  Reactions of one ["messages.reaction"] event are handed to
    [handleReaction] in order.  In the scripts that await the call without
    a [try] block ([src/telao3/index.js], [src/unnamed/part_000], second
    script of [src/unnamed/part_001]) the first rejection ends the
    listener with an uncaught rejection and the reactions after it are
    never handled.  In the scripts that catch around each call (first and
    third script of [src/unnamed/part_001]) the listener always completes
    normally and every reaction is handled, whatever is rejected. *)
Theorem reactions_after_a_fault (W : World) (rs : list Side.Reaction)
    (m : Machine Side.Log) :
  (let r := Side.messages_reaction_guarded W rs m in
   fst r = Normal tt /\ handled (newCalls m (snd r)) = rs)
  /\ ((forall i, (i < length rs)%nat -> outcome W (tick m + i) = true) ->
      let r := Side.messages_reaction W rs m in
      fst r = Normal tt /\ handled (newCalls m (snd r)) = rs)
  /\ (forall k,
        (k < length rs)%nat ->
        (forall i, (i < k)%nat -> outcome W (tick m + i) = true) ->
        outcome W (tick m + k) = false ->
        let r := Side.messages_reaction W rs m in
        fst r = Throw /\ handled (newCalls m (snd r)) = firstn (S k) rs).
Proof.
  split; [|split].
  - destruct (reactions_guarded W rs m) as (cs & -> & H). cbn [fst snd].
    erewrite newCalls_app by reflexivity. auto.
  - intros Ha. destruct (reactions_unguarded_all W rs m Ha) as (cs & -> & H).
    cbn [fst snd]. erewrite newCalls_app by reflexivity. auto.
  - intros k Hk Hb Hf.
    destruct (reactions_unguarded_fault W rs k m Hk Hb Hf) as (cs & -> & H).
    cbn [fst snd]. erewrite newCalls_app by reflexivity. auto.
Qed.

(** X20, at three reactions of which the first is rejected. *)
Lemma reactions_after_a_fault_witness :
  let r := Side.messages_reaction (sampleWorld [false]) [7; 8; 9]%nat Side.initial in
  fst r = Throw /\ handled (newCalls Side.initial (snd r)) = [7%nat].
Proof.
  refine (proj2 (proj2 (reactions_after_a_fault (sampleWorld [false]) [7; 8; 9]%nat
                          Side.initial)) 0%nat _ _ eq_refl).
  - cbn [length]. lia.
  - intros i Hi. lia.
Defined.

Lemma welcomeTail_last :
  Side.welcomeTail = removelast Side.welcomeTail ++ [33%N].
Proof. vm_compute. reflexivity. Qed.

Lemma trim_fixed (c : N) (s : jsstring) (l : N) :
  isWhiteSpace c = false -> isWhiteSpace l = false ->
  trim (c :: s ++ [l]) = c :: s ++ [l].
Proof.
  intros Hc Hl. unfold trim. rewrite trimStart_fixed by exact Hc.
  change (c :: s ++ [l]) with ((c :: s) ++ [l]).
  rewrite rev_app_distr. cbn [List.rev app].
  rewrite trimStart_fixed by exact Hl.
  change (l :: ?x) with ([l] ++ x).
  rewrite rev_app_distr, rev_app_distr, rev_involutive. reflexivity.
Qed.

(** The welcome text starts with ["@"] and ends with ["!"]: trimming it
    changes nothing. *)
Lemma welcome_trim (nome : jsstring) :
  trim (lit "@" ++ nome ++ Side.welcomeTail) = lit "@" ++ nome ++ Side.welcomeTail.
Proof.
  change (lit "@") with [64%N]. cbn [app].
  rewrite welcomeTail_last, app_assoc.
  apply trim_fixed; reflexivity.
Qed.

Lemma beforeAt_split (p : jsstring) :
  exists rest,
    p = Side.beforeAt p ++ rest
    /\ (rest = [] \/ exists r, rest = 64%N :: r)
    /\ ~ In 64%N (Side.beforeAt p).
Proof.
  induction p as [|c p (rest & E & Hr & Hn)]; cbn [Side.beforeAt].
  - exists []. split; [reflexivity|]. split; [left; reflexivity|intros []].
  - destruct (N.eqb_spec c 64) as [->|Hc].
    + exists (64%N :: p). split; [reflexivity|]. split; [right; eauto|intros []].
    + exists rest. split; [cbn [app]; f_equal; exact E|]. split; [exact Hr|].
      intros [H|H]; [congruence|contradiction].
Qed.

Lemma welcomes_app (a b : list Side.Call) : welcomes (a ++ b) = welcomes a ++ welcomes b.
Proof. apply flat_map_app. Qed.

Lemma welcome_step W pictures (id p : jsstring) (m : Machine Side.Log) :
  exists cs,
    Side.welcome W pictures id p m
    = (Normal tt,
       {| vars := vars m ++ cs; sock := sock m; authFolder := authFolder m;
          tick := S (S (tick m)); trace := trace m |})
    /\ welcomes cs = welcomePlan W pictures id (tick m) [p].
Proof.
  unfold Side.welcome. cbv zeta. rewrite welcome_trim.
  unfold Side.profilePictureUrl, Side.call, Side.consoleError.
  js_unfold. cbn [welcomePlan].
  destruct (outcome W (tick m)); cbn [vars sock authFolder tick trace];
    [destruct (truthy (pictures p)) as [url|]|];
    cbn [truthy vars sock authFolder tick trace];
    destruct (outcome W (S (tick m))); cbn [vars sock authFolder tick trace];
    (eexists; split; [rewrite <- ?app_assoc; reflexivity|reflexivity]).
Qed.

Lemma welcome_loop W pictures (id : jsstring) (ps : list jsstring) (m : Machine Side.Log) :
  exists cs,
    Side.group_participants_update W pictures id ps (lit "add") m
    = (Normal tt,
       {| vars := vars m ++ cs; sock := sock m; authFolder := authFolder m;
          tick := (tick m + 2 * length ps)%nat; trace := trace m |})
    /\ welcomes cs = welcomePlan W pictures id (tick m) ps.
Proof.
  unfold Side.group_participants_update.
  change (eqb (lit "add") (lit "add")) with true. cbv iota.
  revert m. induction ps as [|p ps IH]; intros m.
  - exists []. cbn. rewrite app_nil_r, Nat.add_0_r. destruct m; auto.
  - cbn [forOf]. unfold bind at 1.
    destruct (welcome_step W pictures id p m) as (cs1 & -> & H1).
    match goal with
    | |- context [forOf ps ?body ?m1] => destruct (IH m1) as (cs & -> & Hcs)
    end.
    cbn [vars sock authFolder tick trace].
    exists (cs1 ++ cs). split.
    + rewrite <- app_assoc.
      replace (tick m + 2 * length (p :: ps))%nat
        with (S (S (tick m)) + 2 * length ps)%nat by (cbn [length]; lia).
      reflexivity.
    + rewrite welcomes_app, H1, Hcs. reflexivity.
Qed.

(** X21.  The ["group-participants.update"] listener welcomes every
    participant that was added, once each and in order, whatever fails on
    the way: for each of them the profile picture is asked for and exactly
    one message is sent to the group, with the picture when the lookup
    resolves with an address and as plain text otherwise; its text is
    ["@"], the part of the participant id before the first ["@"], and the
    fixed welcome; it mentions that participant alone.  A rejected lookup
    or send never stops the loop, and the listener completes normally.
    For any other action the listener does nothing. *)
Theorem welcome_each_participant (W : World) (pictures : jsstring -> option jsstring)
    (id : jsstring) (participants : list jsstring) (m : Machine Side.Log) :
  (let r := Side.group_participants_update W pictures id participants (lit "add") m in
   fst r = Normal tt
   /\ welcomes (newCalls m (snd r)) = welcomePlan W pictures id (tick m) participants)
  /\ (forall action,
        action <> lit "add" ->
        Side.group_participants_update W pictures id participants action m
        = (Normal tt, m))
  /\ (forall p,
        exists rest,
          p = Side.beforeAt p ++ rest
          /\ (rest = [] \/ exists r, rest = 64%N :: r)
          /\ ~ In 64%N (Side.beforeAt p)).
Proof.
  split; [|split].
  - destruct (welcome_loop W pictures id participants m) as (cs & -> & H).
    cbn [fst snd]. erewrite newCalls_app by reflexivity. auto.
  - intros action Ha. unfold Side.group_participants_update.
    destruct (eqb action (lit "add")) eqn:E; [|reflexivity].
    apply js_eqb_eq in E. contradiction.
  - apply beforeAt_split.
Qed.

(** X21, at two participants, the lookup of the first rejecting and the
    send to the first rejecting as well. *)
Lemma welcome_each_participant_witness :
  let pictures := fun _ : jsstring => Some (lit "https://pps.whatsapp.net/p.jpg") in
  let r := Side.group_participants_update (sampleWorld [false; false]) pictures
             (lit "120363@g.us")
             [lit "5511999@s.whatsapp.net"; lit "5522888@s.whatsapp.net"]
             (lit "add") Side.initial in
  List.map (fun w => (snd (fst (fst w)), snd w)) (welcomes (newCalls Side.initial (snd r)))
  = [(None, [lit "5511999@s.whatsapp.net"]);
     (Some (lit "https://pps.whatsapp.net/p.jpg"), [lit "5522888@s.whatsapp.net"])].
Proof.
  intros pictures r. subst r.
  rewrite (proj2 (proj1 (welcome_each_participant (sampleWorld [false; false]) pictures
                           (lit "120363@g.us")
                           [lit "5511999@s.whatsapp.net"; lit "5522888@s.whatsapp.net"]
                           Side.initial))).
  reflexivity.
Defined.

Lemma uploads_app (a b : list Side.Call) : uploads (a ++ b) = uploads a ++ uploads b.
Proof. apply flat_map_app. Qed.

(** One turn of the loop of [syncAuthToSupabase], for a name that is a file
    of the folder and for one that is not.  The two scripts differ in the
    second case only: [readFileSync] throws and the fault is logged, or the
    name is skipped. *)
Lemma upload_step W (file : string) (d : gmap string string) (m : Machine Side.Log) :
  authFolder m = Some d ->
  exists cs cs',
    Side.upload W file m
    = (Normal tt,
       {| vars := vars m ++ cs; sock := sock m; authFolder := authFolder m;
          tick := (tick m + length (readable d [file]))%nat; trace := trace m |})
    /\ Side.upload_telao3 W file m
       = (Normal tt,
          {| vars := vars m ++ cs'; sock := sock m; authFolder := authFolder m;
             tick := (tick m + length (readable d [file]))%nat; trace := trace m |})
    /\ uploads cs = readable d [file]
    /\ uploads cs' = readable d [file]
    /\ (is_Some (d !! file) -> cs' = cs).
Proof.
  intros Ef. unfold Side.upload, Side.upload_telao3, Side.call, Side.consoleError.
  js_unfold. unfold readable. cbn [flat_map].
  assert (L : authFolder m ≫= (fun d0 : gmap string string => d0 !! file) = d !! file)
    by (rewrite Ef; reflexivity).
  rewrite L. destruct (d !! file) as [content|] eqn:Ed.
  - cbn [vars sock authFolder tick trace app length].
    destruct (outcome W (tick m)); cbn [vars sock authFolder tick trace];
      (do 2 eexists; split; [rewrite <- ?app_assoc, Nat.add_1_r; reflexivity|];
       split; [rewrite <- ?app_assoc, Nat.add_1_r; reflexivity|];
       split; [reflexivity|split; [reflexivity|reflexivity]]).
  - cbn [vars sock authFolder tick trace app length].
    exists [Side.CError], [].
    rewrite Nat.add_0_r, app_nil_r.
    split; [reflexivity|]. split; [destruct m; reflexivity|].
    split; [reflexivity|]. split; [reflexivity|].
    intros [c Hc]. discriminate Hc.
Qed.

Lemma readable_cons (d : gmap string string) (f : string) (l : list string) :
  readable d (f :: l) = readable d [f] ++ readable d l.
Proof. unfold readable. cbn [flat_map]. rewrite app_nil_r. reflexivity. Qed.

Lemma upload_loop W (names : list string) (d : gmap string string)
    (m : Machine Side.Log) :
  authFolder m = Some d ->
  exists cs cs',
    forOf names (Side.upload W) m
    = (Normal tt,
       {| vars := vars m ++ cs; sock := sock m; authFolder := authFolder m;
          tick := (tick m + length (readable d names))%nat; trace := trace m |})
    /\ forOf names (Side.upload_telao3 W) m
       = (Normal tt,
          {| vars := vars m ++ cs'; sock := sock m; authFolder := authFolder m;
             tick := (tick m + length (readable d names))%nat; trace := trace m |})
    /\ uploads cs = readable d names
    /\ uploads cs' = readable d names
    /\ ((forall f, In f names -> is_Some (d !! f)) -> cs' = cs).
Proof.
  revert m. induction names as [|file names IH]; intros m Ef.
  - exists [], []. cbn. rewrite app_nil_r, Nat.add_0_r. destruct m; auto.
  - cbn [forOf]. unfold bind at 1 2.
    destruct (upload_step W file d m Ef) as (c1 & c1' & E1 & E1' & H1 & H1' & Hs1).
    rewrite E1, E1'.
    match goal with
    | |- context [forOf names (Side.upload W) ?m1] =>
        destruct (IH m1 Ef) as (c2 & _ & E2 & _ & H2 & _ & _)
    end.
    match goal with
    | |- context [forOf names (Side.upload_telao3 W) ?m1] =>
        destruct (IH m1 Ef) as (c2x & c2' & E2x & E2' & _ & H2' & Hs2)
    end.
    rewrite E2, E2'. cbn [vars sock authFolder tick trace].
    exists (c1 ++ c2), (c1' ++ c2').
    rewrite (readable_cons d file names), length_app, !uploads_app, H1, H1', H2, H2'.
    rewrite <- !app_assoc, !Nat.add_assoc.
    repeat split; try reflexivity.
    intros Hall.
    rewrite Hs1 by (apply Hall; left; reflexivity).
    f_equal.
    assert (E : c2x = c2).
    { rewrite Hs1 in E2x by (apply Hall; left; reflexivity).
      rewrite E2 in E2x. injection E2x as E2x. apply app_inv_head in E2x.
      symmetry. exact E2x. }
    rewrite <- E. apply Hs2. intros f Hf. apply Hall. right. exact Hf.
Qed.

Lemma readable_In (d : gmap string string) (names : list string) (f c : string) :
  In (f, c) (readable d names) <-> In f names /\ d !! f = Some c.
Proof.
  induction names as [|g names IH]; [cbn; tauto|].
  rewrite readable_cons, in_app_iff, IH. unfold readable. cbn [flat_map In].
  destruct (d !! g) as [x|] eqn:E; cbn [app In]; split.
  - intros [[[= <- <-]|[]]|[H1 H2]]; auto.
  - intros [[<-|H1] H2]; [left; left; congruence|auto].
  - intros [[]|[H1 H2]]; auto.
  - intros [[<-|H1] H2]; [congruence|auto].
Qed.

Lemma readable_names (d : gmap string string) (names : list string) :
  (forall f, In f names -> is_Some (d !! f)) ->
  List.map fst (readable d names) = names.
Proof.
  induction names as [|g names IH]; intros H; [reflexivity|].
  rewrite readable_cons, List.map_app, IH by (intros f Hf; apply H; right; exact Hf).
  destruct (H g (or_introl eq_refl)) as [c Hc].
  unfold readable. cbn [flat_map]. rewrite Hc. reflexivity.
Qed.

Lemma readable_NoDup (d : gmap string string) (names : list string) :
  NoDup names -> NoDup (readable d names).
Proof.
  induction 1 as [|g names Hg Hn IH]; [constructor|].
  rewrite readable_cons. unfold readable at 1. cbn [flat_map].
  destruct (d !! g) as [c|]; cbn [app]; [|exact IH].
  constructor; [|exact IH].
  intros Hin. apply list_elem_of_In, readable_In in Hin.
  apply Hg, list_elem_of_In, Hin.
Qed.

(** When the listing names the files of the folder, each once, what is
    read is the content of the folder. *)
Lemma readable_folder (d : gmap string string) (names : list string) :
  NoDup names ->
  (forall f, In f names <-> is_Some (d !! f)) ->
  readable d names ≡ₚ map_to_list d.
Proof.
  intros Hn Hd. apply NoDup_Permutation.
  - apply readable_NoDup, Hn.
  - apply NoDup_map_to_list.
  - intros [f c]. rewrite elem_of_map_to_list, list_elem_of_In, readable_In, Hd.
    split; [tauto|]. intros H. split; [exists c|]; exact H.
Qed.

(** X22.  [syncAuthToSupabase] follows the listing of the local credential
    folder: for every name listed that is a file of the folder it attempts
    one upload of that file with its content, in the order of the listing,
    whatever upload is rejected (a rejection is logged and the loop goes
    on); it completes normally and leaves the folder as it is.  The variant
    of [src/telao3/index.js], which first checks that the file still
    exists, uploads the same.  When the listing names exactly the files of
    the folder, each once, the uploads are the files of the folder, each
    once, their names in the order of the listing, and the two variants do
    the same.  Without a folder nothing happens; and the ["creds.update"]
    listener uploads nothing when [saveCreds] rejects. *)
Theorem uploads_every_file (W : World) (readdirSync : gmap string string -> list string)
    (m : Machine Side.Log) :
  (forall d,
      authFolder m = Some d ->
      let r := Side.syncAuthToSupabase W readdirSync m in
      let r' := Side.syncAuthToSupabase_telao3 W readdirSync m in
      fst r = Normal tt
      /\ fst r' = Normal tt
      /\ uploads (newCalls m (snd r)) = readable d (readdirSync d)
      /\ uploads (newCalls m (snd r')) = readable d (readdirSync d)
      /\ authFolder (snd r) = Some d
      /\ authFolder (snd r') = Some d
      /\ (NoDup (readdirSync d) ->
          (forall f, In f (readdirSync d) <-> is_Some (d !! f)) ->
          List.map fst (uploads (newCalls m (snd r))) = readdirSync d
          /\ uploads (newCalls m (snd r)) ≡ₚ map_to_list d
          /\ r' = r))
  /\ (authFolder m = None ->
      Side.syncAuthToSupabase W readdirSync m = (Normal tt, m)
      /\ Side.syncAuthToSupabase_telao3 W readdirSync m = (Normal tt, m))
  /\ (outcome W (tick m) = false ->
      let r := Side.creds_update W readdirSync m in
      fst r = Throw /\ uploads (newCalls m (snd r)) = []).
Proof.
  split; [|split].
  - intros d Ef. cbv zeta.
    destruct (upload_loop W (readdirSync d) d m Ef)
      as (cs & cs' & E & E' & H & H' & Hs).
    assert (S1 : Side.syncAuthToSupabase W readdirSync m
                 = (Normal tt,
                    {| vars := vars m ++ cs; sock := sock m; authFolder := Some d;
                       tick := (tick m + length (readable d (readdirSync d)))%nat;
                       trace := trace m |})).
    { unfold Side.syncAuthToSupabase, function, bind, getAuthFolder.
      rewrite Ef, E, Ef. reflexivity. }
    assert (S2 : Side.syncAuthToSupabase_telao3 W readdirSync m
                 = (Normal tt,
                    {| vars := vars m ++ cs'; sock := sock m; authFolder := Some d;
                       tick := (tick m + length (readable d (readdirSync d)))%nat;
                       trace := trace m |})).
    { unfold Side.syncAuthToSupabase_telao3, function, bind, getAuthFolder.
      rewrite Ef, E', Ef. reflexivity. }
    rewrite S2, S1. cbn [fst snd vars authFolder].
    rewrite (newCalls_app m _ cs), (newCalls_app m _ cs') by reflexivity.
    repeat split; try assumption.
    + rewrite H. apply readable_names. intros f Hf. apply H1, Hf.
    + rewrite H. apply readable_folder; assumption.
    + rewrite Hs; [reflexivity|]. intros f Hf. apply H1, Hf.
  - intros Ef.
    unfold Side.syncAuthToSupabase, Side.syncAuthToSupabase_telao3, function,
      bind, getAuthFolder, returnJS.
    rewrite Ef. split; reflexivity.
  - intros Ho. cbv zeta. unfold Side.creds_update, bind, Side.call.
    rewrite Ho. cbn [fst snd].
    erewrite newCalls_app by reflexivity. split; reflexivity.
Qed.

(** X22, at a folder of two files that the file system lists by name, the
    first upload being rejected. *)
Lemma uploads_every_file_witness :
  let d : gmap string string :=
    {[ "creds.json"%string := "{}"%string; "keys.json"%string := "[]"%string ]} in
  let listing := fun _ : gmap string string =>
    ["creds.json"%string; "keys.json"%string] in
  let m := withFolder (Some d) Side.initial in
  let r := Side.syncAuthToSupabase (sampleWorld [false]) listing m in
  fst r = Normal tt
  /\ uploads (newCalls m (snd r))
     = [("creds.json"%string, "{}"%string); ("keys.json"%string, "[]"%string)]
  /\ uploads (newCalls m (snd r)) ≡ₚ map_to_list d.
Proof.
  intros d listing m.
  destruct (proj1 (uploads_every_file (sampleWorld [false]) listing m) d eq_refl)
    as (H1 & _ & H2 & _ & _ & _ & H3).
  split; [exact H1|]. split; [rewrite H2; reflexivity|].
  refine (proj1 (proj2 (H3 _ _))).
  - subst listing. cbv beta.
    constructor;
      [intros H; apply list_elem_of_In in H; destruct H as [H|[]]; discriminate H|].
    constructor; [intros H; apply list_elem_of_In in H; destruct H|constructor].
  - intros f. subst listing d. cbn [In]. split.
    + intros [<-|[<-|[]]]; eexists; reflexivity.
    + intros [c Hc].
      destruct (decide (f = "creds.json"%string)) as [->|N1]; [auto|].
      destruct (decide (f = "keys.json"%string)) as [->|N2]; [auto|].
      rewrite lookup_insert_ne, lookup_singleton_ne in Hc by congruence.
      discriminate Hc.
Defined.

(** ** The queue across a reconnection *)

Lemma flushEffects_deliveredOn W s t q : deliveredOn s (flushEffects W s t q).
Proof.
  revert t. induction q as [|x q IH]; intros t s' to p ok; cbn [flushEffects In];
    [tauto|].
  intros [[= <- _ _ _]|H]; [reflexivity|].
  apply in_app_or in H. destruct H as [H|H]; [|eapply IH, H].
  destruct (outcome W t); cbn [In] in H; [destruct H|].
  destruct H as [[=]|[]].
Qed.

Lemma deliveredOn_app s a b : deliveredOn s a -> deliveredOn s b -> deliveredOn s (a ++ b).
Proof.
  intros Ha Hb s' to p ok H. apply in_app_or in H. destruct H; eauto.
Qed.

Lemma deliveredOn_none s tr : attempted tr = [] -> deliveredOn s tr.
Proof.
  intros H s' to p ok Hin. exfalso.
  induction tr as [|e tr IH]; [destruct Hin|].
  destruct Hin as [->|Hin]; [discriminate H|].
  apply IH; [|exact Hin]. destruct e; cbn [attempted] in H; try exact H. discriminate H.
Qed.

Lemma scanEffects_attempted W sent t u : attempted (scanEffects W sent t u) = [].
Proof.
  unfold scanEffects. destruct (scanRuns sent u); [apply qrEffects_attempted|reflexivity].
Qed.

Lemma attempted_repeat_log l n : attempted (repeat (ELog l) n) = [].
Proof. induction n; [reflexivity|exact IHn]. Qed.

(** [iniciarBot] of [src/telao3/index.js] delivers nothing. *)
Lemma telao3_iniciarBot_quiet W (m : Machine Telao3.Vars) :
  exists f logs,
    Telao3.iniciarBot W m
    = (Normal tt,
       {| vars := vars m; sock := S (sock m); authFolder := Some f;
          tick := S (tick m);
          trace := trace m ++ logs ++ [ESocket (S (sock m))] |})
    /\ attempted logs = [].
Proof.
  unfold Telao3.iniciarBot, function. unfold bind at 1.
  rewrite telao3_sync. js_unfold.
  do 2 eexists. split; [rewrite <- app_assoc; reflexivity|].
  destruct (bucket W (tick m)) as [data|]; [apply attempted_repeat_log|reflexivity].
Qed.

(** X23.  What is queued when the connection closes is not lost by the
    reconnection.  In [src/telao3/index.js] for a closure that is not a
    logout, and in the supervised script for a closure that does not end
    the process: the closure, the restart it schedules and the opening of
    the new session complete; over the three events the deliveries
    attempted are exactly the entries that were queued before the closure,
    in their order; each of them goes through the socket that the restart
    created; and the queue is empty afterwards. *)
Theorem queue_survives_reconnection W (u o : Update) :
  connection u = Some ConnClose ->
  connection o = Some ConnOpen ->
  (forall m : Machine Telao3.Vars,
     (motivo u =? DisconnectReason_loggedOut) = false ->
     let r := run (Telao3Run.handle W) (reconnection u o) m in
     fst r = Normal tt
     /\ attempted (newEffects m (snd r)) = Telao3.pendingMessages (vars m)
     /\ deliveredOn (S (sock m)) (newEffects m (snd r))
     /\ Telao3.pendingMessages (vars (snd r)) = [])
  /\ (forall m : Machine Supervised.Vars,
        fst (Supervised.connection_update W u m) = Normal tt ->
        let r := run (SupervisedRun.handle W) (reconnection u o) m in
        fst r = Normal tt
        /\ attempted (newEffects m (snd r)) = Supervised.pendingMessages (vars m)
        /\ deliveredOn (S (sock m)) (newEffects m (snd r))
        /\ Supervised.pendingMessages (vars (snd r)) = []).
Proof.
  intros Hu Ho. split.
  - intros m Hl. cbv zeta. unfold reconnection.
    rewrite run_cons. cbn [Telao3Run.handle].
    rewrite (telao3_close W u m Hu). cbv zeta. rewrite Hl.
    rewrite run_cons. cbn [Telao3Run.handle].
    match goal with
    | |- context [Telao3.iniciarBot W ?m1] =>
        destruct (telao3_iniciarBot_quiet W m1) as (f & logs & -> & Hlogs)
    end.
    cbn [vars sock authFolder tick trace].
    rewrite run_cons. cbn [Telao3Run.handle].
    rewrite (telao3_open W o _ Ho). cbn [vars sock authFolder tick trace run fst snd].
    match goal with
    | |- context [newEffects m ?m'] =>
        rewrite (newEffects_app m m' _ ltac:(cbn [trace]; rewrite <- !app_assoc; reflexivity))
    end.
    assert (Hq : forall t q, attempted
                   match truthy (qr q) with
                   | Some x => qrEffects W t x
                   | None => []
                   end = []).
    { intros t q. destruct (truthy (qr q)); [apply qrEffects_attempted|reflexivity]. }
    split; [reflexivity|]. split; [|split; [|reflexivity]].
    + rewrite !attempted_app, !Hq, Hlogs, flushEffects_attempted. reflexivity.
    + repeat apply deliveredOn_app;
        try (apply deliveredOn_none; first [apply Hq | exact Hlogs | reflexivity]).
      apply flushEffects_deliveredOn.
  - intros m Hn. cbv zeta. unfold reconnection.
    rewrite run_cons. cbn [SupervisedRun.handle].
    pose proof (supervised_close W u m Hu) as Hc. cbv zeta in Hc.
    rewrite Hc in Hn |- *. clear Hc.
    assert (Hq : forall t, attempted
                   match scanRuns false o with
                   | Some x => qrEffects W t x
                   | None => []
                   end = [])
      by (intros t; destruct (scanRuns false o); [apply qrEffects_attempted|reflexivity]).
    destruct (motivo u =? DisconnectReason_loggedOut);
      [|destruct (attemptsAtClose m u >? Supervised.MAX_RECONNECT_ATTEMPTS);
        [discriminate Hn|]];
      (rewrite run_cons; cbn [SupervisedRun.handle];
       match goal with
       | |- context [Supervised.iniciarBot W ?m1] =>
           destruct (supervised_iniciarBot W m1) as (f & ->)
       end;
       cbn [vars sock authFolder tick trace Supervised.pendingMessages
            Supervised.authReady Supervised.qrSent Supervised.reconnectAttempts];
       rewrite run_cons; cbn [SupervisedRun.handle];
       rewrite (supervised_open W o _ Ho);
       cbn [vars sock authFolder tick trace run fst snd Supervised.pendingMessages
            Supervised.authReady Supervised.qrSent Supervised.reconnectAttempts];
       match goal with
       | |- context [newEffects m ?m'] =>
           rewrite (newEffects_app m m' _
                      ltac:(cbn [trace]; rewrite <- !app_assoc; reflexivity))
       end;
       (split; [reflexivity|]); (split; [|split; [|reflexivity]]);
       [ rewrite !attempted_app, scanEffects_attempted, Hq, flushEffects_attempted;
         cbn [attempted app]; apply app_nil_r
       | repeat apply deliveredOn_app;
         try (apply deliveredOn_none;
              first [apply scanEffects_attempted | apply Hq | reflexivity]);
         apply flushEffects_deliveredOn ]).
Qed.

Lemma queue_survives_reconnection_witness :
  let r := run (SupervisedRun.handle (sampleWorld [])) (reconnection lostUpdate openUpdate)
             supervisedQueued in
  fst r = Normal tt
  /\ attempted (newEffects supervisedQueued (snd r))
     = [replyTo "5511@s.whatsapp.net" textIniciando; replyTo "120363@g.us" textErro]
  /\ deliveredOn 2 (newEffects supervisedQueued (snd r))
  /\ Supervised.pendingMessages (vars (snd r)) = [].
Proof.
  exact (proj2 (queue_survives_reconnection (sampleWorld []) lostUpdate openUpdate
                  eq_refl eq_refl)
           supervisedQueued eq_refl).
Defined.
